(** * The consensus inference pipeline of TeslaMCQTreehacks

    A shallow embedding of the Python scripts [extract_answers.py],
    [three_times.py], [three_times_preview.py], [reasoner.py],
    [fill_gaps.py] and [split_frames.py], followed by the properties of
    the pipeline that hold of them.

    Python text is a sequence of Unicode code points, so a [str] is a
    [list N]; dictionaries are [gmap]s keyed by their (ASCII) field
    names; exceptions are values of [exn] threaded through [result]. *)

From Stdlib Require Import ZArith NArith List String Ascii Lia Bool DecimalString Sorted.
From stdpp Require Import base option list gmap sets strings.

Set Default Proof Using "Type".
Open Scope Z_scope.

(* ===================================================================== *)
(** * Python values                                                       *)
(* ===================================================================== *)

Module Py.

(** [str]: a sequence of code points. *)
Abbreviation str := (list N).

(** A source literal (all ASCII) as a [str]. *)
Fixpoint of_string (s : string) : str :=
  match s with
  | EmptyString => []
  | String a r => N_of_ascii a :: of_string r
  end.

(** [str(n)] and [f"{n}"] for an [int]. *)
Definition str_of_int (z : Z) : str :=
  of_string (NilZero.string_of_int (Z.to_int z)).

(** Exception classes the scripts meet; [JSONDecodeError] derives from
    [ValueError], and every class here derives from [Exception]. *)
Inductive exn_class :=
| ValueError | JSONDecodeError | TypeError | AttributeError | KeyError
| IndexError | FileNotFoundError | OSError | APIError.

(** An exception: its class and [str(e)]. *)
Record exn := Exn { exn_cls : exn_class; exn_msg : str }.

(** [isinstance(e, ValueError)]. *)
Definition is_ValueError (e : exn) : bool :=
  match exn_cls e with
  | ValueError | JSONDecodeError => true
  | _ => false
  end.

(** The outcome of an expression that may raise. *)
Inductive result (A : Type) :=
| Ok (a : A)
| Raise (e : exn).
Arguments Ok {A} a.
Arguments Raise {A} e.

Definition bind {A B} (r : result A) (k : A -> result B) : result B :=
  match r with
  | Ok a => k a
  | Raise e => Raise e
  end.

(** [try: body / except Exception as e: handler(e)]. *)
Definition try_except {A} (body : result A) (handler : exn -> A) : A :=
  match body with
  | Ok a => a
  | Raise e => handler e
  end.

(** A value found in a dictionary, as far as the scripts look at it:
    they test it for truth, match a regular expression against it,
    interpolate it into a prompt or store it again.  [VOther] stands for
    a [bool], a [float], a list or a nested dictionary, with its truth
    value and its [str()]. *)
Inductive value :=
| VNone
| VStr (s : str)
| VInt (z : Z)
| VOther (truthy : bool) (text : str).

(** [bool(v)]. *)
Definition truthy (v : value) : bool :=
  match v with
  | VNone => false
  | VStr s => negb (bool_decide (s = []))
  | VInt z => negb (z =? 0)
  | VOther t _ => t
  end.

(** [f"{v}"]. *)
Definition format (v : value) : str :=
  match v with
  | VNone => of_string "None"
  | VStr s => s
  | VInt z => str_of_int z
  | VOther _ t => t
  end.

(** The parsed content of a result file: a dictionary, or any other JSON
    value (on which [.get] raises [AttributeError]). *)
Inductive json_content :=
| JDict (d : gmap string value)
| JOther.

(** [str.isspace] of a single character, which is also the class [\s]
    of [re] on a [str] pattern. *)
Definition isspace (c : N) : bool :=
  ((9 <=? c) && (c <=? 13) || (28 <=? c) && (c <=? 32)
   || (c =? 133) || (c =? 160) || (c =? 5760)
   || (8192 <=? c) && (c <=? 8202)
   || (c =? 8232) || (c =? 8233) || (c =? 8239) || (c =? 8287)
   || (c =? 12288))%N.

(** The whitespace [int()] strips: [str.isspace] without the four
    information separators U+001C to U+001F. *)
Definition int_space (c : N) : bool :=
  isspace c && negb ((28 <=? c) && (c <=? 31))%N.

(** The first code point of every block of decimal digits (general
    category Nd); a block is ten consecutive code points, valued 0 to 9. *)
Definition decimal_blocks : list N :=
  [48; 1632; 1776; 1984; 2406; 2534; 2662; 2790; 2918; 3046; 3174; 3302;
   3430; 3558; 3664; 3792; 3872; 4160; 4240; 6112; 6160; 6470; 6608; 6784;
   6800; 6992; 7088; 7232; 7248; 42528; 43216; 43264; 43472; 43504; 43600;
   44016; 65296; 66720; 68912; 69734; 69872; 69942; 70096; 70384; 70736;
   70864; 71248; 71360; 71472; 71904; 72016; 72784; 73040; 73120; 92768;
   92864; 93008; 120782; 120792; 120802; 120812; 120822; 123200; 123632;
   125264; 130032]%N.

Definition decimal_value (c : N) : option Z :=
  match filter (fun b => ((b <=? c) && (c <? b + 10))%N = true) decimal_blocks with
  | b :: _ => Some (Z.of_N (c - b))
  | [] => None
  end.

(** The digits of a decimal literal, most significant first; a single
    underscore may separate two digits. *)
Fixpoint digits_value (acc : Z) (after_digit : bool) (s : str) : option Z :=
  match s with
  | [] => if after_digit then Some acc else None
  | c :: r =>
      if (c =? 95)%N then
        if after_digit then
          match r with
          | [] => None
          | _ => digits_value acc false r
          end
        else None
      else
        match decimal_value c with
        | Some d => digits_value (10 * acc + d) true r
        | None => None
        end
  end.

Fixpoint take_while (f : N -> bool) (s : str) : str :=
  match s with
  | c :: r => if f c then c :: take_while f r else []
  | [] => []
  end.

Fixpoint drop_while (f : N -> bool) (s : str) : str :=
  match s with
  | c :: r => if f c then drop_while f r else s
  | [] => []
  end.

Definition lstrip (s : str) : str := drop_while int_space s.
Definition strip (s : str) : str := reverse (lstrip (reverse (lstrip s))).

(** [int(s)] for a [str]: surrounding whitespace, an optional sign, then
    decimal digits.  (File names are far shorter than the 4300 digits at
    which [int] starts to refuse a literal.) *)
Definition py_int (s : str) : result Z :=
  let t := strip s in
  let '(sign, ds) :=
    match t with
    | c :: r =>
        if (c =? 43)%N then (1, r) else if (c =? 45)%N then (-1, r) else (1, t)
    | [] => (1, t)
    end in
  match digits_value 0 false ds with
  | Some v => Ok (sign * v)
  | None => Raise (Exn ValueError (of_string "invalid literal for int() with base 10"))
  end.

(** [s.split('_')[0]]. *)
Definition split_first (s : str) : str := take_while (fun c => negb (c =? 95)%N) s.

(** Lexicographic [<=] on [str], the order [list.sort] uses on keys. *)
Fixpoint str_le (a b : str) : bool :=
  match a, b with
  | [], _ => true
  | _ :: _, [] => false
  | x :: a', y :: b' => (x <? y)%N || ((x =? y)%N && str_le a' b')
  end.

End Py.

(* ===================================================================== *)
(** * The fragment of [re] that the extractor uses                        *)
(* ===================================================================== *)

Module Re.
Import Py.

(** What matches one character. *)
Inductive atom :=
| Lit (c : N)            (* an ordinary character *)
| Range (lo hi : N)      (* [lo-hi] *)
| Space                  (* \s *)
| Dot                    (* . without DOTALL: anything but a newline *)
| Union (a b : atom).    (* two members of one [...] *)

Fixpoint atom_matches (a : atom) (c : N) : bool :=
  match a with
  | Lit d => (c =? d)%N
  | Range lo hi => ((lo <=? c) && (c <=? hi))%N
  | Space => isspace c
  | Dot => negb (c =? 10)%N
  | Union a b => atom_matches a c || atom_matches b c
  end.

(** A pattern is a sequence of items: one character, one character
    captured as group 1, or a lazy repetition [a*?]. *)
Inductive item :=
| One (a : atom)
| Group (a : atom)
| LazyStar (a : atom).

Abbreviation pattern := (list item).

(** The literal characters of a string, in order. *)
Definition lits (s : string) : pattern := map (fun c => One (Lit c)) (of_string s).

(** Backtracking match anchored at the head of [s].  The result is the
    match's group 1 ([None] while the group has not taken part).  A lazy
    repetition first tries to stop, and takes one more character only
    when the rest of the pattern fails. *)
Fixpoint match_here (p : pattern) : str -> option str -> option (option str) :=
  match p with
  | [] => fun _ g => Some g
  | One a :: p' => fun s g =>
      match s with
      | c :: s' => if atom_matches a c then match_here p' s' g else None
      | [] => None
      end
  | Group a :: p' => fun s g =>
      match s with
      | c :: s' => if atom_matches a c then match_here p' s' (Some [c]) else None
      | [] => None
      end
  | LazyStar a :: p' =>
      fix loop (s : str) (g : option str) : option (option str) :=
        match match_here p' s g with
        | Some r => Some r
        | None =>
            match s with
            | c :: s' => if atom_matches a c then loop s' g else None
            | [] => None
            end
        end
  end.

(** [re.search(p, s)]: the match at the leftmost position that has one
    (every position from 0 to [len(s)] is tried); the result is the
    match's group 1, or [None] when there is no match object. *)
Fixpoint search (p : pattern) (s : str) : option (option str) :=
  match match_here p s None with
  | Some g => Some g
  | None =>
      match s with
      | [] => None
      | _ :: s' => search p s'
      end
  end.

End Re.

(* ===================================================================== *)
(** * extract_answers.py                                                  *)
(* ===================================================================== *)

Module ExtractAnswers.
Import Py Re.

(** r'<answer>([A-E])[.\s].*?</answer>' *)
Definition pattern_with_content : pattern :=
  lits "<answer>" ++ [Group (Range 65 69); One (Union (Lit 46) Space); LazyStar Dot]
  ++ lits "</answer>".

(** r'<answer>([A-E])</answer>' *)
Definition pattern_letter : pattern :=
  lits "<answer>" ++ [Group (Range 65 69)] ++ lits "</answer>".

(** [re.search(p, answer_text)], which raises [TypeError] unless the
    subject is a [str]. *)
Definition re_search (p : pattern) (answer_text : value) : result (option (option str)) :=
  match answer_text with
  | VStr s => Ok (search p s)
  | _ => Raise (Exn TypeError (of_string "expected string or bytes-like object"))
  end.

(** [json_content.get('answer', '')]. *)
Definition get_answer (jc : json_content) : result value :=
  match jc with
  | JDict d => Ok (default (VStr []) (d !! "answer"%string))
  | JOther => Raise (Exn AttributeError (of_string "object has no attribute 'get'"))
  end.

Definition extract_answer_from_json (jc : json_content) : result (option str) :=
  bind (get_answer jc) (fun answer_text =>
  bind (re_search pattern_with_content answer_text) (fun m =>
  match m with
  | Some g => Ok g
  | None =>
      bind (re_search pattern_letter answer_text) (fun m =>
      match m with
      | Some g => Ok g
      | None => Ok None
      end)
  end)).

(** The record whose ['answer'] field is the given text. *)
Definition answer_record (text : str) : json_content :=
  JDict {[ "answer"%string := VStr text ]}.

(** One entry of [json_files]: its name, and what [open] followed by
    [json.load] gives for it. *)
Record json_file := JsonFile { name : str; content : result json_content }.

(** The lines [process_files] prints while it scans. *)
Inductive line :=
| NoAnswerFound (file : str)              (* Warning: No answer found in ... *)
| ErrorProcessing (file : str) (msg : str) (* Error processing ...: ... *)
| InvalidIdFormat (file : str)            (* Warning: Invalid ID format in filename ... *)
| MissingAnswers (ids : list Z)           (* Warning: Missing answers for IDs: ... *)
| ResultsWritten (output_file : str)      (* Results written to ... *)
| Processed (files : nat).                (* Processed ... files *)

(** The variables the loop updates. *)
Record scan := Scan {
  results : list (str * str);
  processed_ids : gset Z;
  printed : list line
}.

Definition print (l : line) (st : scan) : scan :=
  Scan (results st) (processed_ids st) (printed st ++ [l]).

(** The body of the [for json_file in json_files] loop. *)
Definition scan_file (st : scan) (f : json_file) : result scan :=
  let file_id := split_first (name f) in
  match
    bind (py_int file_id) (fun id_num =>
      if (1 <=? id_num) && (id_num <=? 251) then
        Ok (try_except
              (bind (content f) (fun jc =>
               bind (extract_answer_from_json jc) (fun answer =>
               match answer with
               | Some (c :: a) =>
                   Ok (Scan (results st ++ [(file_id, c :: a)])
                            ({[id_num]} ∪ processed_ids st)
                            (printed st))
               | _ => Ok (print (NoAnswerFound (name f)) st)
               end)))
              (fun e => print (ErrorProcessing (name f) (exn_msg e)) st))
      else Ok st)
  with
  | Ok st' => Ok st'
  | Raise e =>
      if is_ValueError e then Ok (print (InvalidIdFormat (name f)) st)
      else Raise e
  end.

Fixpoint scan_files (st : scan) (json_files : list json_file) : result scan :=
  match json_files with
  | [] => Ok st
  | f :: rest => bind (scan_file st f) (fun st' => scan_files st' rest)
  end.

(** [results.sort(key=lambda x: x[0])], a stable sort. *)
Fixpoint insert_by_id (r : str * str) (l : list (str * str)) : list (str * str) :=
  match l with
  | [] => [r]
  | x :: l' => if str_le r.1 x.1 then r :: l else x :: insert_by_id r l'
  end.

Definition sort_by_id (l : list (str * str)) : list (str * str) :=
  foldr insert_by_id [] l.

(** What [process_files] leaves behind: the rows of [answers.csv] after
    the header, the two sets of ids, and what was printed. *)
Record report := Report {
  csv_rows : list (str * str);
  success_ids : gset Z;
  missing_ids : gset Z;
  output : list line
}.

Definition all_expected_ids : gset Z := list_to_set (seqZ 1 251).

(** [if missing_ids: print(... sorted(missing_ids) ...)]. *)
Definition report_missing (missing : gset Z) : list line :=
  if bool_decide (missing = ∅) then []
  else [MissingAnswers (filter (fun i => i ∈ missing) (seqZ 1 251))].

(** [process_files], from the loop over [json_files] on ([json_files] is
    [sorted(folder.glob('*.json'))]). *)
Definition process_files (json_files : list json_file) : result report :=
  bind (scan_files (Scan [] ∅ []) json_files) (fun st =>
  let rows := sort_by_id (results st) in
  let missing := all_expected_ids ∖ processed_ids st in
  Ok (Report rows (processed_ids st) missing
        (printed st ++ report_missing missing
         ++ [ResultsWritten (of_string "answers.csv"); Processed (length rows)]))).

(** ** Vocabulary for the properties *)

Definition open_tag : str := of_string "<answer>".
Definition close_tag : str := of_string "</answer>".

(** One of the five option letters A to E. *)
Definition is_label (c : N) : bool := ((65 <=? c) && (c <=? 69))%N.

Fixpoint is_prefix (w s : str) : bool :=
  match w, s with
  | [], _ => true
  | x :: w', y :: s' => (x =? y)%N && is_prefix w' s'
  | _ :: _, [] => false
  end.

(** What follows the first occurrence of [w] in [s]. *)
Fixpoint find_sub (w s : str) : option str :=
  if is_prefix w s then Some (drop (length w) s)
  else
    match s with
    | [] => None
    | _ :: s' => find_sub w s'
    end.

(** The text holds an opening tag with a closing tag after it. *)
Definition has_tag_pair (s : str) : bool :=
  match find_sub open_tag s with
  | Some r => bool_decide (is_Some (find_sub close_tag r))
  | None => false
  end.

(** The same, as a proposition. *)
Definition contains_tag_pair (s : str) : Prop :=
  exists pre mid post, s = pre ++ open_tag ++ mid ++ close_tag ++ post.

(** [s] starts with the label [c] alone between the tags. *)
Definition bare_form (s : str) (c : N) : Prop :=
  is_label c = true /\ exists rest, s = open_tag ++ c :: close_tag ++ rest.

(** [s] starts with an opening tag, the label [c], a full stop or a
    whitespace character, any text without a newline, and a closing tag. *)
Definition content_form (s : str) (c : N) : Prop :=
  is_label c = true /\
  exists d tail rest,
    s = open_tag ++ c :: d :: tail ++ close_tag ++ rest /\
    (d = 46%N \/ isspace d = true) /\
    Forall (fun x => x <> 10%N) tail.

(** [suf] is the leftmost place of [s] where [P] holds. *)
Definition leftmost (P : str -> Prop) (s pre suf : str) : Prop :=
  s = pre ++ suf /\ P suf /\
  forall pre' suf', s = pre' ++ suf' -> (length pre' < length pre)%nat -> ~ P suf'.

(** No place of [s] satisfies [P]. *)
Definition nowhere (P : str -> Prop) (s : str) : Prop :=
  forall pre suf, s = pre ++ suf -> ~ P suf.

(** The label a file contributes: its name gives the id, its content
    loads, and the extractor finds a label in it. *)
Definition parsed_label (f : json_file) : option (Z * str) :=
  match py_int (split_first (name f)) with
  | Ok id_num =>
      match bind (content f) extract_answer_from_json with
      | Ok (Some (c :: a)) => Some (id_num, c :: a)
      | _ => None
      end
  | Raise _ => None
  end.

(** The id a file name stands for. *)
Definition id_of (f : json_file) : result Z := py_int (split_first (name f)).

(** The identifier in the file name is not a number. *)
Definition non_numeric (f : json_file) : bool :=
  match py_int (split_first (name f)) with
  | Ok _ => false
  | Raise _ => true
  end.

(** The identifier is a number outside 1..251. *)
Definition out_of_range (f : json_file) : bool :=
  match py_int (split_first (name f)) with
  | Ok i => negb ((1 <=? i) && (i <=? 251))
  | Raise _ => false
  end.

Definition malformed (f : json_file) : bool := non_numeric f || out_of_range f.

(** The ids a file adds to the success set. *)
Definition label_ids (f : json_file) : gset Z :=
  match parsed_label f with
  | Some (i, _) => if (1 <=? i) && (i <=? 251) then {[i]} else ∅
  | None => ∅
  end.

(** What scanning one file appends to the loop's variables. *)
Definition file_effect (f : json_file) : scan :=
  match scan_file (Scan [] ∅ []) f with
  | Ok st => st
  | Raise _ => Scan [] ∅ []
  end.

Definition scan_app (a b : scan) : scan :=
  Scan (results a ++ results b) (processed_ids b ∪ processed_ids a)
       (printed a ++ printed b).

(** The warning about an identifier that is not a number. *)
Definition is_invalid_id_line (l : line) : bool :=
  match l with
  | InvalidIdFormat _ => true
  | _ => false
  end.

(** The rows the scan collects, in the order of the files. *)
Definition scanned_rows (json_files : list json_file) : list (str * str) :=
  flat_map results (map file_effect json_files).

(** The order of [answers.csv]: by the text of the id. *)
Definition row_le (a b : str * str) : Prop := str_le a.1 b.1 = true.

(** An id text made of ASCII digits, and the number it writes. *)
Definition is_ascii_digit (c : N) : bool := ((48 <=? c) && (c <=? 57))%N.

Definition decimal (acc : Z) (s : str) : Z :=
  fold_left (fun acc c => 10 * acc + Z.of_N (c - 48)) s acc.

(** The order of the numbers the ids of two rows stand for. *)
Definition id_le (a b : str * str) : Prop :=
  exists i j, py_int a.1 = Ok i /\ py_int b.1 = Ok j /\ i <= j.

Definition is_no_answer_line (l : line) : bool :=
  match l with NoAnswerFound _ => true | _ => false end.

Definition is_error_line (l : line) : bool :=
  match l with ErrorProcessing _ _ => true | _ => false end.

Definition count_lines (kind : line -> bool) (ls : list line) : nat :=
  length (filter (fun l => kind l = true) ls).

(** ** Sample sinks *)

(** A result file whose text is [text]. *)
Definition result_file (file text : string) : json_file :=
  JsonFile (of_string file) (Ok (answer_record (of_string text))).

(** A result file that records a remote error. *)
Definition error_file (file msg : string) : json_file :=
  JsonFile (of_string file) (Ok (JDict {[ "error"%string := VStr (of_string msg) ]})).

(** A file that [json.load] refuses. *)
Definition broken_file (file : string) : json_file :=
  JsonFile (of_string file)
    (Raise (Exn JSONDecodeError (of_string "Expecting value: line 1 column 1 (char 0)"))).

Definition sample_sink : list json_file :=
  [ result_file "00001_result.json" "Frame 1 shows a stop sign. <answer>B</answer>";
    error_file "00002_result.json" "Request timed out.";
    broken_file "00003_result.json";
    result_file "00300_result.json" "<answer>A</answer>";
    result_file "notes.json" "<answer>C</answer>" ].

End ExtractAnswers.


(* ===================================================================== *)
(** * The remote endpoint, the file system and the trace of a run         *)
(* ===================================================================== *)

(** A run is modelled from the point where [main] has found its API key
    (without the key [main] raises before it does anything); the calls
    to the logger, which touch no data, are left out.  The coroutines
    that [asyncio.gather] runs are executed one after the other, in the
    order of its arguments, which is also the order of its results
    (when one of them raises, [asyncio.gather] hands that exception to
    its caller, and the run ends there); the remote endpoint is an
    arbitrary function of the history of the run, so every assignment
    of outcomes to calls is covered.  The interleaving itself is the
    subject of [Dispatcher]. *)

Module Run.
Import Py.

(** ** The chat completion API *)

(** A choice of a completion: [message.content] (a [str] or [None]) and
    [finish_reason]. *)
Record choice := Choice { message_content : value; choice_finish_reason : value }.

Record completion := Completion { choices : list choice }.

(** A part of a message's content. *)
Inductive part :=
| Text (text : str)
| ImageUrl (url : str).

(** The content of the one user message of a request. *)
Inductive content :=
| Plain (prompt : str)
| Parts (parts : list part).

(** The arguments of [chat.completions.create]; the sampling options are
    kept as the source writes them. *)
Record request := Request {
  model : string;
  user_content : content;
  max_tokens : option Z;
  temperature : option string;
  top_p : option string
}.

(** ** What the scripts store *)

(** An entry of the ["attempts"] list of an initial answer. *)
Record attempt := Attempt {
  attempt_number : Z;
  answer : value;
  finish_reason : value;
  error : value
}.

(** What [json.dump] is given. *)
Inductive document :=
| Dict (d : gmap string value)
| Combined (video_id : value) (attempts : list attempt).

(** ** The trace of a run *)

Inductive event :=
| Glob (video_id : str)                  (* the frames of a video are listed *)
| ReadImage (path : str)                 (* a frame is read and encoded *)
| Create (req : request)                 (* a remote inference call is issued *)
| Dump (path : str) (doc : document).    (* a file is written *)

(** A computation that extends the trace. *)
Definition M (A : Type) : Type := list event -> A * list event.

Definition ret {A} (a : A) : M A := fun tr => (a, tr).

Definition and_then {A B} (m : M A) (k : A -> M B) : M B :=
  fun tr => let '(a, tr') := m tr in k a tr'.

Definition emit (e : event) : M unit := fun tr => (tt, tr ++ [e]).

(** A computation that may raise: the rest runs only on [Ok]. *)
Definition and_then_ok {A B} (m : M (result A)) (k : A -> M (result B)) : M (result B) :=
  and_then m (fun r =>
    match r with
    | Ok a => k a
    | Raise e => ret (Raise e)
    end).

(** [try: body / except Exception as e: handler(e)] around an effectful
    body. *)
Definition try_catch {A} (body : M (result A)) (handler : exn -> A) : M A :=
  and_then body (fun r => ret (try_except r handler)).

(** [for x in xs: body(x)] collecting the results, as [asyncio.gather]
    returns them: in the order of the arguments. *)
Fixpoint for_each {A B} (body : A -> M B) (xs : list A) : M (list B) :=
  match xs with
  | [] => ret []
  | x :: rest =>
      and_then (body x) (fun b =>
      and_then (for_each body rest) (fun bs => ret (b :: bs)))
  end.

(** The remote endpoint: what the call answers, given everything that
    happened in the run before it and the request. *)
Definition endpoint : Type := list event -> request -> result completion.

(** [await client.chat.completions.create(...)]. *)
Definition create (remote : endpoint) (req : request) : M (result completion) :=
  fun tr => (remote tr req, tr ++ [Create req]).

(** The same for bodies that may raise: the first exception ends the
    loop. *)
Fixpoint for_each_ok {A B} (body : A -> M (result B)) (xs : list A) : M (result (list B)) :=
  match xs with
  | [] => ret (Ok [])
  | x :: rest =>
      and_then_ok (body x) (fun b =>
      and_then_ok (for_each_ok body rest) (fun bs => ret (Ok (b :: bs))))
  end.

(** [completion.choices[0]]. *)
Definition first_choice (c : completion) : result choice :=
  match choices c with
  | ch :: _ => Ok ch
  | [] => Raise (Exn IndexError (of_string "list index out of range"))
  end.

(** A row of [questions.csv]. *)
Record row := Row { id : str; question : str }.

(** [d.get(k)]. *)
Definition get (d : gmap string value) (k : string) : value := default VNone (d !! k).

(** The events of a trace that are remote calls. *)
Definition is_create (e : event) : bool :=
  match e with Create _ => true | _ => false end.

(** The events of a trace that write a file. *)
Definition is_dump (e : event) : bool :=
  match e with Dump _ _ => true | _ => false end.

(** ** Vocabulary for the properties *)

(** The fields of a Result as it is written: the response, or the error. *)
Definition response_fields : gset string :=
  {[ "answer"%string; "finish_reason"%string ]}.

Definition error_fields : gset string := {[ "error"%string ]}.

(** Where the reasoning scripts write the Result of a video. *)
Definition final_path (video_id : str) : str :=
  of_string "final_answers/" ++ video_id ++ of_string "_result.json".

(** ** The frames of a video *)

(** What the vision scripts read and call. *)
Record world := World {
  frames : str -> list str;     (* the sorted frame paths of a video *)
  image : str -> result str;    (* a frame file, base64-encoded *)
  remote : endpoint
}.

(** [get_frame_paths] (the same in three_times.py and fill_gaps.py). *)
Definition get_frame_paths (w : world) (video_id : str) : M (list str) :=
  and_then (emit (Glob video_id)) (fun _ => ret (frames w video_id)).

(** [encode_image]. *)
Definition encode_image (w : world) (path : str) : M (result str) :=
  and_then (emit (ReadImage path)) (fun _ => ret (image w path)).

(** [for path in frame_paths: content.append({"type": "image_url", ...})]. *)
Fixpoint add_frames (w : world) (frame_paths : list str) (content : list part)
  : M (result (list part)) :=
  match frame_paths with
  | [] => ret (Ok content)
  | path :: rest =>
      and_then_ok (encode_image w path) (fun base64_image =>
      add_frames w rest
        (content ++ [ImageUrl (of_string "data:image/jpeg;base64," ++ base64_image)]))
  end.

End Run.


(* ===================================================================== *)
(** * three_times.py: the Attempt Sampler                                 *)
(* ===================================================================== *)

Module ThreeTimes.
Import Py Run.

(** The text of [create_prompt] before the question. *)
Definition prompt_head : str :=
  of_string "You have 5 equally spaced frames (Frame 1 through Frame 5) captured from a 5-second dashcam video, taken from the driver" ++ [8217%N] ++ of_string "s forward-facing perspective.

Using these frames, answer the following multiple-choice question by choosing the single best answer. Incorporate any relevant details observed in the frames (for example, lanes, signage, vehicles, pedestrians, traffic signals, road markings, obstructions) that might help in selecting the correct answer. Consider how details may change across the frames and note that some frames may be more crucial than others. Explain your reasoning in detail.

Steps to follow:
1. **Frame-by-Frame Analysis:** Describe the significant elements you notice in each of the 5 frames (e.g., signs, road markings, obstructions, other vehicles, potential hazards).
2. **Contextual Reasoning:** Integrate the observations from each frame. Think about what is happening over time, which elements are most relevant, and how they connect to the question.
3. **Match to Answer Choices:** Relate your findings to each of the multiple-choice options. Eliminate those that are inconsistent with the visual evidence or standard traffic rules, and select the most appropriate remaining choice.
4. **Provide the Best Answer:** Conclude with the final choice that best matches the situation. Output that choice in `<answer></answer>` tags.

Now, here is the question and its multiple-choice options:

".

Definition create_prompt (question : str) : str :=
  prompt_head ++ question ++ [10%N].

(** The body of the [try] of [process_question]. *)
Definition attempt_body (w : world) (video_id question : str)
  : M (result (gmap string value)) :=
  and_then (get_frame_paths w video_id) (fun frame_paths =>
  if bool_decide (frame_paths = []) then
    ret (Raise (Exn FileNotFoundError
                  (of_string "No frames found for video ID " ++ video_id)))
  else
    and_then_ok (add_frames w frame_paths [Text (create_prompt question)]) (fun content =>
    and_then_ok
      (create (remote w)
         (Request "gpt-4o" (Parts content) (Some 8192) (Some "0.7"%string) None))
      (fun completion =>
    ret (bind (first_choice completion) (fun ch =>
         Ok ({[ "video_id"%string := VStr video_id;
                "answer"%string := message_content ch;
                "finish_reason"%string := choice_finish_reason ch ]}
               : gmap string value)))))).

Definition process_question (w : world) (video_id question : str)
  : M (gmap string value) :=
  try_catch (attempt_body w video_id question)
    (fun e => {[ "video_id"%string := VStr video_id;
                 "error"%string := VStr (exn_msg e) ]}).

(** The entry [main] builds from the [i]-th result. *)
Definition attempt_data (i : nat) (res : gmap string value) : attempt :=
  Attempt (Z.of_nat i) (get res "answer") (get res "finish_reason") (get res "error").

(** [for i, result in enumerate(question_results, 1)]. *)
Definition attempts_of (question_results : list (gmap string value)) : list attempt :=
  imap (fun i res => attempt_data (S i) res) question_results.

(** One round of the loop of [main] up to [combined_result]:
    [attempt_count] calls for the same question ([range(3)] in the
    source), gathered in order. *)
Definition sample_question (w : world) (attempt_count : nat) (q : row)
  : M (result document) :=
  and_then
    (for_each (fun _ => process_question w (id q) (question q)) (seq 0 attempt_count))
    (fun question_results =>
  ret match question_results with
      | [] => Raise (Exn IndexError (of_string "list index out of range"))
      | first :: _ =>
          match first !! "video_id"%string with
          | Some video_id => Ok (Combined video_id (attempts_of question_results))
          | None => Raise (Exn KeyError (of_string "'video_id'"))
          end
      end).

Definition output_path (doc : document) : str :=
  match doc with
  | Combined video_id _ =>
      of_string "initial_answers/" ++ format video_id ++ of_string "_result.json"
  | Dict _ => []
  end.

Fixpoint sample_all (w : world) (attempt_count : nat) (questions : list row)
    (all_results : list document) : M (result (list document)) :=
  match questions with
  | [] => ret (Ok all_results)
  | q :: rest =>
      and_then_ok (sample_question w attempt_count q) (fun combined_result =>
      and_then (emit (Dump (output_path combined_result) combined_result)) (fun _ =>
      sample_all w attempt_count rest (all_results ++ [combined_result])))
  end.

Definition main (w : world) (questions : list row) : M (result (list document)) :=
  sample_all w 3 questions [].

(** [process_batch]: one call per question, gathered in order. *)
Definition process_batch (w : world) (questions : list row) : M (list (gmap string value)) :=
  for_each (fun q => process_question w (id q) (question q)) questions.

(** ** Vocabulary for the properties *)

(** The part of a request that carries one encoded frame. *)
Definition image_part (base64_image : str) : part :=
  ImageUrl (of_string "data:image/jpeg;base64," ++ base64_image).

(** The request for a question and the encoded frames of its video. *)
Definition sampler_request (question : str) (images : list str) : request :=
  Request "gpt-4o" (Parts (Text (create_prompt question) :: map image_part images))
          (Some 8192) (Some "0.7"%string) None.

(** The two shapes of the dictionary [process_question] returns. *)
Definition response_of (video_id : str) (ch : choice) : gmap string value :=
  {[ "video_id"%string := VStr video_id;
     "answer"%string := message_content ch;
     "finish_reason"%string := choice_finish_reason ch ]}.

Definition failure_of (video_id : str) (e : exn) : gmap string value :=
  {[ "video_id"%string := VStr video_id; "error"%string := VStr (exn_msg e) ]}.

(** The events of one attempt whose frames can be read. *)
Definition attempt_events (w : world) (video_id question : str) (images : list str)
  : list event :=
  Glob video_id :: map ReadImage (frames w video_id)
    ++ [Create (sampler_request question images)].

(** Where [main] writes the document of a video. *)
Definition initial_path (video_id : str) : str :=
  of_string "initial_answers/" ++ video_id ++ of_string "_result.json".

(** ** A sample world *)

(** Frames exist for video 00001 only; the endpoint answers the first
    call of a run and refuses the later ones. *)
Definition sample_world : world :=
  World
    (fun video_id =>
       if bool_decide (video_id = of_string "00001")
       then [of_string "extracted_frames/00001/frame_0.jpg"] else [])
    (fun _ => Ok (of_string "QUJD"))
    (fun tr _ =>
       if bool_decide (filter (fun e => is_create e = true) tr = [])
       then Ok (Completion [Choice (VStr (of_string "<answer>B</answer>"))
                                   (VStr (of_string "stop"))])
       else Raise (Exn APIError (of_string "Rate limit reached"))).

(** Video 00001 has two frames, the second of which cannot be opened. *)
Definition unreadable_world : world :=
  World
    (fun video_id =>
       if bool_decide (video_id = of_string "00001")
       then [of_string "extracted_frames/00001/frame_1.jpg";
             of_string "extracted_frames/00001/frame_2.jpg"]
       else [])
    (fun path =>
       if bool_decide (path = of_string "extracted_frames/00001/frame_2.jpg")
       then Raise (Exn OSError (of_string "Permission denied"))
       else Ok (of_string "QUJD"))
    (fun _ _ => Raise (Exn APIError (of_string "Rate limit reached"))).

End ThreeTimes.

(* ===================================================================== *)
(** * three_times_preview.py: the Consensus Reasoner over three attempts  *)
(* ===================================================================== *)

Module ThreeTimesPreview.
Import Py Run.

(** An element of the ["attempts"] value of a file, as the reasoner
    uses it: it reads [attempt['attempt_number']] and
    [attempt['answer']] and nothing else.  (Attempt numbers are
    integers, as three_times.py writes them.) *)
Inductive entry :=
| Complete (a : attempt)      (* a dictionary that has both keys *)
| Lacking (key : string)      (* a dictionary without that key: [KeyError] *)
| NotADictionary.             (* any other value: [TypeError] *)

(** What [main] finds at [initial_answers/{video_id}_result.json].  The
    ["attempts"] value is given by its elements: a value that is not a
    list stands as the list of what iterating it gives, none of which
    is a dictionary (a non-zero number or [true], which cannot be
    iterated, as a single such element; a value that is false, as the
    empty list). *)
Inductive description :=
| NoFile                      (* [is_file()] is false *)
| Unreadable (e : exn)        (* [open] or [json.load] raises *)
| NotDict                     (* a JSON value without [.get] *)
| Description (attempts : option (list entry)).
                              (* a dictionary and its ["attempts"] entry *)

Record world := World {
  initial_answers : str -> description;
  remote : endpoint
}.

Record item := Item {
  item_video_id : str;
  item_attempts : list entry;
  item_question : str
}.

(** What the two subscripts of the loop over the attempts give for one
    element. *)
Definition read_entry (e : entry) : result attempt :=
  match e with
  | Complete a => Ok a
  | Lacking key => Raise (Exn KeyError (of_string ("'" ++ key ++ "'")))
  | NotADictionary =>
      Raise (Exn TypeError (of_string "object is not subscriptable"))
  end.

(** [for attempt in attempts: formatted_attempts += f"...{attempt[...]}..."]:
    the attempts that are formatted, or the exception of the first
    element that cannot be. *)
Fixpoint read_entries (attempts : list entry) : result (list attempt) :=
  match attempts with
  | [] => Ok []
  | e :: rest =>
      bind (read_entry e) (fun a =>
      bind (read_entries rest) (fun l => Ok (a :: l)))
  end.

(** The text one attempt adds to [formatted_attempts]. *)
Definition attempt_text (a : attempt) : str :=
  [10%N] ++ of_string "Attempt " ++ str_of_int (attempt_number a) ++ of_string ":"
  ++ [10%N] ++ format (answer a) ++ [10%N].

(** [formatted_attempts = ""; for attempt in attempts: formatted_attempts += ...]. *)
Definition format_attempts (attempts : list attempt) : str :=
  fold_left (fun formatted_attempts a => formatted_attempts ++ attempt_text a)
            attempts [].

Definition prompt_head : str :=
  of_string "Here is the multiple choice question that was posed:
".

Definition prompt_mid : str :=
  of_string "

I have received three different reasoning attempts from a vision model analyzing the same video frames:
".

Definition prompt_tail : str :=
  of_string "
            
Your task is to:
1. Carefully review all three reasoning attempts
2. Aggregate and compare the frame-by-frame observations across all attempts
3. Consider any unique details or perspectives provided by each attempt
4. Evaluate the strength and completeness of reasoning in each attempt
5. Assess the validity of each attempt's conclusions given their observations

Then:
1. Using the combined observations and analysis from all attempts, determine the most accurate answer. You can either:
   a) Select one of the existing answers if you agree with its reasoning and conclusion
   b) Form your own conclusion if you believe the combined observations support a different answer
2. Output your chosen answer in <answer></answer> tags
3. Follow this with a brief explanation in <explanation></explanation> tags that:
   - If choosing an existing answer: Explain why this attempt's reasoning was most compelling
   - If choosing your own answer: Explain how the combined observations from multiple attempts support your conclusion

Note: 
- You have access to all observations and details mentioned across all three attempts
- Feel free to combine strong reasoning points from multiple attempts
- Focus on connecting concrete observations to logical conclusions
- Don't feel constrained by the existing answers if the combined evidence suggests a different conclusion
".

Definition content_prompt (question : str) (attempts : list attempt) : str :=
  prompt_head ++ question ++ prompt_mid ++ format_attempts attempts ++ prompt_tail.

Definition reason_request (question : str) (attempts : list attempt) : request :=
  Request "o1-preview" (Plain (content_prompt question attempts)) None None None.

(** [reason_over_attempts] from the prompt on: the [try] around the
    call, and the dictionary that is returned. *)
Definition reason_over_formatted (w : world) (attempts : list attempt)
    (question video_id : str) : M (gmap string value) :=
  let req := reason_request question attempts in
  try_catch
    (and_then_ok (create (remote w) req) (fun completion =>
     ret (bind (first_choice completion) (fun ch =>
          Ok ({[ "video_id"%string := VStr video_id;
                 "answer"%string := message_content ch;
                 "finish_reason"%string := choice_finish_reason ch ]}
                : gmap string value)))))
    (fun e => {[ "video_id"%string := VStr video_id;
                 "error"%string := VStr (exn_msg e) ]}).

(** [reason_over_attempts]: the attempts are formatted before the
    [try], so an element that cannot be formatted makes the coroutine
    raise, before any call. *)
Definition reason_over_attempts (w : world) (attempts : list entry)
    (question video_id : str) : M (result (gmap string value)) :=
  match read_entries attempts with
  | Ok formatted =>
      and_then (reason_over_formatted w formatted question video_id) (fun res =>
      ret (Ok res))
  | Raise e => ret (Raise e)
  end.

(** [process_batch]: [asyncio.gather] hands the first exception of its
    coroutines to [main]; the coroutines after the one that raised are
    cancelled when [main] ends, and how far they got is not part of the
    model. *)
Definition process_batch (w : world) (items : list item)
  : M (result (list (gmap string value))) :=
  for_each_ok
    (fun it => reason_over_attempts w (item_attempts it) (item_question it)
                 (item_video_id it))
    items.

(** The [try] of the reading loop: load the file and take its attempts. *)
Definition load_attempts (d : description) : result (list entry) :=
  match d with
  | NoFile => Raise (Exn FileNotFoundError (of_string "No such file or directory"))
  | Unreadable e => Raise e
  | NotDict => Raise (Exn AttributeError (of_string "object has no attribute 'get'"))
  | Description attempts => Ok (default [] attempts)
  end.

(** What one row of the CSV adds to [items_to_process]. *)
Definition items_of_row (w : world) (r : row) : list item :=
  match initial_answers w (id r) with
  | NoFile => []
  | d =>
      try_except
        (bind (load_attempts d) (fun attempts =>
         if bool_decide (attempts = []) then Ok []
         else Ok [Item (id r) attempts (question r)]))
        (fun _ => [])
  end.

Definition gather_items (w : world) (rows : list row) : list item :=
  fold_left (fun items_to_process r => items_to_process ++ items_of_row w r) rows [].

(** The saving loop, for one result. *)
Definition save (res : gmap string value) : M (result unit) :=
  match res !! "video_id"%string with
  | Some video_id =>
      let output_path :=
        of_string "final_answers/" ++ format video_id ++ of_string "_result.json" in
      let result_to_save := filter (fun kv => kv.1 <> "video_id"%string) res in
      and_then (emit (Dump output_path (Dict result_to_save))) (fun _ => ret (Ok tt))
  | None => ret (Raise (Exn KeyError (of_string "'video_id'")))
  end.

Fixpoint save_all (results : list (gmap string value)) : M (result unit) :=
  match results with
  | [] => ret (Ok tt)
  | res :: rest => and_then_ok (save res) (fun _ => save_all rest)
  end.

Definition main (w : world) (rows : list row) : M (result unit) :=
  let items_to_process := gather_items w rows in
  and_then_ok (process_batch w items_to_process) save_all.

(** ** Vocabulary for the properties *)

(** The attempts of a queued task can be formatted. *)
Definition well_formed (it : item) : Prop :=
  exists attempts, read_entries (item_attempts it) = Ok attempts.

(** The call for a queued task, and the Result written for it. *)
Definition is_call_of (it : item) (e : event) : Prop :=
  exists attempts,
    read_entries (item_attempts it) = Ok attempts /\
    e = Create (reason_request (item_question it) attempts).


(** An attempt that failed: an error and no raw text. *)
Definition failed (a : attempt) : bool :=
  match answer a, error a with
  | VNone, VStr _ => true
  | _, _ => false
  end.

(** An attempt that carries raw text. *)
Definition successful (a : attempt) : bool :=
  match answer a with
  | VStr _ => true
  | _ => false
  end.

(** ** Samples *)

Definition failed_attempt (n : Z) : attempt :=
  Attempt n VNone VNone (VStr (of_string "Request timed out.")).

Definition good_attempt (n : Z) (text : string) : attempt :=
  Attempt n (VStr (of_string text)) (VStr (of_string "stop")) VNone.

(** Video 00001 has three failed attempts, video 00002 an empty list. *)
Definition sample_world : world :=
  World
    (fun video_id =>
       if bool_decide (video_id = of_string "00001")
       then Description
              (Some [Complete (failed_attempt 1); Complete (failed_attempt 2);
                     Complete (failed_attempt 3)])
       else if bool_decide (video_id = of_string "00002")
       then Description (Some [])
       else NoFile)
    (fun _ _ => Ok (Completion [Choice (VStr (of_string "<answer>A</answer>"))
                                       (VStr (of_string "stop"))])).

(** The file of video 00003 holds a text where the list of attempts
    should be; the file of video 00004, a list whose second dictionary
    has no answer. *)
Definition broken_world : world :=
  World
    (fun video_id =>
       if bool_decide (video_id = of_string "00001")
       then Description (Some [Complete (good_attempt 1 "<answer>A</answer>")])
       else if bool_decide (video_id = of_string "00003")
       then Description (Some [NotADictionary; NotADictionary])
       else if bool_decide (video_id = of_string "00004")
       then Description
              (Some [Complete (good_attempt 1 "<answer>A</answer>"); Lacking "answer"])
       else NoFile)
    (fun _ _ => Ok (Completion [Choice (VStr (of_string "<answer>A</answer>"))
                                       (VStr (of_string "stop"))])).

End ThreeTimesPreview.

(* ===================================================================== *)
(** * reasoner.py: the Consensus Reasoner over one description            *)
(* ===================================================================== *)

Module Reasoner.
Import Py Run.

(** What [main] finds at [initial_answers/{video_id}_result.json]. *)
Inductive description :=
| NoFile
| Loaded (data : result json_content).

Record world := World {
  initial_answers : str -> description;
  remote : endpoint
}.

Record item := Item {
  item_video_id : str;
  item_description : value;
  item_question : str
}.

Definition prompt_head : str :=
  of_string "Here is the multiple choice question that was posed:
".

Definition prompt_mid : str :=
  of_string "

Here is the vision model's complete analysis:
".

Definition prompt_tail : str :=
  of_string "

Now, review the analysis provided by the vision model above, which includes:
1. A frame-by-frame analysis of 5 dashcam video frames
2. Contextual reasoning about the scene
3. Analysis of multiple choice options
4. Their final answer selection

Your task is to:
1. Carefully read through the vision model's observations and reasoning
2. Consider whether their frame-by-frame analysis captures all relevant details
3. Evaluate if their contextual reasoning is sound and complete
4. Assess if their analysis of the multiple choice options is thorough and logical
5. Determine if their final answer choice is the most appropriate given the evidence

Then:
1. If you agree with the vision model's answer, output their answer choice in <answer></answer> tags
2. If you disagree with their answer, output your chosen answer in <answer></answer> tags, followed by a brief explanation of why you chose differently

Note: Focus on concrete details mentioned in the vision model's analysis rather than making assumptions about what might be in the frames but wasn't mentioned.
".

Definition content_prompt (question : str) (description : value) : str :=
  prompt_head ++ question ++ prompt_mid ++ format description ++ prompt_tail.

Definition reason_over_description (w : world) (description : value)
    (question video_id : str) : M (gmap string value) :=
  let req := Request "o1-preview" (Plain (content_prompt question description))
                     None None None in
  try_catch
    (and_then_ok (create (remote w) req) (fun completion =>
     ret (bind (first_choice completion) (fun ch =>
          Ok ({[ "video_id"%string := VStr video_id;
                 "answer"%string := message_content ch;
                 "finish_reason"%string := choice_finish_reason ch ]}
                : gmap string value)))))
    (fun e => {[ "video_id"%string := VStr video_id;
                 "error"%string := VStr (exn_msg e) ]}).

Definition process_batch (w : world) (items : list item) : M (list (gmap string value)) :=
  for_each
    (fun it => reason_over_description w (item_description it) (item_question it)
                 (item_video_id it))
    items.

(** [description_data.get("answer", "")]. *)
Definition get_description (data : json_content) : result value :=
  match data with
  | JDict d => Ok (default (VStr []) (d !! "answer"%string))
  | JOther => Raise (Exn AttributeError (of_string "object has no attribute 'get'"))
  end.

Definition items_of_row (w : world) (r : row) : list item :=
  match initial_answers w (id r) with
  | NoFile => []
  | Loaded data =>
      try_except
        (bind data (fun description_data =>
         bind (get_description description_data) (fun description_text =>
         if truthy description_text then Ok [Item (id r) description_text (question r)]
         else Ok [])))
        (fun _ => [])
  end.

Definition gather_items (w : world) (rows : list row) : list item :=
  fold_left (fun items_to_process r => items_to_process ++ items_of_row w r) rows [].

Definition save (res : gmap string value) : M (result unit) :=
  match res !! "video_id"%string with
  | Some video_id =>
      let output_path :=
        of_string "final_answers/" ++ format video_id ++ of_string "_result.json" in
      let result_to_save := filter (fun kv => kv.1 <> "video_id"%string) res in
      and_then (emit (Dump output_path (Dict result_to_save))) (fun _ => ret (Ok tt))
  | None => ret (Raise (Exn KeyError (of_string "'video_id'")))
  end.

Fixpoint save_all (results : list (gmap string value)) : M (result unit) :=
  match results with
  | [] => ret (Ok tt)
  | res :: rest => and_then_ok (save res) (fun _ => save_all rest)
  end.

Definition main (w : world) (rows : list row) : M (result unit) :=
  let items_to_process := gather_items w rows in
  and_then (process_batch w items_to_process) save_all.

End Reasoner.

(* ===================================================================== *)
(** * fill_gaps.py: the backfill run                                      *)
(* ===================================================================== *)

Module FillGaps.
Import Py Run.

Definition prompt_head : str :=
  of_string "You have 5 equally spaced frames (Frame 1 through Frame 5) captured from a 5-second dashcam video, taken from the driver's forward-facing perspective.

Using these frames, answer the following multiple-choice question. Incorporate any relevant details observed in the frames (for example, lanes, signage, vehicles, pedestrians, traffic signals, road markings, obstructions) that might help in selecting the correct answer. Consider how details may change across the frames and note that some frames may be more crucial than others.

Steps to follow:
1. **Frame-by-Frame Analysis:** Briefly describe the significant elements you notice in each of the 5 frames (e.g., signs, road markings, obstructions, other vehicles, potential hazards).
2. **Contextual Reasoning:** Integrate the observations from each frame. Think about what is happening over time, which elements are most relevant, and how they connect to the question.
3. **Match to Answer Choices:** Relate your findings to each of the multiple-choice options. Eliminate those that are inconsistent with the visual evidence or standard traffic rules, and select the most appropriate remaining choice.
4. **Provide the Best Answer:** Conclude with the final choice that best matches the situation. Output that choice in `<answer></answer>` tags.

Now, here is the question and its multiple-choice options:

".

Definition create_prompt (question : str) : str :=
  prompt_head ++ question ++ [10%N].

(** [self.video_ids is not None and video_id not in self.video_ids]. *)
Definition excluded (video_ids : option (gset str)) (video_id : str) : bool :=
  match video_ids with
  | Some ids => bool_decide (video_id ∉ ids)
  | None => false
  end.

Definition process_question (w : world) (video_ids : option (gset str))
    (video_id question : str) : M (gmap string value) :=
  try_catch
    (if excluded video_ids video_id then ret (Ok ∅)
     else
       and_then (get_frame_paths w video_id) (fun frame_paths =>
       if bool_decide (frame_paths = []) then
         ret (Raise (Exn FileNotFoundError
                       (of_string "No frames found for video ID " ++ video_id)))
       else
         and_then_ok (add_frames w frame_paths [Text (create_prompt question)])
           (fun content =>
         and_then_ok
           (create (remote w)
              (Request "gpt-4o" (Parts content) (Some 4096) (Some "0"%string)
                       (Some "0"%string)))
           (fun completion =>
         ret (bind (first_choice completion) (fun ch =>
              Ok ({[ "answer"%string := message_content ch;
                     "finish_reason"%string := choice_finish_reason ch ]}
                    : gmap string value)))))))
    (fun e => {[ "error"%string := VStr (exn_msg e) ]}).

(** The body of the loop over the rows of the CSV. *)
Definition process_row (w : world) (video_ids_to_process : option (gset str)) (r : row)
  : M unit :=
  let video_id := id r in
  if excluded video_ids_to_process video_id then ret tt
  else
    and_then (process_question w video_ids_to_process video_id (question r)) (fun res =>
    if bool_decide (res = ∅) then ret tt
    else
      emit (Dump (of_string "gpt4v_results_new_prompt/" ++ video_id
                  ++ of_string "_result.json") (Dict res))).

(** [main], for the allow-list [video_ids_to_process] ([None]: every
    video). *)
Fixpoint run (w : world) (video_ids_to_process : option (gset str)) (rows : list row)
  : M unit :=
  match rows with
  | [] => ret tt
  | r :: rest =>
      and_then (process_row w video_ids_to_process r) (fun _ =>
      run w video_ids_to_process rest)
  end.

(** The source's run: [video_ids_to_process = {"00023"}]. *)
Definition main (w : world) (rows : list row) : M unit :=
  run w (Some {[ of_string "00023" ]}) rows.

(** ** Vocabulary for the properties *)

(** Where the Result of a video is written. *)
Definition result_path (video_id : str) : str :=
  of_string "gpt4v_results_new_prompt/" ++ video_id ++ of_string "_result.json".

(** The event is about the given video, if it names one: a listing of
    frames lists this video's, a Result is written to this video's file. *)
Definition event_about (video_id : str) (e : event) : Prop :=
  match e with
  | Glob v => v = video_id
  | Dump path _ => path = result_path video_id
  | ReadImage _ | Create _ => True
  end.

(** The sample sink of the specification's scenario: ids 3 and 6 are to
    be backfilled. *)
Definition sample_rows : list row :=
  [Row (of_string "00003") (of_string "Which lane is open?");
   Row (of_string "00005") (of_string "Is the light red?");
   Row (of_string "00006") (of_string "Who has priority?")].

Definition sample_allow : gset str := {[ of_string "00003"; of_string "00006" ]}.

End FillGaps.

(* ===================================================================== *)
(** * The Bounded Dispatcher                                              *)
(* ===================================================================== *)

(** Every remote call of three_times.py, three_times_preview.py and
    reasoner.py is made inside [async with self.semaphore], the
    semaphore being [Semaphore(max_concurrent_requests)].  The
    coroutines of a run are interleaved by the event loop; the model is
    the transition system of their phases and of the semaphore's
    counter.  [acquire] takes a slot when the counter is positive and
    suspends the caller otherwise; leaving the block releases the slot,
    also when the call raised (the exception is caught inside the
    block). *)

Module Dispatcher.

(** Where a coroutine stands. *)
Inductive phase :=
| Submitted     (* created by the batch, not yet at [async with] *)
| Waiting       (* suspended in [acquire] *)
| Holding       (* inside the block, the call not yet issued *)
| InFlight      (* awaiting [chat.completions.create] *)
| Returned      (* the call has completed or raised; still inside the block *)
| Done.         (* left the block and returned its result *)

Record state := State {
  value : nat;              (* the counter of the semaphore *)
  phases : list phase       (* the phase of every coroutine of the run *)
}.

(** [max_concurrent_requests] slots, [n] coroutines submitted together. *)
Definition init (max_concurrent_requests n : nat) : state :=
  State max_concurrent_requests (replicate n Submitted).

Definition set_phase (i : nat) (p : phase) (s : state) : list phase :=
  <[i := p]> (phases s).

(** One step of coroutine [i]. *)
Inductive step (i : nat) : state -> state -> Prop :=
| step_acquire s :
    (* [acquire] with a free slot: on arrival or after a wake-up *)
    (phases s !! i = Some Submitted \/ phases s !! i = Some Waiting) ->
    (0 < value s)%nat ->
    step i s (State (value s - 1) (set_phase i Holding s))
| step_suspend s :
    (* [acquire] without a free slot, or behind earlier waiters *)
    phases s !! i = Some Submitted ->
    (value s = 0%nat \/ Waiting ∈ phases s) ->
    step i s (State (value s) (set_phase i Waiting s))
| step_issue s :
    phases s !! i = Some Holding ->
    step i s (State (value s) (set_phase i InFlight s))
| step_complete s :
    phases s !! i = Some InFlight ->
    step i s (State (value s) (set_phase i Returned s))
| step_release s :
    (* leaving [async with]: [release] *)
    phases s !! i = Some Returned ->
    step i s (State (value s + 1) (set_phase i Done s)).

(** A step of some coroutine. *)
Definition next (s s' : state) : Prop := exists i, step i s s'.

(** A step of the run: a coroutine moves, or one more coroutine is
    submitted (three_times.py submits three per question, one question
    after the other). *)
Inductive run_step : state -> state -> Prop :=
| run_next s s' : next s s' -> run_step s s'
| run_submit s : run_step s (State (value s) (phases s ++ [Submitted])).

(** How many coroutines are in a phase satisfying [f]. *)
Fixpoint count (f : phase -> bool) (l : list phase) : nat :=
  match l with
  | [] => 0
  | p :: r => (if f p then 1 else 0) + count f r
  end.

Definition is_in_flight (p : phase) : bool :=
  match p with InFlight => true | _ => false end.

(** Inside [async with]: the coroutine has a slot. *)
Definition has_slot (p : phase) : bool :=
  match p with Holding | InFlight | Returned => true | _ => false end.

(** The calls issued and not yet completed. *)
Definition in_flight (s : state) : nat := count is_in_flight (phases s).

(** The steps a coroutine still has to make, at most. *)
Definition rank (p : phase) : nat :=
  match p with
  | Submitted => 5 | Waiting => 4 | Holding => 3
  | InFlight => 2 | Returned => 1 | Done => 0
  end.

Definition remaining (s : state) : nat := foldr (fun p acc => rank p + acc)%nat 0%nat (phases s).

End Dispatcher.

(* ===================================================================== *)
(** * split_frames.py: five frames per video                              *)
(* ===================================================================== *)

Module SplitFrames.
Import Py.

(** [[int(i * (total_frames - 1) / 4) for i in range(5)]].  The products
    are integers and [/] is the true division: up to 2^53 the quotient
    by 4 is a float without rounding, and [int] truncates it toward
    zero.  The model is that truncated quotient; it is the code for
    [total_frames] up to 2^51. *)
Definition frame_indices (total_frames : Z) : list Z :=
  map (fun i => Z.quot (i * (total_frames - 1)) 4) [0; 1; 2; 3; 4].

(** A video as [cv2.VideoCapture] presents it ([cv2.VideoCapture] itself
    does not raise: for a file it cannot open it returns a capture
    whose frame count is 0): the value of
    [int(cap.get(cv2.CAP_PROP_FRAME_COUNT))] (the conversion raises on a
    count that is not a number) and what [cap.set(POS_FRAMES, i)]
    followed by [cap.read()] gives: the value of [ret], or the exception
    the call raises. *)
Record video := Video {
  stem : str;
  frame_count : result Z;
  read_at : Z -> result bool
}.

(** [video_path.name]. *)
Definition file_name (v : video) : str := stem v ++ of_string ".mp4".

Inductive event :=
| MkDir (path : str)
| Opened (video_name : str)                 (* cv2.VideoCapture(...) *)
| Seek (frame_idx : Z)                      (* cap.set and cap.read *)
| Saved (path : str) (text : str) (frame_idx : Z)
                                            (* cv2.imwrite of the labelled frame *)
| Released (video_name : str)               (* cap.release() *)
| CouldNotReadFrames (video_name : str)     (* Error: Could not read frames from ... *)
| CouldNotReadFrame (frame_idx : Z) (video_name : str)
| ProcessedVideo (video_name : str) (frames : nat)
| ErrorProcessingVideo (video_name : str) (msg : str).

(** The directory of a video's frames, and the file of its [n]-th frame. *)
Definition output_dir (v : video) : str := of_string "extracted_frames/" ++ stem v.

Definition output_path (v : video) (frame_num : Z) : str :=
  output_dir v ++ of_string "/frame_" ++ str_of_int frame_num ++ of_string ".jpg".

(** [text = f"frame {frame_num}"]. *)
Definition frame_text (frame_num : Z) : str := of_string "frame " ++ str_of_int frame_num.

(** [for frame_num, frame_idx in enumerate(frame_indices, frame_num)]:
    the events of the loop, or the exception that ends it. *)
Fixpoint save_frames (v : video) (frame_num : Z) (indices : list Z)
  : list event * option exn :=
  match indices with
  | [] => ([], None)
  | frame_idx :: rest =>
      match read_at v frame_idx with
      | Raise e => ([Seek frame_idx], Some e)
      | Ok false =>
          let '(evs, r) := save_frames v (frame_num + 1) rest in
          (Seek frame_idx :: CouldNotReadFrame frame_idx (file_name v) :: evs, r)
      | Ok true =>
          let '(evs, r) := save_frames v (frame_num + 1) rest in
          (Seek frame_idx
             :: Saved (output_path v frame_num) (frame_text frame_num) frame_idx
             :: evs, r)
      end
  end.

(** The body of the loop over the videos: [try], [except Exception],
    [finally]. *)
Definition extract_video (v : video) : list event :=
  let body : list event * option exn :=
    match frame_count v with
    | Raise e => ([], Some e)
    | Ok total_frames =>
        if total_frames <=? 0 then ([CouldNotReadFrames (file_name v)], None)
        else
          let frame_indices := frame_indices total_frames in
          let '(evs, r) := save_frames v 1 frame_indices in
          match r with
          | Some e => (MkDir (output_dir v) :: evs, Some e)
          | None =>
              (MkDir (output_dir v) :: evs
                 ++ [ProcessedVideo (file_name v) (length frame_indices)], None)
          end
    end in
  [Opened (file_name v)]
  ++ body.1
  ++ match body.2 with
     | Some e => [ErrorProcessingVideo (file_name v) (exn_msg e)]
     | None => []
     end
  ++ [Released (file_name v)].

(** [extract_frames], for the videos that [glob('*.mp4')] finds. *)
Definition extract_frames (video_files : list video) : list event :=
  MkDir (of_string "extracted_frames") :: flat_map extract_video video_files.

(** ** Vocabulary for the properties *)

Definition is_saved (e : event) : bool :=
  match e with Saved _ _ _ => true | _ => false end.

Definition is_open_or_release (e : event) : bool :=
  match e with Opened _ | Released _ => true | _ => false end.

(** How many captures a trace leaves open. *)
Fixpoint open_captures (evs : list event) (opened : Z) : Z :=
  match evs with
  | [] => opened
  | Opened _ :: rest => open_captures rest (opened + 1)
  | Released _ :: rest => open_captures rest (opened - 1)
  | _ :: rest => open_captures rest opened
  end.

(** The positions a trace asks the capture for. *)
Definition seeks (evs : list event) : list Z :=
  omap (fun e => match e with Seek frame_idx => Some frame_idx | _ => None end) evs.

(** [enumerate(indices, start)]. *)
Fixpoint enumerate (start : Z) (indices : list Z) : list (Z * Z) :=
  match indices with
  | [] => []
  | frame_idx :: rest => (start, frame_idx) :: enumerate (start + 1) rest
  end.

(** The file written for the frame numbered [p.1] at position [p.2]. *)
Definition saved_event (v : video) (p : Z * Z) : event :=
  Saved (output_path v p.1) (frame_text p.1) p.2.

Definition readable (v : video) (frame_idx : Z) : bool :=
  match read_at v frame_idx with Ok true => true | _ => false end.

Definition raises (v : video) (frame_idx : Z) : bool :=
  match read_at v frame_idx with Raise _ => true | _ => false end.

(** A sample video of ten frames whose third requested frame cannot be
    decoded. *)
Definition sample_video : video :=
  Video (of_string "00001") (Ok 10)
        (fun i => if i =? 4 then Ok false else Ok true).

(** The same video when reading its third requested frame raises. *)
Definition raising_video : video :=
  Video (of_string "00001") (Ok 10)
        (fun i => if i =? 4 then Raise (Exn OSError (of_string "read failed")) else Ok true).

(** What the loop does for one numbered position when the read returns. *)
Definition frame_events (v : video) (p : Z * Z) : list event :=
  [Seek p.2;
   if readable v p.2 then saved_event v p else CouldNotReadFrame p.2 (file_name v)].

End SplitFrames.

(* ===================================================================== *)
(** * From one script to the next                                         *)
(* ===================================================================== *)

(** The scripts hand their work over through files: three_times.py
    writes [initial_answers/{id}_result.json], which
    three_times_preview.py reads; the reasoning scripts write
    [final_answers/{id}_result.json], which extract_answers.py scans.
    What is read is what [json.dump] wrote. *)

Module Pipeline.
Import Py Run.

(** What three_times_preview.py finds in a file holding the document: a
    dictionary, with the attempts when the document has them. *)
Definition read_back (doc : document) : ThreeTimesPreview.description :=
  match doc with
  | Combined _ attempts =>
      ThreeTimesPreview.Description (Some (map ThreeTimesPreview.Complete attempts))
  | Dict _ => ThreeTimesPreview.Description None
  end.

(** The directory [initial_answers] after an event of a run. *)
Definition write (e : event) (store : str -> ThreeTimesPreview.description)
  : str -> ThreeTimesPreview.description :=
  fun video_id =>
    match e with
    | Dump path doc =>
        if bool_decide (path = ThreeTimes.initial_path video_id) then read_back doc
        else store video_id
    | _ => store video_id
    end.

(** The directory after a run, given what it held before. *)
Definition initial_answers_after (before : str -> ThreeTimesPreview.description)
    (tr : list event) : str -> ThreeTimesPreview.description :=
  fold_left (fun store e => write e store) tr before.

(** The entry of [sorted(folder.glob('*.json'))] for the Result of a
    video: its name, and the dictionary that was written. *)
Definition final_file (video_id : str) (d : gmap string value) : ExtractAnswers.json_file :=
  ExtractAnswers.JsonFile (video_id ++ of_string "_result.json") (Ok (JDict d)).

(** What the reasoning scripts save of a result. *)
Definition result_to_save (res : gmap string value) : gmap string value :=
  filter (fun kv : string * value => kv.1 <> "video_id"%string) res.

(** A file of [initial_answers] that holds three attempts. *)
Definition three_attempts (d : ThreeTimesPreview.description) : Prop :=
  exists attempts,
    d = ThreeTimesPreview.Description (Some (map ThreeTimesPreview.Complete attempts)) /\
    length attempts = 3%nat.

(** The documents three_times.py writes. *)
Definition writes_three_attempts (e : event) : Prop :=
  match e with
  | Dump _ (Combined _ attempts) => length attempts = 3%nat
  | Dump _ (Dict _) => False
  | _ => True
  end.

End Pipeline.

(* ===================================================================== *)
(** * Properties of the regular-expression fragment                       *)
(* ===================================================================== *)

Section regex_facts.
Import Py Re.

Implicit Types (p : pattern) (s l : str) (g : option str) (a : atom).

Lemma match_here_one a p s g :
  match_here (One a :: p) s g =
  match s with
  | c :: s' => if atom_matches a c then match_here p s' g else None
  | [] => None
  end.
Proof. reflexivity. Qed.

Lemma match_here_group a p s g :
  match_here (Group a :: p) s g =
  match s with
  | c :: s' => if atom_matches a c then match_here p s' (Some [c]) else None
  | [] => None
  end.
Proof. reflexivity. Qed.

Lemma match_here_lazy a p s g :
  match_here (LazyStar a :: p) s g =
  match match_here p s g with
  | Some r => Some r
  | None =>
      match s with
      | c :: s' => if atom_matches a c then match_here (LazyStar a :: p) s' g else None
      | [] => None
      end
  end.
Proof. destruct s; reflexivity. Qed.

(** A run of literals matches exactly that prefix. *)
Lemma match_here_literals l p s g r :
  match_here (map (fun c => One (Lit c)) l ++ p) s g = Some r <->
  exists s', s = l ++ s' /\ match_here p s' g = Some r.
Proof.
  revert s. induction l as [|x l IH]; intros s.
  - simpl. split; [eauto | by intros (s' & -> & H)].
  - change (map (fun c => One (Lit c)) (x :: l) ++ p)
      with (One (Lit x) :: (map (fun c => One (Lit c)) l ++ p)).
    rewrite match_here_one.
    destruct s as [|c s'].
    + split; [done | by intros (? & ? & _)].
    + simpl atom_matches. destruct (N.eqb_spec c x) as [->|Hne].
      * rewrite IH. split.
        -- intros (t & -> & H). by exists t.
        -- intros (t & [= ->] & H). by exists t.
      * split; [done | intros (t & [= ? ?] & _); done].
Qed.

Lemma match_here_literals_end l s g r :
  match_here (map (fun c => One (Lit c)) l) s g = Some r <->
  r = g /\ exists rest, s = l ++ rest.
Proof.
  rewrite <- (app_nil_r (map _ l)), match_here_literals. simpl.
  split.
  - intros (t & -> & [= ->]). eauto.
  - intros (-> & t & ->). eauto.
Qed.

(** A lazy repetition followed by literals: some run of matching
    characters, then the literals. *)
Lemma match_here_lazy_literals a l s g r :
  match_here (LazyStar a :: map (fun c => One (Lit c)) l) s g = Some r <->
  r = g /\ exists tail rest,
    s = tail ++ l ++ rest /\ Forall (fun c => atom_matches a c = true) tail.
Proof.
  induction s as [|c s IH]; rewrite match_here_lazy.
  - destruct (match_here _ [] g) as [r0|] eqn:E.
    + apply match_here_literals_end in E as (-> & rest & E).
      split; [intros [= ->] | intros [-> _]]; [|done].
      split; [done|]. by exists [], rest.
    + split; [done|]. intros (-> & tail & rest & E' & _).
      destruct tail; [|done]. simpl in E'.
      assert (match_here (map (fun c => One (Lit c)) l) [] g = Some g) as E2
        by (apply match_here_literals_end; eauto).
      congruence.
  - destruct (match_here _ (c :: s) g) as [r0|] eqn:E.
    + apply match_here_literals_end in E as (-> & rest & E).
      split; [intros [= ->] | intros [-> _]]; [|done].
      split; [done|]. by exists [], rest.
    + assert (forall rest, c :: s <> l ++ rest) as Hno.
      { intros rest Hr.
        assert (match_here (map (fun c => One (Lit c)) l) (c :: s) g = Some g) as E2
          by (apply match_here_literals_end; eauto).
        congruence. }
      destruct (atom_matches a c) eqn:Ha.
      * rewrite IH. split.
        -- intros (-> & tail & rest & -> & Hall). split; [done|].
           exists (c :: tail), rest. split; [done|]. by constructor.
        -- intros (-> & tail & rest & E' & Hall). split; [done|].
           destruct tail as [|c' tail]; [by destruct (Hno rest)|].
           injection E' as -> ->. inversion Hall; subst. eauto.
      * split; [done|]. intros (-> & tail & rest & E' & Hall).
        destruct tail as [|c' tail]; [by destruct (Hno rest)|].
        injection E' as -> ->. inversion Hall; subst. congruence.
Qed.

(** [search] fails when no position has a match. *)
Lemma search_None p s :
  search p s = None <->
  forall pre suf, s = pre ++ suf -> match_here p suf None = None.
Proof.
  induction s as [|c s IH]; simpl.
  - destruct (match_here p [] None) eqn:E.
    + split; [done|]. intros H. rewrite (H [] []) in E; done.
    + split; [|done]. intros _ pre suf H.
      symmetry in H. apply app_eq_nil in H as [-> ->]. done.
  - destruct (match_here p (c :: s) None) eqn:E.
    + split; [done|]. intros H. rewrite (H [] (c :: s)) in E; done.
    + rewrite IH. split.
      * intros H pre suf Hs. destruct pre as [|x pre]; simpl in Hs.
        -- by subst.
        -- injection Hs as -> ->. by apply (H pre).
      * intros H pre suf ->. by apply (H (c :: pre)).
Qed.

(** [search] returns the match at the leftmost position that has one. *)
Lemma search_Some p s g :
  search p s = Some g <->
  exists pre suf,
    s = pre ++ suf /\ match_here p suf None = Some g /\
    forall pre' suf', s = pre' ++ suf' -> (length pre' < length pre)%nat ->
      match_here p suf' None = None.
Proof.
  induction s as [|c s IH]; simpl.
  - destruct (match_here p [] None) eqn:E.
    + split.
      * intros [= ->]. exists [], []. split_and!; [done..|]. simpl. lia.
      * intros (pre & suf & Hs & Hm & _).
        symmetry in Hs. apply app_eq_nil in Hs as [-> ->]. congruence.
    + split; [done|]. intros (pre & suf & Hs & Hm & _).
      symmetry in Hs. apply app_eq_nil in Hs as [-> ->]. congruence.
  - destruct (match_here p (c :: s) None) eqn:E.
    + split.
      * intros [= ->]. exists [], (c :: s). split_and!; [done..|]. simpl. lia.
      * intros (pre & suf & Hs & Hm & Hmin). destruct pre as [|x pre].
        -- simpl in Hs. subst. congruence.
        -- rewrite (Hmin [] (c :: s)) in E; [done..|simpl; lia].
    + rewrite IH. split.
      * intros (pre & suf & -> & Hm & Hmin). exists (c :: pre), suf.
        split_and!; [done..|]. intros pre' suf' Hs Hlen.
        destruct pre' as [|x pre']; simpl in Hs.
        -- by subst.
        -- injection Hs as -> Hs. apply (Hmin pre'); [done|]. simpl in Hlen. lia.
      * intros (pre & suf & Hs & Hm & Hmin). destruct pre as [|x pre].
        -- simpl in Hs. subst. congruence.
        -- injection Hs as -> ->. exists pre, suf. split_and!; [done..|].
           intros pre' suf' Hs Hlen. apply (Hmin (x :: pre')); simpl; [by rewrite Hs | lia].
Qed.

End regex_facts.

(* ===================================================================== *)
(** * The Answer Extractor                                                *)
(* ===================================================================== *)

Section extractor_facts.
Import Py Re ExtractAnswers.

Implicit Types (s : str) (g : option str) (c : N).

Lemma dot_run (tail : str) :
  Forall (fun x => atom_matches Dot x = true) tail <-> Forall (fun x => x <> 10%N) tail.
Proof.
  apply Forall_iff. intros x. simpl. rewrite negb_true_iff. apply N.eqb_neq.
Qed.

Lemma separator_matches (d : N) :
  atom_matches (Union (Lit 46) Space) d = true <-> d = 46%N \/ isspace d = true.
Proof. simpl. rewrite orb_true_iff, N.eqb_eq. done. Qed.

(** The first pattern matches at the head of [s] exactly when [s] has
    the form with content, and group 1 is then its label. *)
Lemma match_with_content s g :
  match_here pattern_with_content s None = Some g <->
  exists c, g = Some [c] /\ content_form s c.
Proof.
  unfold pattern_with_content, lits, content_form, open_tag, close_tag.
  rewrite match_here_literals. cbn [app]. split.
  - intros (s1 & -> & H). rewrite match_here_group in H.
    destruct s1 as [|c s1]; [done|].
    destruct (atom_matches (Range 65 69) c) eqn:Hc; [|done].
    rewrite match_here_one in H. destruct s1 as [|d s1]; [done|].
    destruct (atom_matches (Union (Lit 46) Space) d) eqn:Hd; [|done].
    apply match_here_lazy_literals in H as (-> & tail & rest & -> & Hall).
    exists c. split; [done|]. split; [exact Hc|].
    exists d, tail, rest. split_and!; [done| by apply separator_matches | by apply dot_run].
  - intros (c & -> & Hc & d & tail & rest & -> & Hd & Hall).
    eexists. split; [reflexivity|].
    rewrite match_here_group. change (atom_matches (Range 65 69) c) with (is_label c).
    rewrite Hc, match_here_one.
    apply separator_matches in Hd. rewrite Hd.
    apply match_here_lazy_literals. split; [done|].
    exists tail, rest. split; [done | by apply dot_run].
Qed.

(** The second pattern matches at the head of [s] exactly when [s] has
    the bare form. *)
Lemma match_letter s g :
  match_here pattern_letter s None = Some g <->
  exists c, g = Some [c] /\ bare_form s c.
Proof.
  unfold pattern_letter, lits, bare_form, open_tag, close_tag.
  rewrite match_here_literals. cbn [app]. split.
  - intros (s1 & -> & H). rewrite match_here_group in H.
    destruct s1 as [|c s1]; [done|].
    destruct (atom_matches (Range 65 69) c) eqn:Hc; [|done].
    apply match_here_literals_end in H as (-> & rest & ->).
    exists c. split; [done|]. split; [exact Hc|]. by exists rest.
  - intros (c & -> & Hc & rest & ->).
    eexists. split; [reflexivity|].
    rewrite match_here_group. change (atom_matches (Range 65 69) c) with (is_label c).
    rewrite Hc. apply match_here_literals_end. eauto.
Qed.

Lemma content_form_label s c c' : content_form s c -> content_form s c' -> c = c'.
Proof.
  intros (_ & d & t & r & -> & _) (_ & d' & t' & r' & E & _).
  unfold open_tag in E. simpl in E. congruence.
Qed.

Lemma bare_form_label s c c' : bare_form s c -> bare_form s c' -> c = c'.
Proof.
  intros (_ & r & ->) (_ & r' & E).
  unfold open_tag in E. simpl in E. congruence.
Qed.

(** On a record whose answer is a string the extractor is the two
    searches, one after the other. *)
Lemma extract_answer_record s :
  extract_answer_from_json (answer_record s) =
  Ok match search pattern_with_content s with
     | Some g => g
     | None =>
         match search pattern_letter s with
         | Some g => g
         | None => None
         end
     end.
Proof.
  unfold extract_answer_from_json, answer_record, get_answer.
  rewrite lookup_singleton_eq. simpl.
  destruct (search pattern_with_content s); [done|].
  by destruct (search pattern_letter s).
Qed.

Lemma search_with_content_label s g :
  search pattern_with_content s = Some g -> exists c, g = Some [c] /\ is_label c = true.
Proof.
  intros (pre & suf & _ & H & _)%search_Some.
  apply match_with_content in H as (c & -> & Hc & _). eauto.
Qed.

Lemma search_letter_label s g :
  search pattern_letter s = Some g -> exists c, g = Some [c] /\ is_label c = true.
Proof.
  intros (pre & suf & _ & H & _)%search_Some.
  apply match_letter in H as (c & -> & Hc & _). eauto.
Qed.

(** ** Tag pairs *)

Lemma is_prefix_spec (w s : str) : is_prefix w s = true <-> exists r, s = w ++ r.
Proof.
  revert s. induction w as [|x w IH]; intros s; simpl.
  - split; [eauto | done].
  - destruct s as [|y s].
    + split; [done | by intros (r & ?)].
    + rewrite andb_true_iff, N.eqb_eq, IH. split.
      * intros (-> & r & ->). eauto.
      * intros (r & [= -> ->]). eauto.
Qed.

Lemma find_sub_unfold (w s : str) :
  find_sub w s =
  if is_prefix w s then Some (drop (length w) s)
  else match s with [] => None | _ :: s' => find_sub w s' end.
Proof. destruct s; reflexivity. Qed.

Lemma find_sub_complete (w pre post : str) :
  exists pre' r,
    find_sub w (pre ++ w ++ post) = Some r /\
    pre ++ w ++ post = pre' ++ w ++ r /\ (length pre' <= length pre)%nat.
Proof.
  induction pre as [|x pre IH].
  - exists [], post. split_and!; [|done..].
    rewrite find_sub_unfold. simpl.
    assert (is_prefix w (w ++ post) = true) as -> by (apply is_prefix_spec; eauto).
    by rewrite drop_app_length.
  - destruct IH as (pre' & r & Hf & Heq & Hlen).
    rewrite find_sub_unfold.
    destruct (is_prefix w ((x :: pre) ++ w ++ post)) eqn:E.
    + apply is_prefix_spec in E as (r0 & E).
      exists [], r0. split_and!; [|by rewrite E|simpl; lia].
      by rewrite E, drop_app_length.
    + exists (x :: pre'), r. split_and!; [|simpl; by rewrite Heq|simpl; lia].
      simpl. exact Hf.
Qed.

Lemma find_sub_sound (w s r : str) :
  find_sub w s = Some r -> exists pre, s = pre ++ w ++ r.
Proof.
  induction s as [|x s IH]; rewrite find_sub_unfold.
  - destruct (is_prefix w []) eqn:E; [|done].
    apply is_prefix_spec in E as (r0 & E). intros [= <-]. exists [].
    symmetry in E. by apply app_eq_nil in E as [-> ->].
  - destruct (is_prefix w (x :: s)) eqn:E.
    + apply is_prefix_spec in E as (r0 & E). intros [= <-]. exists [].
      rewrite E. simpl. by rewrite drop_app_length.
    + intros H. destruct (IH H) as (pre & ->). by exists (x :: pre).
Qed.

(** A text with an opening tag and a closing tag after it is recognised
    by [has_tag_pair]. *)
Lemma has_tag_pair_complete (pre mid post : str) :
  has_tag_pair (pre ++ open_tag ++ mid ++ close_tag ++ post) = true.
Proof.
  unfold has_tag_pair.
  destruct (find_sub_complete open_tag pre (mid ++ close_tag ++ post))
    as (pre' & r & -> & Heq & Hlen).
  assert (exists x, r = x ++ close_tag ++ post) as (x & ->).
  { assert (length pre' + length open_tag <= length pre + length open_tag)%nat as H by lia.
    rewrite !app_assoc in Heq. rewrite <- !(app_assoc _ close_tag) in Heq.
    apply (f_equal (drop (length (pre' ++ open_tag)))) in Heq.
    rewrite (drop_app_length (pre' ++ open_tag)) in Heq.
    rewrite <- Heq.
    rewrite !app_assoc. rewrite <- (app_assoc _ close_tag).
    rewrite drop_app_le by (rewrite !length_app; simpl; rewrite !length_app in *; simpl in *; lia).
    eauto. }
  destruct (find_sub_complete close_tag x post) as (? & ? & -> & _).
  by apply bool_decide_eq_true_2.
Qed.

(** [has_tag_pair] decides [contains_tag_pair]. *)
Lemma has_tag_pair_spec s : has_tag_pair s = true <-> contains_tag_pair s.
Proof.
  split.
  - unfold has_tag_pair. destruct (find_sub open_tag s) as [r|] eqn:E1; [|done].
    intros [r' E2]%bool_decide_eq_true.
    apply find_sub_sound in E1 as (pre & ->), E2 as (mid & ->).
    by exists pre, mid, r'.
  - intros (pre & mid & post & ->). apply has_tag_pair_complete.
Qed.

Lemma no_tag_pair_no_match s :
  ~ contains_tag_pair s ->
  search pattern_with_content s = None /\ search pattern_letter s = None.
Proof.
  intros Hnone.
  assert (has_tag_pair s = false) as Hno.
  { destruct (has_tag_pair s) eqn:E; [|done]. by apply has_tag_pair_spec in E. }
  clear Hnone. split; apply search_None; intros pre suf ->.
  - destruct (match_here pattern_with_content suf None) eqn:E; [|done].
    apply match_with_content in E as (c & _ & _ & d & tail & rest & -> & _).
    pose proof (has_tag_pair_complete pre (c :: d :: tail) rest) as H.
    cbn [app] in H. congruence.
  - destruct (match_here pattern_letter suf None) eqn:E; [|done].
    apply match_letter in E as (c & _ & _ & rest & ->).
    pose proof (has_tag_pair_complete pre [c] rest) as H.
    cbn [app] in H. congruence.
Qed.

End extractor_facts.

Section extractor_claims.
Import Py Re ExtractAnswers.

Implicit Types (s : str) (c : N) (p : pattern).

(** A pattern whose matches are described by [P] is found by [search] at
    the leftmost place where [P] holds. *)
Lemma search_leftmost p (P : str -> N -> Prop) :
  (forall s g, match_here p s None = Some g <-> exists c, g = Some [c] /\ P s c) ->
  (forall s c c', P s c -> P s c' -> c = c') ->
  forall s c,
    search p s = Some (Some [c]) <->
    exists pre suf, leftmost (fun t => exists c', P t c') s pre suf /\ P suf c.
Proof.
  intros Hm Huniq s c. rewrite search_Some. split.
  - intros (pre & suf & Hs & H & Hmin). apply Hm in H as (c0 & [= <-] & HP).
    exists pre, suf. split; [|done]. split_and!; [done|by exists c|].
    intros pre' suf' Hs' Hlen (c' & HP').
    assert (match_here p suf' None = Some (Some [c'])) as E by (apply Hm; eauto).
    rewrite (Hmin pre' suf') in E; done.
  - intros (pre & suf & (Hs & _ & Hmin) & HP). exists pre, suf.
    split_and!; [done|apply Hm; eauto|].
    intros pre' suf' Hs' Hlen.
    destruct (match_here p suf' None) as [g|] eqn:E; [|done].
    apply Hm in E as (c' & _ & HP'). destruct (Hmin pre' suf'); eauto.
Qed.

Lemma search_nowhere p (P : str -> N -> Prop) :
  (forall s g, match_here p s None = Some g <-> exists c, g = Some [c] /\ P s c) ->
  forall s, search p s = None <-> nowhere (fun t => exists c', P t c') s.
Proof.
  intros Hm s. rewrite search_None. unfold nowhere. split.
  - intros H pre suf Hs (c' & HP).
    assert (match_here p suf None = Some (Some [c'])) as E by (apply Hm; eauto).
    rewrite (H pre suf) in E; done.
  - intros H pre suf Hs.
    destruct (match_here p suf None) as [g|] eqn:E; [|done].
    apply Hm in E as (c' & _ & HP'). destruct (H pre suf); eauto.
Qed.

Lemma is_label_cases c :
  is_label c = true -> c = 65%N \/ c = 66%N \/ c = 67%N \/ c = 68%N \/ c = 69%N.
Proof.
  unfold is_label. rewrite andb_true_iff, !N.leb_le. lia.
Qed.

(** C1: on a record whose answer is the given text, the Answer Extractor
    returns C for [<answer>C</answer>] and for
    [<answer>C. because of the stop sign</answer>], absent for a text
    without a tag pair (such as [no tags here]) and for
    [<answer>F</answer>]; its result is always absent or one of A, B, C,
    D, E, and it never raises. *)
Theorem C1_extractor_results :
  extract_answer_from_json (answer_record (of_string "<answer>C</answer>"))
    = Ok (Some (of_string "C")) /\
  extract_answer_from_json
    (answer_record (of_string "<answer>C. because of the stop sign</answer>"))
    = Ok (Some (of_string "C")) /\
  extract_answer_from_json (answer_record (of_string "no tags here")) = Ok None /\
  extract_answer_from_json (answer_record (of_string "<answer>F</answer>")) = Ok None /\
  (forall s, ~ contains_tag_pair s ->
     extract_answer_from_json (answer_record s) = Ok None) /\
  (forall s, exists r,
     extract_answer_from_json (answer_record s) = Ok r /\
     r ∈ [None; Some (of_string "A"); Some (of_string "B"); Some (of_string "C");
          Some (of_string "D"); Some (of_string "E")]).
Proof.
  split_and!; try (vm_compute; reflexivity).
  - intros s Hno. rewrite extract_answer_record.
    destruct (no_tag_pair_no_match s Hno) as [-> ->]. done.
  - intros s. rewrite extract_answer_record. eexists. split; [reflexivity|].
    assert (forall g, (exists c, g = Some [c] /\ is_label c = true) ->
      g ∈ [None; Some (of_string "A"); Some (of_string "B"); Some (of_string "C");
           Some (of_string "D"); Some (of_string "E")]) as Hin.
    { intros g (c & -> & Hc). apply is_label_cases in Hc.
      destruct Hc as [-> | [-> | [-> | [-> | ->]]]]; apply list_elem_of_In; simpl; tauto. }
    destruct (search pattern_with_content s) as [g|] eqn:E1.
    { by apply Hin, (search_with_content_label s). }
    destruct (search pattern_letter s) as [g|] eqn:E2.
    { by apply Hin, (search_letter_label s). }
    apply list_elem_of_In. simpl. tauto.
Qed.

Lemma C1_extractor_results_witness :
  extract_answer_from_json
    (answer_record (of_string "no tags here but </answer> first, <answer> last")) = Ok None.
Proof.
  apply (proj1 (proj2 (proj2 (proj2 (proj2 C1_extractor_results))))).
  intros H. apply has_tag_pair_spec in H. vm_compute in H. discriminate.
Defined.

(** C3, as the specification states it, fails: the earliest tag pair of
    the first text carries A but the extractor answers B, and the
    trailing text of the second is refused because it does not start
    with a full stop or a whitespace character. *)
Lemma C3_counterexample :
  bare_form (of_string "<answer>A</answer> or <answer>B. maybe</answer>") 65 /\
  extract_answer_from_json
    (answer_record (of_string "<answer>A</answer> or <answer>B. maybe</answer>"))
    = Ok (Some (of_string "B")) /\
  extract_answer_from_json
    (answer_record (of_string "<answer>C) because of the stop sign</answer>"))
    = Ok None.
Proof.
  split_and!; try (vm_compute; reflexivity).
  split; [reflexivity|]. eexists. reflexivity.
Qed.

(** C3 (amended): the extractor answers the label [c] exactly when
    either the leftmost place of the text that has the form with content
    (opening tag, label, a full stop or whitespace character, text
    without a newline, closing tag) carries [c], or no place has that
    form and the leftmost place that has the bare form (opening tag,
    label, closing tag) carries [c]. *)
Theorem C3_extractor_forms (s : str) (c : N) :
  extract_answer_from_json (answer_record s) = Ok (Some [c]) <->
  (exists pre suf,
     leftmost (fun t => exists c', content_form t c') s pre suf /\ content_form suf c) \/
  (nowhere (fun t => exists c', content_form t c') s /\
   exists pre suf,
     leftmost (fun t => exists c', bare_form t c') s pre suf /\ bare_form suf c).
Proof.
  rewrite extract_answer_record.
  pose proof (search_leftmost _ _ match_with_content content_form_label s) as HL1.
  pose proof (search_nowhere _ _ match_with_content s) as HN1.
  pose proof (search_leftmost _ _ match_letter bare_form_label s) as HL2.
  pose proof (search_nowhere _ _ match_letter s) as HN2.
  destruct (search pattern_with_content s) as [g|] eqn:E1.
  - destruct (search_with_content_label s g E1) as (c0 & -> & _). split.
    + intros [= ->]. left. by apply HL1.
    + intros [H | [H _]].
      * apply HL1 in H. congruence.
      * apply HN1 in H. done.
  - assert (nowhere (fun t => exists c', content_form t c') s) as Hno by by apply HN1.
    destruct (search pattern_letter s) as [g|] eqn:E2.
    + destruct (search_letter_label s g E2) as (c0 & -> & _). split.
      * intros [= ->]. right. split; [done|]. by apply HL2.
      * intros [H | [_ H]]; [apply HL1 in H; done|].
        apply HL2 in H. congruence.
    + split; [done|]. intros [H | [_ H]]; [apply HL1 in H; done|].
      apply HL2 in H. done.
Qed.

End extractor_claims.

(* ===================================================================== *)
(** * The Gap Detector                                                    *)
(* ===================================================================== *)

Section gap_detector_facts.
Import Py Re ExtractAnswers.

Implicit Types (f : json_file) (st : scan) (i : Z).

(** [int()] raises nothing but [ValueError]. *)
Lemma py_int_raises (s : str) e : py_int s = Raise e -> is_ValueError e = true.
Proof.
  unfold py_int. intros H. repeat case_match; simplify_eq; done.
Qed.

Lemma scan_app_empty st : scan_app st (Scan [] ∅ []) = st.
Proof.
  destruct st as [r p o]. unfold scan_app. simpl.
  by rewrite !app_nil_r, (left_id_L ∅ (∪)).
Qed.

Local Ltac scan_eq :=
  unfold scan_app, print; simpl;
  rewrite ?app_nil_r, ?(left_id_L ∅ (∪)), ?(right_id_L ∅ (∪)); done.

(** Scanning a file never raises, and appends the file's effect. *)
Lemma scan_file_effect st f : scan_file st f = Ok (scan_app st (file_effect f)).
Proof.
  unfold file_effect, scan_file.
  destruct (py_int (split_first (name f))) as [i|e] eqn:Ei; simpl.
  - destruct ((1 <=? i) && (i <=? 251)); [|by rewrite scan_app_empty].
    destruct (content f) as [jc|e]; simpl; [|scan_eq].
    destruct (extract_answer_from_json jc) as [[[|c a]|]|e]; simpl; scan_eq.
  - rewrite (py_int_raises _ _ Ei). scan_eq.
Qed.

Lemma scan_files_effect st (fs : list json_file) :
  scan_files st fs = Ok (foldl scan_app st (map file_effect fs)).
Proof.
  revert st. induction fs as [|f fs IH]; intros st; simpl; [done|].
  rewrite scan_file_effect. simpl. apply IH.
Qed.

Lemma foldl_scan_app st (es : list scan) :
  foldl scan_app st es =
  Scan (results st ++ flat_map results es)
       (⋃ (map processed_ids es) ∪ processed_ids st)
       (printed st ++ flat_map printed es).
Proof.
  revert st. induction es as [|e es IH]; intros st; simpl.
  - destruct st. simpl. by rewrite !app_nil_r, (left_id_L ∅ (∪)).
  - rewrite IH. unfold scan_app. simpl. rewrite <- !app_assoc.
    f_equal. apply set_eq. intros i. rewrite !elem_of_union. tauto.
Qed.

Lemma effect_processed f : processed_ids (file_effect f) = label_ids f.
Proof.
  unfold file_effect, scan_file, label_ids, parsed_label.
  destruct (py_int (split_first (name f))) as [i|e] eqn:Ei; simpl.
  - destruct ((1 <=? i) && (i <=? 251)) eqn:Er.
    + destruct (content f) as [jc|e]; simpl; [|done].
      destruct (extract_answer_from_json jc) as [[[|c a]|]|e]; simpl; try done.
      rewrite Er. by rewrite (right_id_L ∅ (∪)).
    + destruct (content f) as [jc|e]; simpl; [|done].
      destruct (extract_answer_from_json jc) as [[[|c a]|]|e]; simpl; try done.
      by rewrite Er.
  - by rewrite (py_int_raises _ _ Ei).
Qed.

Lemma effect_non_numeric f :
  non_numeric f = true -> file_effect f = Scan [] ∅ [InvalidIdFormat (name f)].
Proof.
  unfold non_numeric, file_effect, scan_file.
  destruct (py_int (split_first (name f))) as [i|e] eqn:Ei; [done|]. intros _. simpl.
  by rewrite (py_int_raises _ _ Ei).
Qed.

Lemma effect_out_of_range f : out_of_range f = true -> file_effect f = Scan [] ∅ [].
Proof.
  unfold out_of_range, file_effect, scan_file.
  destruct (py_int (split_first (name f))) as [i|e] eqn:Ei; [|done]. simpl.
  intros ->%negb_true_iff. done.
Qed.

Lemma effect_well_formed f :
  malformed f = false ->
  Forall (fun l => is_invalid_id_line l = false) (printed (file_effect f)).
Proof.
  unfold malformed, non_numeric, file_effect, scan_file.
  destruct (py_int (split_first (name f))) as [i|e] eqn:Ei; [|done]. simpl.
  intros _. destruct ((1 <=? i) && (i <=? 251)); [|done].
  destruct (content f) as [jc|e]; simpl; [|by repeat constructor].
  destruct (extract_answer_from_json jc) as [[[|c a]|]|e]; simpl; by repeat constructor.
Qed.

(** The success set: the ids in range for which some file gives a label. *)
Lemma elem_of_processed (fs : list json_file) i :
  i ∈ ⋃ (map processed_ids (map file_effect fs)) <->
  1 <= i <= 251 /\ exists f a, f ∈ fs /\ parsed_label f = Some (i, a).
Proof.
  rewrite elem_of_union_list. split.
  - intros (X & HX & Hi). apply list_elem_of_fmap in HX as (e & -> & He).
    apply list_elem_of_fmap in He as (f & -> & Hf).
    rewrite effect_processed in Hi. unfold label_ids in Hi.
    destruct (parsed_label f) as [[j a]|] eqn:E; [|set_solver].
    destruct ((1 <=? j) && (j <=? 251)) eqn:Er; [|set_solver].
    apply elem_of_singleton in Hi as ->.
    apply andb_true_iff in Er as [?%Z.leb_le ?%Z.leb_le]. eauto 6.
  - intros (Hr & f & a & Hf & E). exists (label_ids f). split.
    + rewrite <- effect_processed. apply list_elem_of_fmap. eexists. split; [done|].
      apply list_elem_of_fmap. eauto.
    + unfold label_ids. rewrite E.
      assert ((1 <=? i) && (i <=? 251) = true) as ->
        by (apply andb_true_iff; split; apply Z.leb_le; lia).
      set_solver.
Qed.

Lemma elem_of_all_expected i : i ∈ all_expected_ids <-> 1 <= i <= 251.
Proof.
  unfold all_expected_ids. rewrite elem_of_list_to_set, elem_of_seqZ. lia.
Qed.

(** [process_files] never raises; its report in terms of the files'
    effects. *)
Lemma process_files_report (fs : list json_file) :
  exists rep,
    process_files fs = Ok rep /\
    csv_rows rep = sort_by_id (flat_map results (map file_effect fs)) /\
    success_ids rep = ⋃ (map processed_ids (map file_effect fs)) /\
    missing_ids rep = all_expected_ids ∖ success_ids rep /\
    output rep =
      flat_map printed (map file_effect fs) ++ report_missing (missing_ids rep)
      ++ [ResultsWritten (of_string "answers.csv"); Processed (length (csv_rows rep))].
Proof.
  unfold process_files. rewrite scan_files_effect, foldl_scan_app. simpl.
  eexists. split; [reflexivity|]. simpl.
  by rewrite (right_id_L ∅ (∪)).
Qed.

Lemma report_missing_kept (m : gset Z) :
  Forall (fun l => is_invalid_id_line l = false) (report_missing m).
Proof. unfold report_missing. case_bool_decide; by repeat constructor. Qed.

End gap_detector_facts.

Section gap_detector_claims.
Import Py Re ExtractAnswers.

Implicit Types (f : json_file) (i : Z).

Lemma parsed_label_id f i a : parsed_label f = Some (i, a) -> id_of f = Ok i.
Proof.
  unfold parsed_label, id_of. destruct (py_int _); [|done].
  repeat case_match; congruence.
Qed.

Lemma parsed_label_content f i a :
  parsed_label f = Some (i, a) ->
  exists jc, content f = Ok jc /\ extract_answer_from_json jc = Ok (Some a).
Proof.
  unfold parsed_label. destruct (py_int _); [|done].
  destruct (content f) as [jc|e]; simpl; [|done].
  destruct (extract_answer_from_json jc) as [[[|c a']|]|e] eqn:E; try done.
  intros [= _ <-]. eauto.
Qed.

(** C6: [process_files] always completes, and its missing set is exactly
    the ids of 1..251 for which no file gives a parsed label: an id
    without a file, an id whose files do not load, and an id whose files
    yield no label are missing; an id with a parsed label is not. *)
Theorem C6_missing_ids_exact (json_files : list json_file) :
  exists rep,
    process_files json_files = Ok rep /\
    (forall i, i ∈ missing_ids rep <->
       1 <= i <= 251 /\
       forall f, f ∈ json_files -> forall a, parsed_label f <> Some (i, a)) /\
    (forall i, 1 <= i <= 251 ->
       (forall f, f ∈ json_files -> id_of f <> Ok i) -> i ∈ missing_ids rep) /\
    (forall i, 1 <= i <= 251 ->
       (forall f, f ∈ json_files -> id_of f = Ok i -> exists e, content f = Raise e) ->
       i ∈ missing_ids rep) /\
    (forall i, 1 <= i <= 251 ->
       (forall f, f ∈ json_files -> id_of f = Ok i ->
          exists jc, content f = Ok jc /\ extract_answer_from_json jc = Ok None) ->
       i ∈ missing_ids rep) /\
    (forall i f a, f ∈ json_files -> parsed_label f = Some (i, a) ->
       i ∉ missing_ids rep).
Proof.
  destruct (process_files_report json_files) as (rep & Hrep & _ & Hs & Hm & _).
  exists rep. split; [done|].
  assert (forall i, i ∈ missing_ids rep <->
       1 <= i <= 251 /\
       forall f, f ∈ json_files -> forall a, parsed_label f <> Some (i, a)) as Hiff.
  { intros i. rewrite Hm, Hs, elem_of_difference, elem_of_all_expected, elem_of_processed.
    split.
    - intros [Hr Hn]. split; [done|]. intros f Hf a E. apply Hn. eauto.
    - intros [Hr Hn]. split; [done|]. intros (_ & f & a & Hf & E). by apply (Hn f Hf a). }
  split_and!; [done|..].
  - intros i Hr Hn. apply Hiff. split; [done|]. intros f Hf a E.
    apply (Hn f Hf). by apply parsed_label_id in E.
  - intros i Hr Hn. apply Hiff. split; [done|]. intros f Hf a E.
    destruct (Hn f Hf) as [e He]; [by apply parsed_label_id in E|].
    apply parsed_label_content in E as (jc & Hc & _). congruence.
  - intros i Hr Hn. apply Hiff. split; [done|]. intros f Hf a E.
    destruct (Hn f Hf) as (jc & Hc & He); [by apply parsed_label_id in E|].
    apply parsed_label_content in E as (jc' & Hc' & He'). congruence.
  - intros i f a Hf E Hi. apply Hiff in Hi as [_ Hn]. by apply (Hn f Hf a).
Qed.

End gap_detector_claims.

Section malformed_ids.
Import Py Re ExtractAnswers.

Implicit Types (f : json_file) (i : Z) (fs : list json_file).

Local Abbreviation well_formed := (fun f => malformed f = false).
Local Abbreviation kept := (fun l => is_invalid_id_line l = false).

Lemma malformed_effect f :
  malformed f = true ->
  results (file_effect f) = [] /\ processed_ids (file_effect f) = ∅ /\
  filter kept (printed (file_effect f)) = [].
Proof.
  unfold malformed. intros [H|H]%orb_true_iff.
  - by rewrite (effect_non_numeric f H).
  - by rewrite (effect_out_of_range f H).
Qed.

Lemma filter_kept_all (l : list line) : Forall kept l -> filter kept l = l.
Proof.
  induction 1 as [|x l Hx _ IH]; [done|].
  by rewrite filter_cons_True, IH.
Qed.

(** Leaving the malformed names out changes nothing but the warnings
    about identifiers that are not numbers. *)
Lemma effects_of_well_formed fs :
  flat_map results (map file_effect (filter well_formed fs))
    = flat_map results (map file_effect fs) /\
  ⋃ (map processed_ids (map file_effect (filter well_formed fs)))
    = ⋃ (map processed_ids (map file_effect fs)) /\
  flat_map printed (map file_effect (filter well_formed fs))
    = filter kept (flat_map printed (map file_effect fs)).
Proof.
  induction fs as [|f fs (IH1 & IH2 & IH3)]; [done|].
  destruct (malformed f) eqn:E.
  - rewrite filter_cons_False by congruence.
    destruct (malformed_effect f E) as (H1 & H2 & H3). simpl.
    rewrite H1, H2, filter_app, H3, IH1, IH2, IH3. simpl.
    by rewrite (left_id_L ∅ (∪)).
  - rewrite filter_cons_True by done. simpl.
    rewrite filter_app, IH1, IH2, IH3.
    by rewrite (filter_kept_all _ (effect_well_formed f E)).
Qed.

(** C7, as the specification states it, fails: a file whose id is a
    number outside 1..251 is passed over without any warning.  After a
    scan of a sink holding only [00300_result.json], the one line
    printed is the list of the missing ids. *)
Lemma C7_counterexample :
  malformed (JsonFile (of_string "00300_result.json")
               (Ok (answer_record (of_string "<answer>A</answer>")))) = true /\
  exists rep,
    process_files [JsonFile (of_string "00300_result.json")
                     (Ok (answer_record (of_string "<answer>A</answer>")))] = Ok rep /\
    output rep = [MissingAnswers (seqZ 1 251);
                  ResultsWritten (of_string "answers.csv"); Processed 0].
Proof.
  split; [reflexivity|].
  eexists. split; [vm_compute; reflexivity|]. vm_compute. reflexivity.
Qed.

(** C7 (amended): the scan always completes; a file whose identifier is
    not a number is reported by a warning; a file whose identifier is a
    number outside 1..251 is passed over and leaves the scan as it was;
    neither set holds anything outside 1..251, so a malformed identifier
    is in neither; and files, success set and missing set are those of
    the scan of the well-formed names alone, whose output differs only
    by the warnings about identifiers that are not numbers. *)
Theorem C7_malformed_ids_skipped (json_files : list json_file) :
  exists rep,
    process_files json_files = Ok rep /\
    (forall f, f ∈ json_files -> non_numeric f = true ->
       InvalidIdFormat (name f) ∈ output rep) /\
    (forall f st, out_of_range f = true -> scan_file st f = Ok st) /\
    (forall i, i ∈ success_ids rep ∪ missing_ids rep -> 1 <= i <= 251) /\
    (forall f i, f ∈ json_files -> malformed f = true -> id_of f = Ok i ->
       (i ∉ success_ids rep) /\ (i ∉ missing_ids rep)) /\
    exists rep',
      process_files (filter (fun f => malformed f = false) json_files) = Ok rep' /\
      csv_rows rep' = csv_rows rep /\
      success_ids rep' = success_ids rep /\
      missing_ids rep' = missing_ids rep /\
      output rep' = filter (fun l => is_invalid_id_line l = false) (output rep).
Proof.
  destruct (process_files_report json_files) as (rep & Hrep & Hc & Hs & Hm & Ho).
  exists rep. split; [done|].
  assert (forall i, i ∈ success_ids rep ∪ missing_ids rep -> 1 <= i <= 251) as Hrange.
  { intros i [Hi|Hi]%elem_of_union.
    - rewrite Hs in Hi. by apply elem_of_processed in Hi as [? _].
    - rewrite Hm in Hi. apply elem_of_difference in Hi as [Hi _].
      by apply elem_of_all_expected. }
  split_and!.
  - intros f Hf Hn. rewrite Ho. apply elem_of_app. left.
    apply list_elem_of_In, in_flat_map. exists (file_effect f). split.
    + apply in_map. by apply list_elem_of_In.
    + rewrite (effect_non_numeric f Hn). simpl. by left.
  - intros f st Hf. rewrite scan_file_effect, (effect_out_of_range f Hf).
    by rewrite scan_app_empty.
  - done.
  - intros f i Hf Hbad Hid.
    assert (~ 1 <= i <= 251) as Hout.
    { revert Hbad. unfold malformed, non_numeric, out_of_range.
      unfold id_of in Hid. rewrite Hid. simpl.
      intros H%negb_true_iff. apply andb_false_iff in H as [H|H];
        apply Z.leb_gt in H; lia. }
    split; intros Hi; apply Hout, Hrange, elem_of_union; auto.
  - destruct (process_files_report (filter (fun f => malformed f = false) json_files))
      as (rep' & Hrep' & Hc' & Hs' & Hm' & Ho').
    destruct (effects_of_well_formed json_files) as (E1 & E2 & E3).
    assert (success_ids rep' = success_ids rep) as Hsucc by by rewrite Hs', Hs, E2.
    assert (missing_ids rep' = missing_ids rep) as Hmiss by by rewrite Hm', Hm, Hsucc.
    exists rep'. split_and!; [done| by rewrite Hc', Hc, E1 |done|done|].
    rewrite Ho', Ho, !filter_app, E3, Hmiss, Hc', Hc, E1.
    by rewrite (filter_kept_all _ (report_missing_kept _)).
Qed.

End malformed_ids.

Section gap_detector_witnesses.
Import Py Re ExtractAnswers.

Local Ltac sink_cases H :=
  apply list_elem_of_In in H; simpl in H;
  repeat (destruct H as [<-|H]); try destruct H.

Lemma C6_missing_ids_exact_witness :
  exists rep,
    process_files sample_sink = Ok rep /\
    (1 ∉ missing_ids rep) /\ 2 ∈ missing_ids rep /\ 3 ∈ missing_ids rep /\
    4 ∈ missing_ids rep.
Proof.
  destruct (C6_missing_ids_exact sample_sink)
    as (rep & Hrep & _ & Hnofile & Hbroken & Hnolabel & Hlabel).
  exists rep. split_and!; [done|..].
  - apply (Hlabel 1 (result_file "00001_result.json"
                       "Frame 1 shows a stop sign. <answer>B</answer>") (of_string "B")).
    + apply list_elem_of_In. simpl. tauto.
    + vm_compute. reflexivity.
  - apply Hnolabel; [lia|]. intros f Hf Hid.
    sink_cases Hf; vm_compute in Hid; try discriminate.
    eexists. split; [reflexivity|]. vm_compute. reflexivity.
  - apply Hbroken; [lia|]. intros f Hf Hid.
    sink_cases Hf; vm_compute in Hid; try discriminate.
    eexists. reflexivity.
  - apply Hnofile; [lia|]. intros f Hf Hid.
    sink_cases Hf; vm_compute in Hid; discriminate.
Defined.

Lemma C7_malformed_ids_skipped_witness :
  exists rep,
    process_files sample_sink = Ok rep /\
    InvalidIdFormat (of_string "notes.json") ∈ output rep /\
    (300 ∉ success_ids rep) /\ (300 ∉ missing_ids rep).
Proof.
  destruct (C7_malformed_ids_skipped sample_sink)
    as (rep & Hrep & Hwarn & _ & _ & Hneither & _).
  exists rep. split_and!; [done|..].
  - apply (Hwarn (result_file "notes.json" "<answer>C</answer>")).
    + apply list_elem_of_In. simpl. tauto.
    + vm_compute. reflexivity.
  - apply (Hneither (result_file "00300_result.json" "<answer>A</answer>") 300).
    + apply list_elem_of_In. simpl. tauto.
    + vm_compute. reflexivity.
    + vm_compute. reflexivity.
  - apply (Hneither (result_file "00300_result.json" "<answer>A</answer>") 300).
    + apply list_elem_of_In. simpl. tauto.
    + vm_compute. reflexivity.
    + vm_compute. reflexivity.
Defined.

End gap_detector_witnesses.

(* ===================================================================== *)
(** * Runs: general facts                                                 *)
(* ===================================================================== *)

Section run_facts.
Import Py Run.

Lemma for_each_length {A B} (body : A -> M B) (xs : list A) tr bs tr' :
  for_each body xs tr = (bs, tr') -> length bs = length xs.
Proof.
  revert tr bs tr'. induction xs as [|x xs IH]; intros tr bs tr'; simpl.
  - by intros [= <- _].
  - unfold and_then, ret. destruct (body x tr) as [b tr1].
    destruct (for_each body xs tr1) as [bs1 tr2] eqn:E.
    intros [= <- _]. simpl. f_equal. by apply (IH tr1 bs1 tr2).
Qed.

(** Every element of the result comes from running the body on the
    element at the same position. *)
Lemma for_each_lookup {A B} (body : A -> M B) (xs : list A) tr bs tr' i x :
  for_each body xs tr = (bs, tr') -> xs !! i = Some x ->
  exists b tr_i, bs !! i = Some b /\ b = (body x tr_i).1.
Proof.
  revert tr bs tr' i. induction xs as [|y xs IH]; intros tr bs tr' i; simpl; [done|].
  unfold and_then, ret. destruct (body y tr) as [b tr1] eqn:Eb.
  destruct (for_each body xs tr1) as [bs1 tr2] eqn:E.
  intros [= <- _] Hx. destruct i as [|i]; simpl in *.
  - injection Hx as ->. exists b, tr. by rewrite Eb.
  - by apply (IH tr1 bs1 tr2).
Qed.

(** Reading the frames touches neither the endpoint nor the sink. *)
Lemma add_frames_events (w : world) paths content tr r tr' :
  add_frames w paths content tr = (r, tr') ->
  exists evs, tr' = tr ++ evs /\ Forall (fun e => exists p, e = ReadImage p) evs.
Proof.
  revert content tr. induction paths as [|p paths IH]; intros content tr; simpl.
  - intros [= _ <-]. exists []. by rewrite app_nil_r.
  - unfold and_then_ok, and_then, encode_image, emit, ret. simpl.
    destruct (image w p) as [b64|e].
    + intros H. apply IH in H as (evs & -> & Hall).
      exists (ReadImage p :: evs). rewrite <- app_assoc. split; [done|].
      constructor; eauto.
    + intros [= _ <-]. exists [ReadImage p]. split; [done|]. repeat constructor. eauto.
Qed.

End run_facts.

(* ===================================================================== *)
(** * The Attempt Sampler                                                 *)
(* ===================================================================== *)

Section sampler_facts.
Import Py Run ThreeTimes.

Implicit Types (w : world) (tr : list event) (q : row).

(** The dictionary of a successful call. *)
Lemma attempt_body_ok w video_id question tr d tr' :
  attempt_body w video_id question tr = (Ok d, tr') ->
  exists ch,
    d = {[ "video_id"%string := VStr video_id;
           "answer"%string := message_content ch;
           "finish_reason"%string := choice_finish_reason ch ]}.
Proof.
  unfold attempt_body, and_then_ok, and_then, get_frame_paths, emit, create, ret.
  simpl. case_bool_decide; [done|].
  destruct (add_frames _ _ _ _) as [[content|e] tr1]; [|done]. simpl.
  destruct (remote w tr1 _) as [c|e]; [|done]. simpl.
  unfold first_choice. destruct (choices c) as [|ch rest]; [done|]. simpl.
  intros [= <- _]. eauto.
Qed.

(** Without frames nothing is sent to the endpoint. *)
Lemma attempt_body_no_frames w video_id question tr :
  frames w video_id = [] ->
  attempt_body w video_id question tr =
    (Raise (Exn FileNotFoundError (of_string "No frames found for video ID " ++ video_id)),
     tr ++ [Glob video_id]).
Proof.
  intros H. unfold attempt_body, and_then, get_frame_paths, emit, ret. simpl.
  rewrite H. by rewrite bool_decide_eq_true_2.
Qed.

Lemma process_question_unfold w video_id question tr :
  process_question w video_id question tr =
  (try_except (attempt_body w video_id question tr).1
     (fun e => {[ "video_id"%string := VStr video_id;
                  "error"%string := VStr (exn_msg e) ]}),
   (attempt_body w video_id question tr).2).
Proof.
  unfold process_question, try_catch, and_then, ret.
  by destruct (attempt_body w video_id question tr).
Qed.

(** Every result carries the id of its video. *)
Lemma process_question_video_id w video_id question tr :
  (process_question w video_id question tr).1 !! "video_id"%string = Some (VStr video_id).
Proof.
  rewrite process_question_unfold. simpl.
  destruct (attempt_body w video_id question tr) as [[d|e] tr'] eqn:E; simpl.
  - apply attempt_body_ok in E as (ch & ->). by simplify_map_eq.
  - by simplify_map_eq.
Qed.

(** The entry built from a result: the response on success, the
    message of the exception on failure. *)
Lemma attempt_data_outcome w video_id question tr i :
  match (attempt_body w video_id question tr).1 with
  | Ok d =>
      exists ch,
        d = {[ "video_id"%string := VStr video_id;
               "answer"%string := message_content ch;
               "finish_reason"%string := choice_finish_reason ch ]} /\
        attempt_data i (process_question w video_id question tr).1 =
          Attempt (Z.of_nat i) (message_content ch) (choice_finish_reason ch) VNone
  | Raise e =>
      attempt_data i (process_question w video_id question tr).1 =
        Attempt (Z.of_nat i) VNone VNone (VStr (exn_msg e))
  end.
Proof.
  rewrite process_question_unfold. simpl.
  destruct (attempt_body w video_id question tr) as [[d|e] tr'] eqn:E; simpl.
  - apply attempt_body_ok in E as (ch & ->). exists ch. split; [done|].
    unfold attempt_data, get. by simplify_map_eq.
  - unfold attempt_data, get. by simplify_map_eq.
Qed.

(** The frames are read in order; each adds its part to the content. *)
Lemma add_frames_ok w (paths images : list str) (content : list part) tr :
  Forall2 (fun path image => Run.image w path = Ok image) paths images ->
  add_frames w paths content tr
  = (Ok (content ++ map image_part images), tr ++ map ReadImage paths).
Proof.
  intros H. revert content tr.
  induction H as [|p b paths images Hp _ IH]; intros content tr.
  - simpl. unfold ret. by rewrite !app_nil_r.
  - cbn [add_frames map]. unfold and_then_ok, encode_image, emit, ret, and_then.
    rewrite Hp, IH. unfold image_part. by rewrite <- !app_assoc.
Qed.

(** An attempt whose frames can be read: the frames are listed and
    read, one request is issued, and the result is the first choice of
    the endpoint's answer, or the error of the call. *)
Lemma process_question_readable w (video_id question : str) (images : list str) tr :
  frames w video_id <> [] ->
  Forall2 (fun path image => Run.image w path = Ok image) (frames w video_id) images ->
  process_question w video_id question tr
  = (match bind (remote w (tr ++ Glob video_id :: map ReadImage (frames w video_id))
                   (sampler_request question images)) first_choice with
     | Ok ch => response_of video_id ch
     | Raise e => failure_of video_id e
     end,
     tr ++ Glob video_id :: map ReadImage (frames w video_id)
        ++ [Create (sampler_request question images)]).
Proof.
  intros Hne Himg. rewrite process_question_unfold.
  unfold attempt_body, and_then_ok, get_frame_paths, emit, ret, and_then. cbn [fst snd].
  rewrite bool_decide_eq_false_2 by done.
  rewrite (add_frames_ok _ _ _ _ _ Himg). unfold create. cbn [app].
  rewrite <- !app_assoc. cbn [app].
  change (Request "gpt-4o" _ _ _ _) with (sampler_request question images).
  destruct (remote w _ _) as [c|e]; cbn [bind try_except fst snd]; [|done].
  by destruct (first_choice c).
Qed.

Lemma attempt_data_response (i : nat) (video_id : str) (ch : choice) :
  attempt_data i (response_of video_id ch)
  = Attempt (Z.of_nat i) (message_content ch) (choice_finish_reason ch) VNone.
Proof. unfold attempt_data, response_of, get. by simplify_map_eq. Qed.

Lemma attempt_data_failure (i : nat) (video_id : str) (e : exn) :
  attempt_data i (failure_of video_id e)
  = Attempt (Z.of_nat i) VNone VNone (VStr (exn_msg e)).
Proof. unfold attempt_data, failure_of, get. by simplify_map_eq. Qed.

(** The attempts for one question, when the frames can be read: every
    attempt appends the same events, and its result is the result of
    [process_question] after the attempts before it. *)
Lemma for_each_readable w q (images : list str) (xs : list nat) tr :
  frames w (id q) <> [] ->
  Forall2 (fun path image => Run.image w path = Ok image) (frames w (id q)) images ->
  exists results,
    for_each (fun _ : nat => process_question w (id q) (question q)) xs tr
    = (results,
       tr ++ concat (replicate (length xs) (attempt_events w (id q) (question q) images))) /\
    forall i, (i < length xs)%nat ->
      results !! i =
        Some (process_question w (id q) (question q)
                (tr ++ concat (replicate i (attempt_events w (id q) (question q) images)))).1.
Proof.
  intros Hne Himg. revert tr. induction xs as [|x xs IH]; intros tr.
  - exists []. cbn. unfold ret. rewrite app_nil_r. split; [done|]. intros i Hi. lia.
  - cbn [for_each]. unfold and_then, ret.
    pose proof (process_question_readable w (id q) (question q) images tr Hne Himg) as Hq.
    destruct (process_question w (id q) (question q) tr) as [b tr1] eqn:Eb.
    injection Hq as Hb Htr. subst tr1.
    destruct (IH (tr ++ Glob (id q) :: map ReadImage (frames w (id q))
                     ++ [Create (sampler_request (question q) images)]))
      as (results & -> & Hres).
    exists (b :: results). split.
    + cbn [length replicate concat]. unfold attempt_events at 2. by rewrite <- app_assoc.
    + intros [|i] Hi.
      * cbn. by rewrite app_nil_r, Eb.
      * cbn [length] in Hi. cbn [replicate concat].
        rewrite (app_assoc tr). unfold attempt_events at 1. apply Hres. lia.
Qed.

End sampler_facts.

Section sampler_claims.
Import Py Run ThreeTimes.

Implicit Types (w : world) (tr : list event) (q : row).

(** The document of one question: an entry per call, numbered from 1. *)
Lemma sample_question_shape w n q tr :
  (0 < n)%nat ->
  exists question_results tr',
    for_each (fun _ : nat => process_question w (id q) (question q)) (seq 0 n) tr
      = (question_results, tr') /\
    length question_results = n /\
    sample_question w n q tr
      = (Ok (Combined (VStr (id q)) (attempts_of question_results)), tr').
Proof.
  intros Hn. unfold sample_question, and_then, ret.
  destruct (for_each _ (seq 0 n) tr) as [rs tr'] eqn:E.
  exists rs, tr'. split; [done|].
  pose proof (for_each_length _ _ _ _ _ E) as Hlen. rewrite length_seq in Hlen.
  split; [done|].
  destruct rs as [|first rest]; [simpl in Hlen; lia|].
  destruct (for_each_lookup _ _ _ _ _ 0%nat 0%nat E) as (b & tr0 & Hb & ->).
  { destruct n; [lia|done]. }
  injection Hb as ->. by rewrite process_question_video_id.
Qed.

Lemma attempts_of_lookup (rs : list (gmap string value)) i :
  attempts_of rs !! i = attempt_data (S i) <$> rs !! i.
Proof. unfold attempts_of. by rewrite list_lookup_imap. Qed.

Lemma attempts_of_length (rs : list (gmap string value)) :
  length (attempts_of rs) = length rs.
Proof. unfold attempts_of. by rewrite length_imap. Qed.

(** With no frames every call fails before the endpoint is reached. *)
Lemma for_each_no_frames w q (xs : list nat) tr :
  frames w (id q) = [] ->
  for_each (fun _ : nat => process_question w (id q) (question q)) xs tr =
  (replicate (length xs)
     ({[ "video_id"%string := VStr (id q);
         "error"%string :=
           VStr (of_string "No frames found for video ID " ++ id q) ]}
        : gmap string value),
   tr ++ replicate (length xs) (Glob (id q))).
Proof.
  intros Hf. revert tr. induction xs as [|x xs IH]; intros tr; simpl.
  - unfold ret. by rewrite app_nil_r.
  - unfold and_then, ret. rewrite process_question_unfold.
    rewrite (attempt_body_no_frames _ _ _ _ Hf). simpl.
    rewrite IH. by rewrite <- app_assoc.
Qed.

Lemma no_create_in_globs (k : nat) (video_id : str) :
  filter (fun e => is_create e = true) (replicate k (Glob video_id)) = [].
Proof.
  induction k as [|k IH]; [done|].
  change (replicate (S k) (Glob video_id)) with (Glob video_id :: replicate k (Glob video_id)).
  by rewrite filter_cons_False.
Qed.

Lemma sample_all_shape w n questions all_results tr :
  (0 < n)%nat ->
  exists docs tr',
    sample_all w n questions all_results tr = (Ok (all_results ++ docs), tr') /\
    Forall2 (fun q doc =>
               exists attempts,
                 doc = Combined (VStr (id q)) attempts /\
                 length attempts = n /\
                 forall i a, attempts !! i = Some a ->
                   attempt_number a = Z.of_nat (S i))
            questions docs.
Proof.
  intros Hn. revert all_results tr.
  induction questions as [|q rest IH]; intros all_results tr; simpl.
  - exists [], tr. unfold ret. rewrite app_nil_r. by split.
  - unfold and_then_ok, and_then, emit, ret.
    destruct (sample_question_shape w n q tr Hn) as (rs & tr1 & _ & Hlen & ->).
    destruct (IH (all_results ++ [Combined (VStr (id q)) (attempts_of rs)])
                 (tr1 ++ [Dump (output_path (Combined (VStr (id q)) (attempts_of rs)))
                            (Combined (VStr (id q)) (attempts_of rs))]))
      as (docs & tr' & -> & Hall).
    exists (Combined (VStr (id q)) (attempts_of rs) :: docs), tr'.
    rewrite <- app_assoc. split; [done|]. constructor; [|done].
    eexists. split_and!; [done|by rewrite attempts_of_length|].
    intros i a. rewrite attempts_of_lookup.
    destruct (rs !! i); [|done]. by intros [= <-].
Qed.

(** C5: for a question and a number of attempts, the sampler returns one
    entry per requested attempt, numbered in order; the entry of a call
    that succeeded carries the response text and the finish reason, the
    entry of a call that raised carries the message of the exception,
    and nothing escapes; without frames every entry is such a failure
    and no call reaches the endpoint.  When the frames of the video can
    be read, every attempt lists and reads the frames and sends its
    request to the endpoint, and the i-th entry is what the endpoint
    answered to the i-th request: the text and the finish reason of the
    first choice of its answer, or the message of the exception that
    the call (or an answer without choices) raised.  [main], with its
    three attempts, writes one such document per question. *)
Theorem C5_one_attempt_per_call w (attempt_count : nat) q tr :
  (0 < attempt_count)%nat ->
  (exists attempts tr',
     sample_question w attempt_count q tr
       = (Ok (Combined (VStr (id q)) attempts), tr') /\
     length attempts = attempt_count /\
     (forall i, (i < attempt_count)%nat ->
        exists a tr_i,
          attempts !! i = Some a /\
          match (attempt_body w (id q) (question q) tr_i).1 with
          | Ok d =>
              exists ch,
                d = {[ "video_id"%string := VStr (id q);
                       "answer"%string := message_content ch;
                       "finish_reason"%string := choice_finish_reason ch ]} /\
                a = Attempt (Z.of_nat (S i)) (message_content ch)
                            (choice_finish_reason ch) VNone
          | Raise e => a = Attempt (Z.of_nat (S i)) VNone VNone (VStr (exn_msg e))
          end) /\
     (frames w (id q) = [] ->
        filter (fun e => is_create e = true) tr'
          = filter (fun e => is_create e = true) tr /\
        forall a, a ∈ attempts ->
          answer a = VNone /\
          error a = VStr (of_string "No frames found for video ID " ++ id q)) /\
     (forall images,
        frames w (id q) <> [] ->
        Forall2 (fun path base64_image => image w path = Ok base64_image)
                (frames w (id q)) images ->
        tr' = tr ++ concat (replicate attempt_count
                              (attempt_events w (id q) (question q) images)) /\
        forall i, (i < attempt_count)%nat ->
          attempts !! i =
            Some match
                   bind (remote w
                           ((tr ++ concat (replicate i
                                             (attempt_events w (id q) (question q) images)))
                            ++ Glob (id q) :: map ReadImage (frames w (id q)))
                           (sampler_request (question q) images))
                        first_choice
                 with
                 | Ok ch =>
                     Attempt (Z.of_nat (S i)) (message_content ch)
                             (choice_finish_reason ch) VNone
                 | Raise e => Attempt (Z.of_nat (S i)) VNone VNone (VStr (exn_msg e))
                 end)) /\
  (forall questions tr0,
     exists docs tr',
       main w questions tr0 = (Ok docs, tr') /\
       Forall2 (fun q doc =>
                  exists attempts,
                    doc = Combined (VStr (id q)) attempts /\
                    length attempts = 3%nat /\
                    forall i a, attempts !! i = Some a ->
                      attempt_number a = Z.of_nat (S i))
               questions docs).
Proof.
  intros Hn. split.
  - destruct (sample_question_shape w attempt_count q tr Hn)
      as (rs & tr' & Hrs & Hlen & Hs).
    exists (attempts_of rs), tr'. split_and!; [done|by rewrite attempts_of_length|..].
    + intros i Hi.
      destruct (for_each_lookup _ _ _ _ _ i i Hrs) as (b & tr_i & Hb & ->).
      { apply lookup_seq. lia. }
      exists (attempt_data (S i) (process_question w (id q) (question q) tr_i).1), tr_i.
      rewrite attempts_of_lookup, Hb. split; [done|].
      pose proof (attempt_data_outcome w (id q) (question q) tr_i (S i)) as H.
      destruct (attempt_body w (id q) (question q) tr_i).1 as [d|e].
      * destruct H as (ch & -> & ->). eauto.
      * done.
    + intros Hf. rewrite (for_each_no_frames w q _ tr Hf) in Hrs.
      injection Hrs as <- <-. split.
      * by rewrite filter_app, no_create_in_globs, app_nil_r.
      * intros a Ha. apply list_elem_of_lookup in Ha as [i Ha].
        rewrite attempts_of_lookup in Ha.
        destruct (replicate _ _ !! i) as [d|] eqn:Ed; [|done].
        apply lookup_replicate in Ed as [-> _]. injection Ha as <-.
        unfold attempt_data, get. simpl. by simplify_map_eq.
    + intros images Hne Himg.
      destruct (for_each_readable w q images (seq 0 attempt_count) tr Hne Himg)
        as (results & Hrun & Hat).
      rewrite Hrun in Hrs. injection Hrs as <- <-. rewrite length_seq in Hat |- *.
      split; [done|]. intros i Hi.
      rewrite attempts_of_lookup, (Hat i Hi).
      rewrite (process_question_readable w (id q) (question q) images _ Hne Himg).
      cbn [fst fmap option_fmap option_map].
      destruct (bind _ first_choice) as [ch|e].
      * by rewrite attempt_data_response.
      * by rewrite attempt_data_failure.
  - intros questions tr0. unfold main.
    destruct (sample_all_shape w 3 questions [] tr0) as (docs & tr' & H & Hall); [lia|].
    exists docs, tr'. by split.
Qed.

Lemma C5_one_attempt_per_call_witness :
  exists attempts tr',
    sample_question sample_world 3 (Row (of_string "00001") (of_string "What next?")) []
      = (Ok (Combined (VStr (of_string "00001")) attempts), tr') /\
    length attempts = 3%nat /\
    attempts !! 0%nat
      = Some (Attempt 1 (VStr (of_string "<answer>B</answer>")) (VStr (of_string "stop"))
                      VNone) /\
    attempts !! 1%nat
      = Some (Attempt 2 VNone VNone (VStr (of_string "Rate limit reached"))).
Proof.
  destruct (C5_one_attempt_per_call sample_world 3
              (Row (of_string "00001") (of_string "What next?")) [])
    as [(attempts & tr' & H & Hlen & _ & _ & Hreadable) _]; [lia|].
  destruct (Hreadable [of_string "QUJD"]) as [_ Hat].
  { vm_compute. discriminate. }
  { vm_compute. by repeat constructor. }
  exists attempts, tr'. split_and!; [done|done|..].
  - rewrite (Hat 0%nat) by lia. vm_compute. reflexivity.
  - rewrite (Hat 1%nat) by lia. vm_compute. reflexivity.
Defined.

End sampler_claims.

(* ===================================================================== *)
(** * The Consensus Reasoner                                              *)
(* ===================================================================== *)

Section reasoner_shared_facts.
Import Py Run.

Lemma for_each_Forall2 {A B} (body : A -> M B) (xs : list A) tr bs tr' :
  for_each body xs tr = (bs, tr') ->
  Forall2 (fun x b => exists tr_i, b = (body x tr_i).1) xs bs.
Proof.
  revert tr bs tr'. induction xs as [|x xs IH]; intros tr bs tr'; simpl.
  - intros [= <- _]. constructor.
  - unfold and_then, ret. destruct (body x tr) as [b tr1] eqn:Eb.
    destruct (for_each body xs tr1) as [bs1 tr2] eqn:E.
    intros [= <- _]. constructor; [|by eapply IH].
    exists tr. by rewrite Eb.
Qed.

(** When each body appends a fixed list of events, the loop appends
    them in order. *)
Lemma for_each_trace {A B} (body : A -> M B) (evs : A -> list event) (xs : list A) tr :
  (forall x tr0, (body x tr0).2 = tr0 ++ evs x) ->
  (for_each body xs tr).2 = tr ++ flat_map evs xs.
Proof.
  intros Hb. revert tr. induction xs as [|x xs IH]; intros tr; simpl.
  - by rewrite app_nil_r.
  - unfold and_then, ret. pose proof (Hb x tr) as H1.
    destruct (body x tr) as [b tr1]. simpl in H1. subst tr1.
    pose proof (IH (tr ++ evs x)) as H2.
    destruct (for_each body xs (tr ++ evs x)) as [bs tr2]. simpl in *.
    by rewrite H2, <- app_assoc.
Qed.

Lemma flat_map_singleton {A B} (f : A -> B) (l : list A) :
  flat_map (fun x => [f x]) l = map f l.
Proof. induction l; simpl; [done|by f_equal]. Qed.

(** Stripping [video_id] from the two shapes of a result. *)
Lemma strip_video_id_response (v a b : value) :
  filter (fun kv : string * value => kv.1 <> "video_id"%string)
    ({[ "video_id"%string := v; "answer"%string := a; "finish_reason"%string := b ]}
       : gmap string value)
  = {[ "answer"%string := a; "finish_reason"%string := b ]}.
Proof.
  rewrite map_filter_insert_not by (intros y; simpl; tauto).
  rewrite map_filter_insert_True by done.
  by rewrite map_filter_singleton_True.
Qed.

Lemma strip_video_id_error (v a : value) :
  filter (fun kv : string * value => kv.1 <> "video_id"%string)
    ({[ "video_id"%string := v; "error"%string := a ]} : gmap string value)
  = {[ "error"%string := a ]}.
Proof.
  rewrite map_filter_insert_not by (intros y; simpl; tauto).
  by rewrite map_filter_singleton_True.
Qed.

Lemma dom_response (a b : value) :
  dom ({[ "answer"%string := a; "finish_reason"%string := b ]} : gmap string value)
  = response_fields.
Proof. by rewrite dom_insert_L, dom_singleton_L. Qed.

Lemma dom_error (a : value) :
  dom ({[ "error"%string := a ]} : gmap string value) = error_fields.
Proof. by rewrite dom_singleton_L. Qed.

Lemma fields_disjoint : response_fields ## error_fields.
Proof.
  unfold response_fields, error_fields. intros x H1 H2.
  apply elem_of_singleton in H2 as ->.
  apply elem_of_union in H1 as [H|H]; by apply elem_of_singleton in H.
Qed.

Lemma video_id_not_field :
  ("video_id"%string ∉ response_fields) /\ ("video_id"%string ∉ error_fields).
Proof.
  unfold response_fields, error_fields. split; intros H.
  - apply elem_of_union in H as [H|H]; by apply elem_of_singleton in H.
  - by apply elem_of_singleton in H.
Qed.

End reasoner_shared_facts.

Section preview_facts.
Import Py Run ThreeTimesPreview.

Implicit Types (w : world) (tr : list event) (r : row) (it : item).

Lemma format_attempts_flat (attempts : list attempt) :
  format_attempts attempts = flat_map attempt_text attempts.
Proof.
  unfold format_attempts.
  enough (forall acc, fold_left (fun f a => f ++ attempt_text a) attempts acc
                      = acc ++ flat_map attempt_text attempts) as H by apply (H []).
  induction attempts as [|a l IH]; intros acc; simpl.
  - by rewrite app_nil_r.
  - by rewrite IH, <- app_assoc.
Qed.

Lemma gather_items_flat w (rows : list row) :
  gather_items w rows = flat_map (items_of_row w) rows.
Proof.
  unfold gather_items.
  enough (forall acc, fold_left (fun items r => items ++ items_of_row w r) rows acc
                      = acc ++ flat_map (items_of_row w) rows) as H by apply (H []).
  induction rows as [|r l IH]; intros acc; simpl.
  - by rewrite app_nil_r.
  - by rewrite IH, <- app_assoc.
Qed.

(** A row is queued exactly when its file is a dictionary whose
    attempts value is true in the sense of Python: it has an element. *)
Lemma items_of_row_cases w r :
  match initial_answers w (id r) with
  | Description (Some (a :: l)) =>
      items_of_row w r = [Item (id r) (a :: l) (question r)]
  | _ => items_of_row w r = []
  end.
Proof.
  unfold items_of_row.
  destruct (initial_answers w (id r)) as [|e| |[[|a l]|]]; done.
Qed.

Lemma elem_of_gather_items w rows it :
  it ∈ gather_items w rows <->
  exists r a l,
    r ∈ rows /\ initial_answers w (id r) = Description (Some (a :: l)) /\
    it = Item (id r) (a :: l) (question r).
Proof.
  rewrite gather_items_flat, list_elem_of_In, in_flat_map. split.
  - intros (r & Hr & Hit). pose proof (items_of_row_cases w r) as H.
    destruct (initial_answers w (id r)) as [|e| |[[|a l]|]] eqn:E;
      rewrite H in Hit; try done.
    destruct Hit as [<-|[]]. exists r, a, l. by rewrite list_elem_of_In.
  - intros (r & a & l & Hr & E & ->). exists r. rewrite <- list_elem_of_In.
    split; [done|]. pose proof (items_of_row_cases w r) as H.
    rewrite E in H. rewrite H. by left.
Qed.

(** The attempts three_times.py writes can always be formatted. *)
Lemma read_entries_complete (attempts : list attempt) :
  read_entries (map Complete attempts) = Ok attempts.
Proof. induction attempts as [|a l IH]; [done|]. cbn. by rewrite IH. Qed.

(** The first element that cannot be formatted decides. *)
Lemma read_entries_raise (pre post : list entry) (attempts : list attempt) (e : entry) x :
  read_entries pre = Ok attempts -> read_entry e = Raise x ->
  read_entries (pre ++ e :: post) = Raise x.
Proof.
  revert attempts. induction pre as [|p pre IH]; intros attempts; cbn.
  - intros _ ->. done.
  - destruct (read_entry p) as [a|y]; cbn; [|done].
    destruct (read_entries pre) as [l|y] eqn:E; cbn; [|done].
    intros _ Hx. by rewrite (IH l eq_refl Hx).
Qed.

(** From the prompt on: one request, and a result of one of two shapes. *)
Lemma reason_over_formatted_spec w attempts question video_id tr :
  (reason_over_formatted w attempts question video_id tr).2
    = tr ++ [Create (reason_request question attempts)] /\
  match remote w tr (reason_request question attempts) with
  | Ok c =>
      match choices c with
      | ch :: _ =>
          (reason_over_formatted w attempts question video_id tr).1
          = {[ "video_id"%string := VStr video_id;
               "answer"%string := message_content ch;
               "finish_reason"%string := choice_finish_reason ch ]}
      | [] =>
          (reason_over_formatted w attempts question video_id tr).1
          = {[ "video_id"%string := VStr video_id;
               "error"%string := VStr (of_string "list index out of range") ]}
      end
  | Raise e =>
      (reason_over_formatted w attempts question video_id tr).1
      = {[ "video_id"%string := VStr video_id; "error"%string := VStr (exn_msg e) ]}
  end.
Proof.
  unfold reason_over_formatted, try_catch, and_then_ok, and_then, create, ret.
  destruct (remote w tr _) as [c|e]; simpl; [|done].
  unfold first_choice. by destruct (choices c).
Qed.

(** What is saved for a result of a reasoning call. *)
Lemma saved_result_fields w attempts question video_id tr :
  let res := (reason_over_formatted w attempts question video_id tr).1 in
  res !! "video_id"%string = Some (VStr video_id) /\
  (dom (filter (fun kv : string * value => kv.1 <> "video_id"%string) res) = response_fields \/
   dom (filter (fun kv : string * value => kv.1 <> "video_id"%string) res) = error_fields).
Proof.
  destruct (reason_over_formatted_spec w attempts question video_id tr) as [_ H].
  destruct (remote w tr _) as [c|e]; [destruct (choices c) as [|ch rest]|];
    simpl; rewrite H.
  - split; [by simplify_map_eq|]. right. by rewrite strip_video_id_error, dom_error.
  - split; [by simplify_map_eq|]. left. by rewrite strip_video_id_response, dom_response.
  - split; [by simplify_map_eq|]. right. by rewrite strip_video_id_error, dom_error.
Qed.

(** One coroutine: when the attempts can be formatted, the call is made
    and a dictionary returned; otherwise the coroutine raises before
    any call. *)
Lemma reason_over_attempts_formatted w entries attempts question video_id tr :
  read_entries entries = Ok attempts ->
  reason_over_attempts w entries question video_id tr
  = (Ok (reason_over_formatted w attempts question video_id tr).1,
     tr ++ [Create (reason_request question attempts)]).
Proof.
  intros H. unfold reason_over_attempts. rewrite H. unfold and_then, ret.
  destruct (reason_over_formatted_spec w attempts question video_id tr) as [Htr _].
  destruct (reason_over_formatted w attempts question video_id tr) as [res tr1].
  cbn [fst snd] in *. by subst.
Qed.

Lemma reason_over_attempts_raises w entries e question video_id tr :
  read_entries entries = Raise e ->
  reason_over_attempts w entries question video_id tr = (Raise e, tr).
Proof. intros H. unfold reason_over_attempts. by rewrite H. Qed.

Lemma save_spec (res : gmap string value) v tr :
  res !! "video_id"%string = Some (VStr v) ->
  save res tr =
    (Ok tt,
     tr ++ [Dump (final_path v)
              (Dict (filter (fun kv : string * value => kv.1 <> "video_id"%string) res))]).
Proof. intros Hv. unfold save. by rewrite Hv. Qed.

Lemma save_all_spec (results : list (gmap string value)) tr :
  Forall (fun res => exists v, res !! "video_id"%string = Some (VStr v)) results ->
  exists dumps,
    save_all results tr = (Ok tt, tr ++ dumps) /\
    Forall2 (fun res ev =>
               exists v, res !! "video_id"%string = Some (VStr v) /\
                 ev = Dump (final_path v)
                        (Dict (filter (fun kv : string * value => kv.1 <> "video_id"%string) res)))
            results dumps.
Proof.
  intros Hall. revert tr. induction Hall as [|res results (v & Hv) _ IH]; intros tr; simpl.
  - exists []. unfold ret. rewrite app_nil_r. by split.
  - unfold and_then_ok, and_then, ret. rewrite (save_spec res v tr Hv).
    destruct (IH (tr ++ [Dump (final_path v)
                           (Dict (filter (fun kv : string * value => kv.1 <> "video_id"%string) res))]))
      as (dumps & -> & HF).
    eexists (_ :: dumps). rewrite <- app_assoc. split; [done|].
    constructor; [|done]. exists v. by split.
Qed.

(** The result gathered for a queued task. *)
Local Abbreviation is_gathered_of w :=
  (fun it res =>
     exists attempts tr_i,
       read_entries (item_attempts it) = Ok attempts /\
       res = (reason_over_formatted w attempts (item_question it)
                (item_video_id it) tr_i).1).

(** The batch, when the attempts of every task can be formatted: one
    call for each, in order. *)
Lemma process_batch_well_formed w (items : list item) tr :
  Forall well_formed items ->
  exists results calls,
    process_batch w items tr = (Ok results, tr ++ calls) /\
    Forall2 is_call_of items calls /\
    Forall2 (is_gathered_of w) items results.
Proof.
  unfold process_batch. intros H. revert tr.
  induction H as [|it items (attempts & Hit) _ IH]; intros tr.
  - exists [], []. cbn. unfold ret. rewrite app_nil_r. by split_and!.
  - cbn [for_each_ok]. unfold and_then_ok, and_then, ret.
    rewrite (reason_over_attempts_formatted _ _ _ _ _ _ Hit).
    destruct (IH (tr ++ [Create (reason_request (item_question it) attempts)]))
      as (results & calls & -> & Hc & Hr).
    eexists (_ :: results), (_ :: calls). split_and!.
    + rewrite <- app_assoc. reflexivity.
    + constructor; [|done]. by exists attempts.
    + constructor; [|done]. by exists attempts, tr.
Qed.

(** The batch, when the attempts of some task cannot be formatted: the
    tasks before it make their calls, and the batch raises. *)
Lemma process_batch_raises w (pre post : list item) (bad : item) (e : exn) tr :
  Forall well_formed pre ->
  read_entries (item_attempts bad) = Raise e ->
  exists calls,
    process_batch w (pre ++ bad :: post) tr = (Raise e, tr ++ calls) /\
    Forall2 is_call_of pre calls.
Proof.
  unfold process_batch. intros H Hbad. revert tr.
  induction H as [|it items (attempts & Hit) _ IH]; intros tr.
  - exists []. cbn [app for_each_ok]. unfold and_then_ok, and_then, ret.
    rewrite (reason_over_attempts_raises _ _ _ _ _ _ Hbad), app_nil_r. by split.
  - cbn [app for_each_ok]. unfold and_then_ok, and_then, ret.
    rewrite (reason_over_attempts_formatted _ _ _ _ _ _ Hit).
    destruct (IH (tr ++ [Create (reason_request (item_question it) attempts)]))
      as (calls & -> & Hc).
    eexists (_ :: calls). split.
    + rewrite <- app_assoc. reflexivity.
    + constructor; [|done]. by exists attempts.
Qed.

Lemma well_formed_cases (items : list item) :
  Forall well_formed items \/
  exists pre bad post e,
    items = pre ++ bad :: post /\ Forall well_formed pre /\
    read_entries (item_attempts bad) = Raise e.
Proof.
  induction items as [|it items [IH|(pre & bad & post & e & -> & Hpre & Hbad)]].
  - left. constructor.
  - destruct (read_entries (item_attempts it)) as [attempts|e] eqn:E.
    + left. constructor; [by exists attempts|done].
    + right. by exists [], it, items, e.
  - destruct (read_entries (item_attempts it)) as [attempts|e'] eqn:E.
    + right. exists (it :: pre), bad, post, e. split_and!; [done| |done].
      constructor; [by exists attempts|done].
    + right. by exists [], it, (pre ++ bad :: post), e'.
Qed.

(** The run, when the attempts of every queued task can be formatted:
    one call per queued task, then one Result per queued task. *)
Lemma main_trace w rows tr :
  Forall well_formed (gather_items w rows) ->
  exists calls dumps,
    main w rows tr = (Ok tt, tr ++ calls ++ dumps) /\
    Forall2 is_call_of (gather_items w rows) calls /\
    Forall2 (fun it ev =>
               exists attempts tr_i,
                 read_entries (item_attempts it) = Ok attempts /\
                 ev = Dump (final_path (item_video_id it))
                        (Dict (filter (fun kv : string * value => kv.1 <> "video_id"%string)
                                 (reason_over_formatted w attempts (item_question it)
                                    (item_video_id it) tr_i).1)))
            (gather_items w rows) dumps.
Proof.
  intros Hwf. unfold main, and_then_ok, and_then.
  destruct (process_batch_well_formed w (gather_items w rows) tr Hwf)
    as (results & calls & -> & Hc & Hr).
  destruct (save_all_spec results (tr ++ calls)) as (dumps & -> & HD).
  { clear -Hr. induction Hr as [|it res items results (attempts & tr_i & _ & ->) _ IH];
      constructor; [|done].
    exists (item_video_id it). apply saved_result_fields. }
  exists calls, dumps. rewrite <- app_assoc. split_and!; [done|done|].
  clear -Hr HD. revert dumps HD.
  induction Hr as [|it res items results (attempts & tr_i & Hit & ->) _ IH]; intros dumps HD.
  - inversion HD. constructor.
  - inversion HD as [|? ev ? dumps' (v & Hv & ->) HD']; subst.
    constructor; [|by apply IH].
    exists attempts, tr_i. split; [done|].
    destruct (saved_result_fields w attempts (item_question it)
                (item_video_id it) tr_i) as [Hv' _].
    simpl in Hv'. rewrite Hv' in Hv. by injection Hv as <-.
Qed.

(** The run, when the attempts of some queued task cannot be formatted:
    it raises, and no Result is written. *)
Lemma main_raises w rows (pre post : list item) (bad : item) (e : exn) tr :
  gather_items w rows = pre ++ bad :: post ->
  Forall well_formed pre ->
  read_entries (item_attempts bad) = Raise e ->
  exists calls,
    main w rows tr = (Raise e, tr ++ calls) /\ Forall2 is_call_of pre calls.
Proof.
  intros Hitems Hpre Hbad. unfold main, and_then_ok, and_then, ret. rewrite Hitems.
  destruct (process_batch_raises w pre post bad e tr Hpre Hbad) as (calls & -> & Hc).
  by exists calls.
Qed.

End preview_facts.

Section preview_claims.
Import Py Run ThreeTimesPreview.

Implicit Types (w : world) (tr : list event) (r : row) (it : item).


(** The text of an attempt without raw text. *)
Lemma attempt_text_failed (a : attempt) :
  failed a = true ->
  attempt_text a =
    [10%N] ++ of_string "Attempt " ++ str_of_int (attempt_number a) ++ of_string ":"
    ++ [10%N] ++ of_string "None" ++ [10%N].
Proof.
  unfold failed, attempt_text. by destruct (answer a).
Qed.

(** The run of the sample world on video 00001. *)
Lemma preview_sample_run :
  main sample_world [Row (of_string "00001") (of_string "What next?")] [] =
    (Ok tt,
     [Create (reason_request (of_string "What next?")
                [failed_attempt 1; failed_attempt 2; failed_attempt 3]);
      Dump (final_path (of_string "00001"))
        (Dict {[ "answer"%string := VStr (of_string "<answer>A</answer>");
                 "finish_reason"%string := VStr (of_string "stop") ]})]).
Proof.
  unfold main, and_then_ok, and_then. simpl.
  unfold save_all, save, and_then_ok, and_then, emit, ret, final_path.
  rewrite lookup_insert_eq. simpl. rewrite strip_video_id_response. reflexivity.
Qed.

(** A run over a file whose attempts are not dictionaries: video 00001
    is queued and its call is made, video 00003 is queued as well, and
    formatting its attempts raises; the run ends there, without a
    Result for either. *)
Lemma preview_broken_run :
  main broken_world [Row (of_string "00001") (of_string "What next?");
                     Row (of_string "00003") (of_string "And then?")] [] =
    (Raise (Exn TypeError (of_string "object is not subscriptable")),
     [Create (reason_request (of_string "What next?")
                [good_attempt 1 "<answer>A</answer>"])]).
Proof. reflexivity. Qed.




(** A task whose attempts all failed has a stored list that is not
    empty, and is treated like any other queued task: each attempt
    appears in the prompt under its number as the text None, the call
    is made, and the Result holds the call's answer or its error. *)
Lemma all_failed_task_is_reasoned w (rows : list row) tr r a l :
  Forall well_formed (gather_items w rows) ->
  r ∈ rows -> initial_answers w (id r) = Description (Some (map Complete (a :: l))) ->
  Forall (fun x => failed x = true) (a :: l) ->
  content_prompt (question r) (a :: l) =
    prompt_head ++ question r ++ prompt_mid
    ++ flat_map (fun x => [10%N] ++ of_string "Attempt " ++ str_of_int (attempt_number x)
                          ++ of_string ":" ++ [10%N] ++ of_string "None" ++ [10%N])
                (a :: l)
    ++ prompt_tail /\
  Create (reason_request (question r) (a :: l)) ∈ (main w rows tr).2 /\
  exists tr_i d,
    Dump (final_path (id r)) (Dict d) ∈ (main w rows tr).2 /\
    match remote w tr_i (reason_request (question r) (a :: l)) with
    | Ok c =>
        match choices c with
        | ch :: _ => d = {[ "answer"%string := message_content ch;
                            "finish_reason"%string := choice_finish_reason ch ]}
        | [] => d = {[ "error"%string := VStr (of_string "list index out of range") ]}
        end
    | Raise e => d = {[ "error"%string := VStr (exn_msg e) ]}
    end.
Proof.
  intros Hwf Hr E Hfail.
  destruct (main_trace w rows tr Hwf) as (calls & dumps & Hmain & Hc & Hd).
  rewrite Hmain. cbn [snd].
  assert (Item (id r) (map Complete (a :: l)) (question r) ∈ gather_items w rows) as Hit.
  { apply elem_of_gather_items. exists r, (Complete a), (map Complete l). by split_and!. }
  split_and!.
  - unfold content_prompt. rewrite format_attempts_flat. do 3 f_equal.
    f_equal. clear -Hfail. induction Hfail as [|x xs Hx _ IH]; [done|].
    cbn [flat_map]. by rewrite IH, (attempt_text_failed x Hx).
  - apply list_elem_of_lookup in Hit as [i Hi].
    destruct (Forall2_lookup_l _ _ _ _ _ Hc Hi) as (ev & Hev & attempts & Hread & ->).
    cbn [item_attempts item_question] in Hread |- *.
    rewrite read_entries_complete in Hread. injection Hread as <-.
    apply elem_of_app. right. apply elem_of_app. left.
    apply list_elem_of_lookup. eauto.
  - apply list_elem_of_lookup in Hit as [i Hi].
    destruct (Forall2_lookup_l _ _ _ _ _ Hd Hi) as (ev & Hev & attempts & tr_i & Hread & ->).
    cbn [item_video_id item_attempts item_question] in Hread, Hev.
    rewrite read_entries_complete in Hread. injection Hread as <-.
    exists tr_i. eexists. split.
    { apply elem_of_app. right. apply elem_of_app. right.
      apply list_elem_of_lookup. eauto. }
    destruct (reason_over_formatted_spec w (a :: l) (question r) (id r) tr_i) as [_ H].
    destruct (remote w tr_i _) as [c|e]; [destruct (choices c) as [|ch rest]|];
      rewrite H.
    + by rewrite strip_video_id_error.
    + by rewrite strip_video_id_response.
    + by rewrite strip_video_id_error.
Qed.

(** C4, as the specification states it, fails: the second of these
    three attempts failed, yet the prompt is not the prompt of the two
    successful ones, and it holds the failed attempt's number followed
    by the text None. *)
Lemma C4_counterexample :
  failed (failed_attempt 2) = true /\
  content_prompt (of_string "What next?")
    [good_attempt 1 "<answer>A</answer>"; failed_attempt 2;
     good_attempt 3 "<answer>B</answer>"]
  <> content_prompt (of_string "What next?")
       (filter (fun a => successful a = true)
          [good_attempt 1 "<answer>A</answer>"; failed_attempt 2;
           good_attempt 3 "<answer>B</answer>"]) /\
  content_prompt (of_string "What next?")
    [good_attempt 1 "<answer>A</answer>"; failed_attempt 2;
     good_attempt 3 "<answer>B</answer>"]
  = (prompt_head ++ of_string "What next?" ++ prompt_mid
     ++ attempt_text (good_attempt 1 "<answer>A</answer>"))
    ++ ([10%N] ++ of_string "Attempt 2:" ++ [10%N] ++ of_string "None" ++ [10%N])
    ++ (attempt_text (good_attempt 3 "<answer>B</answer>") ++ prompt_tail).
Proof.
  split_and!; [reflexivity| |vm_compute; reflexivity].
  intros H. apply (f_equal length) in H. vm_compute in H. discriminate.
Qed.

(** C4 (amended): the prompt holds, between fixed texts, one block per
    stored attempt, in the order of the list; the block of an attempt
    gives its number and then its raw text verbatim; the block of a
    failed attempt gives its number and then the text None. *)
Theorem C4_prompt_holds_every_attempt (question : str) (attempts : list attempt) :
  content_prompt question attempts =
    prompt_head ++ question ++ prompt_mid ++ flat_map attempt_text attempts
    ++ prompt_tail /\
  (forall i a, attempts !! i = Some a ->
     content_prompt question attempts =
       prompt_head ++ question ++ prompt_mid
       ++ format_attempts (take i attempts) ++ attempt_text a
       ++ format_attempts (drop (S i) attempts) ++ prompt_tail) /\
  (forall a text, answer a = VStr text ->
     attempt_text a =
       [10%N] ++ of_string "Attempt " ++ str_of_int (attempt_number a) ++ of_string ":"
       ++ [10%N] ++ text ++ [10%N]) /\
  (forall a, answer a = VNone ->
     attempt_text a =
       [10%N] ++ of_string "Attempt " ++ str_of_int (attempt_number a) ++ of_string ":"
       ++ [10%N] ++ of_string "None" ++ [10%N]).
Proof.
  split_and!.
  - unfold content_prompt. by rewrite format_attempts_flat.
  - intros i a Hi. unfold content_prompt. rewrite !format_attempts_flat.
    rewrite <- (take_drop_middle attempts i a Hi) at 1.
    rewrite flat_map_app. cbn [flat_map]. by rewrite <- !app_assoc.
  - intros a text H. unfold attempt_text. by rewrite H.
  - intros a H. unfold attempt_text. by rewrite H.
Qed.

Lemma C4_prompt_holds_every_attempt_witness :
  attempt_text (good_attempt 3 "<answer>B</answer>") =
    [10%N] ++ of_string "Attempt " ++ str_of_int 3 ++ of_string ":"
    ++ [10%N] ++ of_string "<answer>B</answer>" ++ [10%N].
Proof.
  apply (proj1 (proj2 (proj2 (C4_prompt_holds_every_attempt [] [])))
           (good_attempt 3 "<answer>B</answer>") (of_string "<answer>B</answer>")).
  reflexivity.
Defined.

End preview_claims.

Section description_facts.
Import Py Run Reasoner.

Implicit Types (w : world) (tr : list event) (r : row) (it : item).

Lemma reason_over_description_spec w description question video_id tr :
  (reason_over_description w description question video_id tr).2
    = tr ++ [Create (Request "o1-preview" (Plain (content_prompt question description))
                       None None None)] /\
  ((exists a b,
      (reason_over_description w description question video_id tr).1
      = {[ "video_id"%string := VStr video_id; "answer"%string := a;
           "finish_reason"%string := b ]}) \/
   (exists m,
      (reason_over_description w description question video_id tr).1
      = {[ "video_id"%string := VStr video_id; "error"%string := m ]})).
Proof.
  unfold reason_over_description, try_catch, and_then_ok, and_then, create, ret.
  destruct (remote w tr _) as [c|e]; simpl; [|by eauto].
  unfold first_choice. destruct (choices c); simpl; eauto.
Qed.

Lemma saved_description_fields w description question video_id tr :
  let res := (reason_over_description w description question video_id tr).1 in
  res !! "video_id"%string = Some (VStr video_id) /\
  (dom (filter (fun kv : string * value => kv.1 <> "video_id"%string) res) = response_fields \/
   dom (filter (fun kv : string * value => kv.1 <> "video_id"%string) res) = error_fields).
Proof.
  destruct (reason_over_description_spec w description question video_id tr)
    as [_ [(a & b & H)|(m & H)]]; simpl; rewrite H.
  - split; [by simplify_map_eq|]. left. by rewrite strip_video_id_response, dom_response.
  - split; [by simplify_map_eq|]. right. by rewrite strip_video_id_error, dom_error.
Qed.

Lemma description_save_all_spec (results : list (gmap string value)) tr :
  Forall (fun res => exists v, res !! "video_id"%string = Some (VStr v)) results ->
  save_all results tr =
    (Ok tt,
     tr ++ flat_map (fun res =>
              match res !! "video_id"%string with
              | Some (VStr v) =>
                  [Dump (final_path v)
                     (Dict (filter (fun kv : string * value => kv.1 <> "video_id"%string) res))]
              | _ => []
              end) results).
Proof.
  intros Hall. revert tr. induction Hall as [|res results (v & Hv) _ IH]; intros tr; simpl.
  - unfold ret. by rewrite app_nil_r.
  - unfold and_then_ok, and_then, save, emit, ret. rewrite Hv. simpl.
    rewrite IH. by rewrite <- app_assoc.
Qed.

(** The events of a run of reasoner.py: the calls, then the Results. *)
Lemma description_main_trace w rows tr :
  exists results,
    main w rows tr =
      (Ok tt,
       tr ++ map (fun it => Create (Request "o1-preview"
                                      (Plain (content_prompt (item_question it)
                                                (item_description it)))
                                      None None None))
                 (gather_items w rows)
          ++ flat_map (fun res =>
               match res !! "video_id"%string with
               | Some (VStr v) =>
                   [Dump (final_path v)
                      (Dict (filter (fun kv : string * value => kv.1 <> "video_id"%string) res))]
               | _ => []
               end) results) /\
    Forall2 (fun it res =>
               exists tr_i,
                 res = (reason_over_description w (item_description it) (item_question it)
                          (item_video_id it) tr_i).1)
            (gather_items w rows) results.
Proof.
  unfold main, and_then, process_batch.
  destruct (for_each _ (gather_items w rows) tr) as [results tr1] eqn:E.
  pose proof (for_each_Forall2 _ _ _ _ _ E) as HF. simpl in HF.
  exists results. split; [|done].
  pose proof (for_each_trace
                (fun it => reason_over_description w (item_description it)
                             (item_question it) (item_video_id it))
                (fun it => [Create (Request "o1-preview"
                                      (Plain (content_prompt (item_question it)
                                                (item_description it)))
                                      None None None)])
                (gather_items w rows) tr
                (fun it tr0 => proj1 (reason_over_description_spec w (item_description it)
                                        (item_question it) (item_video_id it) tr0))) as Htr.
  rewrite E in Htr. simpl in Htr. rewrite Htr, flat_map_singleton.
  rewrite description_save_all_spec; [by rewrite <- app_assoc|].
  clear -HF. induction HF as [|it res items results (tr_i & ->) _ IH]; constructor; [|done].
  exists (item_video_id it). apply saved_description_fields.
Qed.

End description_facts.

Section result_record_claims.
Import Py Run.

(** C10: every Result the two reasoning scripts write is a dictionary
    whose keys are either [answer] and [finish_reason], or [error]
    alone: never both kinds, and never [video_id], which only names the
    file.  (A run of three_times_preview.py that raises has written no
    Result.) *)
Theorem C10_saved_result_fields :
  (forall (w : Reasoner.world) (rows : list row) (tr : list event),
     exists evs,
       Reasoner.main w rows tr = (Ok tt, tr ++ evs) /\
       forall path doc, Dump path doc ∈ evs ->
         exists d,
           doc = Dict d /\
           (dom d = {[ "answer"%string; "finish_reason"%string ]} \/
            dom d = {[ "error"%string ]}) /\
           d !! "video_id"%string = None /\
           ~ (is_Some (d !! "answer"%string) /\ is_Some (d !! "error"%string))) /\
  (forall (w : ThreeTimesPreview.world) (rows : list row) (tr : list event),
     exists result evs,
       ThreeTimesPreview.main w rows tr = (result, tr ++ evs) /\
       forall path doc, Dump path doc ∈ evs ->
         exists d,
           doc = Dict d /\
           (dom d = {[ "answer"%string; "finish_reason"%string ]} \/
            dom d = {[ "error"%string ]}) /\
           d !! "video_id"%string = None /\
           ~ (is_Some (d !! "answer"%string) /\ is_Some (d !! "error"%string))).
Proof.
  assert (forall d : gmap string value,
            dom d = response_fields \/ dom d = error_fields ->
            (dom d = {[ "answer"%string; "finish_reason"%string ]} \/
             dom d = {[ "error"%string ]}) /\
            d !! "video_id"%string = None /\
            ~ (is_Some (d !! "answer"%string) /\ is_Some (d !! "error"%string))) as Hshape.
  { intros d Hd. split; [done|]. split.
    - apply not_elem_of_dom. destruct video_id_not_field as [H1 H2].
      destruct Hd as [-> | ->]; done.
    - intros [Ha He]. apply elem_of_dom in Ha, He.
      destruct Hd as [Hd|Hd]; rewrite Hd in *.
      + apply elem_of_union in He as [He|He]; by apply elem_of_singleton in He.
      + by apply elem_of_singleton in Ha. }
  split.
  - intros w rows tr.
    destruct (description_main_trace w rows tr) as (results & Hmain & HF).
    eexists. split; [exact Hmain|].
    intros path doc [Hin|Hin]%elem_of_app.
    { apply list_elem_of_fmap in Hin as (it & [=] & _). }
    apply list_elem_of_In, in_flat_map in Hin as (res & Hres & Hin).
    apply list_elem_of_In, list_elem_of_lookup in Hres as [i Hi].
    destruct (Forall2_lookup_r _ _ _ _ _ HF Hi) as (it & _ & tr_i & ->).
    destruct (saved_description_fields w (Reasoner.item_description it)
                (Reasoner.item_question it) (Reasoner.item_video_id it) tr_i)
      as [Hv Hd]. simpl in Hv, Hd.
    rewrite Hv in Hin. destruct Hin as [[= <- <-]|[]].
    eexists. split; [done|]. by apply Hshape.
  - intros w rows tr.
    assert (forall called calls,
              Forall2 ThreeTimesPreview.is_call_of called calls ->
              forall path doc, Dump path doc ∉ calls) as Hnodump.
    { intros called calls HF path doc (i & Hi)%list_elem_of_lookup.
      destruct (Forall2_lookup_r _ _ _ _ _ HF Hi) as (it & _ & attempts & _ & [=]). }
    destruct (well_formed_cases (ThreeTimesPreview.gather_items w rows))
      as [Hwf|(pre & bad & post & e & Hitems & Hpre & Hbad)].
    + destruct (main_trace w rows tr Hwf) as (calls & dumps & Hmain & Hc & HF).
      eexists _, _. split; [exact Hmain|].
      intros path doc [Hin|Hin]%elem_of_app; [by apply (Hnodump _ _ Hc) in Hin|].
      apply list_elem_of_lookup in Hin as [i Hi].
      destruct (Forall2_lookup_r _ _ _ _ _ HF Hi)
        as (it & _ & attempts & tr_i & _ & [= -> ->]).
      eexists. split; [done|]. apply Hshape.
      apply (saved_result_fields w attempts
               (ThreeTimesPreview.item_question it) (ThreeTimesPreview.item_video_id it) tr_i).
    + destruct (main_raises w rows pre post bad e tr Hitems Hpre Hbad)
        as (calls & Hmain & Hc).
      eexists _, _. split; [exact Hmain|].
      intros path doc Hin. by apply (Hnodump _ _ Hc) in Hin.
Qed.

End result_record_claims.

Section result_record_witness.
Import Py Run ThreeTimesPreview.

Lemma C10_saved_result_fields_witness :
  exists d : gmap string value,
    Dict {[ "answer"%string := VStr (of_string "<answer>A</answer>");
            "finish_reason"%string := VStr (of_string "stop") ]} = Dict d /\
    (dom d = {[ "answer"%string; "finish_reason"%string ]} \/
     dom d = {[ "error"%string ]}) /\
    d !! "video_id"%string = None /\
    ~ (is_Some (d !! "answer"%string) /\ is_Some (d !! "error"%string)).
Proof.
  destruct (proj2 C10_saved_result_fields sample_world
              [Row (of_string "00001") (of_string "What next?")] [])
    as (result & evs & Hmain & H).
  rewrite preview_sample_run in Hmain. injection Hmain as _ <-.
  apply (H (final_path (of_string "00001"))).
  apply list_elem_of_In. simpl. tauto.
Defined.

End result_record_witness.

(* ===================================================================== *)
(** * The backfill run                                                    *)
(* ===================================================================== *)

Section backfill_facts.
Import Py Run FillGaps.

Implicit Types (w : world) (tr : list event) (r : row) (ids : option (gset str)).

Lemma no_create_in_reads (evs : list event) :
  Forall (fun e => exists p, e = ReadImage p) evs ->
  filter (fun e => is_create e = true) evs = [].
Proof.
  induction 1 as [|e evs (p & ->) _ IH]; [done|].
  by rewrite filter_cons_False.
Qed.

(** An id outside the allow-list is answered at once: no frame is
    listed, no call is made. *)
Lemma process_question_excluded w ids video_id question tr :
  excluded ids video_id = true ->
  process_question w ids video_id question tr = (∅, tr).
Proof.
  intros H. unfold process_question, try_catch, and_then, ret. by rewrite H.
Qed.

(** For an id of the allow-list: the frames are listed, then read, and
    at most one call is made. *)
Lemma process_question_allowed w ids video_id question tr :
  excluded ids video_id = false ->
  exists evs,
    (process_question w ids video_id question tr).2 = tr ++ Glob video_id :: evs /\
    Forall (event_about video_id) evs /\
    (length (filter (fun e => is_create e = true) evs) <= 1)%nat.
Proof.
  intros H. unfold process_question, try_catch, and_then_ok, and_then, ret.
  rewrite H. unfold get_frame_paths, and_then, emit, ret. simpl.
  case_bool_decide.
  { exists []. simpl. split_and!; [done|constructor|lia]. }
  destruct (add_frames w (frames w video_id) _ (tr ++ [Glob video_id]))
    as [[content|e] tr1] eqn:E;
    apply add_frames_events in E as (evs & -> & Hreads); simpl.
  - unfold create. destruct (remote w _ _) as [c|e]; simpl;
      rewrite <- !app_assoc; simpl;
      (eexists; split; [reflexivity|]); (split;
        [ apply Forall_app; split; [|by repeat constructor];
          eapply Forall_impl; [exact Hreads|]; by intros ? (p & ->)
        | rewrite filter_app, (no_create_in_reads _ Hreads); simpl; lia ]).
  - rewrite <- app_assoc. simpl. exists evs. split_and!; [done| |].
    + eapply Forall_impl; [exact Hreads|]. by intros ? (p & ->).
    + rewrite (no_create_in_reads _ Hreads). simpl. lia.
Qed.

(** One row of the CSV. *)
Lemma process_row_spec w ids r tr :
  exists evs,
    process_row w ids r tr = (tt, tr ++ evs) /\
    (excluded ids (id r) = true -> evs = []) /\
    Forall (event_about (id r)) evs /\
    (length (filter (fun e => is_create e = true) evs) <= 1)%nat.
Proof.
  unfold process_row. destruct (excluded ids (id r)) eqn:Hex.
  - exists []. unfold ret. rewrite app_nil_r. split_and!; [done|done|constructor|simpl;lia].
  - destruct (process_question_allowed w ids (id r) (question r) tr Hex)
      as (evs & Htr & Hall & Hlen).
    unfold and_then. destruct (process_question w ids (id r) (question r) tr)
      as [res tr1]. simpl in Htr. subst tr1.
    case_bool_decide.
    + exists (Glob (id r) :: evs). unfold ret. split_and!; [done|done| |].
      * by constructor.
      * by rewrite filter_cons_False.
    + exists (Glob (id r) :: evs ++ [Dump (result_path (id r)) (Dict res)]).
      unfold emit. split_and!.
      * by rewrite <- app_assoc.
      * done.
      * constructor; [done|]. apply Forall_app. split; [done|]. by repeat constructor.
      * rewrite filter_cons_False by done. rewrite filter_app. simpl.
        rewrite length_app. simpl. lia.
Qed.

End backfill_facts.

Section backfill_claims.
Import Py Run FillGaps.

Implicit Types (w : world) (tr : list event) (r : row) (ids : option (gset str)).

(** Rows outside the allow-list leave no trace: the run is the run over
    the allowed rows. *)
Lemma run_skips_excluded w ids rows tr :
  run w ids rows tr
  = run w ids (filter (fun r => excluded ids (id r) = false) rows) tr.
Proof.
  revert tr. induction rows as [|r rows IH]; intros tr; [done|].
  destruct (excluded ids (id r)) eqn:Hex.
  - rewrite filter_cons_False by congruence. simpl. unfold and_then.
    destruct (process_row_spec w ids r tr) as (evs & -> & Hnil & _).
    rewrite (Hnil Hex), app_nil_r. apply IH.
  - rewrite filter_cons_True by done. simpl. unfold and_then.
    destruct (process_row w ids r tr) as [[] tr1]. apply IH.
Qed.

(** Every event of the run is about an allowed row, and there is at
    most one call per allowed row. *)
Lemma run_spec w ids rows tr :
  exists evs,
    run w ids rows tr = (tt, tr ++ evs) /\
    Forall (fun e => exists r, r ∈ rows /\ excluded ids (id r) = false /\
                       event_about (id r) e) evs /\
    (length (filter (fun e => is_create e = true) evs)
     <= length (filter (fun r => excluded ids (id r) = false) rows))%nat.
Proof.
  revert tr. induction rows as [|r rows IH]; intros tr; simpl.
  - exists []. unfold ret. rewrite app_nil_r. split_and!; [done|constructor|simpl; lia].
  - unfold and_then.
    destruct (process_row_spec w ids r tr) as (evs1 & -> & Hnil & Hab & Hlen1).
    destruct (IH (tr ++ evs1)) as (evs2 & -> & Hall2 & Hlen2).
    exists (evs1 ++ evs2). rewrite <- app_assoc. split; [done|].
    destruct (excluded ids (id r)) eqn:Hex.
    + rewrite (Hnil eq_refl) in *. simpl. split.
      * eapply Forall_impl; [exact Hall2|]. intros e (r' & Hr' & H).
        exists r'. split; [by apply list_elem_of_further|done].
      * by rewrite filter_cons_False by congruence.
    + split.
      * apply Forall_app. split.
        -- eapply Forall_impl; [exact Hab|]. intros e He.
           exists r. split; [by apply list_elem_of_here|done].
        -- eapply Forall_impl; [exact Hall2|]. intros e (r' & Hr' & H).
           exists r'. split; [by apply list_elem_of_further|done].
      * rewrite filter_app, length_app, filter_cons_True by done. simpl. lia.
Qed.

Lemma excluded_allow (allow : gset str) (video_id : str) :
  excluded (Some allow) video_id = false <-> video_id ∈ allow.
Proof.
  unfold excluded. rewrite bool_decide_eq_false. split; [|tauto].
  intros H. by destruct (decide (video_id ∈ allow)).
Qed.

Lemma allowed_rows (allow : gset str) (rows : list row) :
  filter (fun r => excluded (Some allow) (id r) = false) rows
  = filter (fun r => id r ∈ allow) rows.
Proof. apply list_filter_iff. intros r. apply excluded_allow. Qed.

(** C8: in a backfill run restricted to an allow-list, a question
    outside the list is answered at once without listing a frame or
    calling the endpoint; the run is the run over the allowed rows
    alone; every listing of frames and every Result written is for an
    allowed id; there is at most one remote call per allowed row; and
    when no row is allowed nothing happens at all.  [main], whose
    allow-list holds 00023 alone, runs as if the CSV held no other id. *)
Theorem C8_backfill_stays_in_allow_list w (allow : gset str) (rows : list row) tr :
  (forall video_id question tr0,
     video_id ∉ allow ->
     process_question w (Some allow) video_id question tr0 = (∅, tr0)) /\
  run w (Some allow) rows tr
    = run w (Some allow) (filter (fun r => id r ∈ allow) rows) tr /\
  exists evs,
    run w (Some allow) rows tr = (tt, tr ++ evs) /\
    (forall video_id, Glob video_id ∈ evs -> video_id ∈ allow) /\
    (forall path doc, Dump path doc ∈ evs ->
       exists video_id, video_id ∈ allow /\ path = result_path video_id) /\
    (length (filter (fun e => is_create e = true) evs)
     <= length (filter (fun r => id r ∈ allow) rows))%nat /\
    ((forall r, r ∈ rows -> id r ∉ allow) -> evs = []) /\
    main w rows tr = main w (filter (fun r => id r = of_string "00023") rows) tr.
Proof.
  split_and!.
  - intros video_id question tr0 H. apply process_question_excluded.
    simpl. by apply bool_decide_eq_true.
  - by rewrite run_skips_excluded, allowed_rows.
  - destruct (run_spec w (Some allow) rows tr) as (evs & Hrun & Hall & Hlen).
    exists evs. split; [done|]. rewrite Forall_forall in Hall. split_and!.
    + intros v Hv. destruct (Hall _ Hv) as (r & _ & Hex & Hab).
      simpl in Hab. subst v. by apply excluded_allow.
    + intros path doc Hd. destruct (Hall _ Hd) as (r & _ & Hex & Hab).
      simpl in Hab. exists (id r). split; [by apply excluded_allow|done].
    + by rewrite <- allowed_rows.
    + intros Hnone. rewrite run_skips_excluded, allowed_rows in Hrun.
      assert (filter (fun r => id r ∈ allow) rows = []) as Hnil.
      { clear -Hnone. induction rows as [|r rows IH]; [done|].
        rewrite filter_cons_False by (apply Hnone, list_elem_of_here).
        apply IH. intros r' Hr'. by apply Hnone, list_elem_of_further. }
      rewrite Hnil in Hrun. simpl in Hrun. unfold ret in Hrun.
      injection Hrun as Hrun. rewrite <- (app_nil_r tr) in Hrun at 1.
      by apply app_inv_head in Hrun.
    + unfold main. rewrite run_skips_excluded, allowed_rows.
      f_equal. apply list_filter_iff. intros r. apply elem_of_singleton.
Qed.

Lemma C8_backfill_stays_in_allow_list_witness :
  process_question ThreeTimes.sample_world (Some sample_allow)
    (of_string "00005") (of_string "Is the light red?") [] = (∅, []).
Proof.
  apply (proj1 (C8_backfill_stays_in_allow_list ThreeTimes.sample_world sample_allow
                  sample_rows [])).
  apply (bool_decide_unpack _). vm_compute. exact I.
Defined.

End backfill_claims.

(* ===================================================================== *)
(** * The Bounded Dispatcher: at most K calls in flight                   *)
(* ===================================================================== *)

Section dispatcher_facts.
Import Dispatcher.

Implicit Types (s : state) (l : list phase) (p : phase) (i : nat).

Local Open Scope nat_scope.

Lemma count_insert (f : phase -> bool) l i p p' :
  l !! i = Some p ->
  count f (<[i := p']> l) + (if f p then 1 else 0)
  = count f l + (if f p' then 1 else 0).
Proof.
  revert i. induction l as [|x l IH]; intros i Hi; [done|].
  destruct i as [|i]; simpl in *.
  - injection Hi as ->. lia.
  - specialize (IH i Hi). lia.
Qed.

Lemma rank_insert l i p p' :
  l !! i = Some p ->
  foldr (fun q acc => rank q + acc) 0 (<[i := p']> l) + rank p
  = foldr (fun q acc => rank q + acc) 0 l + rank p'.
Proof.
  revert i. induction l as [|x l IH]; intros i Hi; [done|].
  destruct i as [|i]; simpl in *.
  - injection Hi as ->. lia.
  - specialize (IH i Hi). lia.
Qed.

Lemma count_replicate_submitted (f : phase -> bool) n :
  f Submitted = false -> count f (replicate n Submitted) = 0.
Proof. intros H. induction n as [|n IH]; simpl; [done|]. by rewrite H. Qed.

Lemma in_flight_le_slots l : count is_in_flight l <= count has_slot l.
Proof.
  induction l as [|p l IH]; simpl; [done|]. destruct p; simpl; lia.
Qed.

Lemma count_pos (f : phase -> bool) l :
  0 < count f l -> exists i p, l !! i = Some p /\ f p = true.
Proof.
  induction l as [|x l IH]; simpl; [lia|].
  destruct (f x) eqn:E.
  - intros _. by exists 0, x.
  - intros H. destruct IH as (i & p & Hi & Hp); [lia|]. by exists (S i), p.
Qed.

(** Every step keeps the slots accounted for and the coroutines in
    place, and brings the run closer to its end. *)
Lemma step_preserves K i s s' :
  step i s s' ->
  value s + count has_slot (phases s) = K ->
  value s' + count has_slot (phases s') = K /\
  length (phases s') = length (phases s) /\
  remaining s' < remaining s.
Proof.
  intros Hstep Hinv. unfold remaining.
  destruct Hstep as [s [Hp|Hp] Hv|s Hp _|s Hp|s Hp|s Hp]; simpl; unfold set_phase;
    rewrite length_insert;
    pose proof (count_insert has_slot _ _ _ Holding Hp) as H1;
    pose proof (count_insert has_slot _ _ _ Waiting Hp) as H2;
    pose proof (count_insert has_slot _ _ _ InFlight Hp) as H3;
    pose proof (count_insert has_slot _ _ _ Returned Hp) as H4;
    pose proof (count_insert has_slot _ _ _ Done Hp) as H5;
    pose proof (rank_insert _ _ _ Holding Hp) as R1;
    pose proof (rank_insert _ _ _ Waiting Hp) as R2;
    pose proof (rank_insert _ _ _ InFlight Hp) as R3;
    pose proof (rank_insert _ _ _ Returned Hp) as R4;
    pose proof (rank_insert _ _ _ Done Hp) as R5;
    simpl in *; lia.
Qed.

Lemma count_app (f : phase -> bool) l l' : count f (l ++ l') = count f l + count f l'.
Proof. induction l as [|p l IH]; simpl; [done|]. rewrite IH. lia. Qed.

Lemma reachable_invariant K n s :
  rtc run_step (init K n) s ->
  value s + count has_slot (phases s) = K /\ n <= length (phases s).
Proof.
  revert s. apply (rtc_ind_r (fun s => value s + count has_slot (phases s) = K /\
                                       n <= length (phases s))).
  - simpl. rewrite count_replicate_submitted by done. rewrite length_replicate. lia.
  - intros s s' _ Hstep (Hinv & Hlen). destruct Hstep as [s s' (i & Hstep)|s].
    + destruct (step_preserves K i s s' Hstep Hinv) as (? & ? & _). split; [done|lia].
    + simpl. rewrite count_app, length_app. simpl. lia.
Qed.

End dispatcher_facts.

Section dispatcher_claims.
Import Dispatcher.

Local Open Scope nat_scope.

(** C9: for a cap K of at least 1 and any number of coroutines,
    submitted together or one after the other, in every state the
    interleaved execution can reach, at most K calls are in flight (the
    counter of the semaphore plus the coroutines inside the block
    always make K); no coroutine is lost; a coroutine that arrives when
    no slot is free can only be suspended, and a suspended coroutine
    stays suspended until it takes a slot; while some coroutine has not
    finished some coroutine can move; and every move of a coroutine
    brings the run closer to its end. *)
Theorem C9_at_most_K_in_flight (K n : nat) (s : state) :
  1 <= K ->
  rtc run_step (init K n) s ->
  in_flight s <= K /\
  value s + count has_slot (phases s) = K /\
  n <= length (phases s) /\
  (forall s', run_step s s' -> length (phases s) <= length (phases s')) /\
  (forall i s', phases s !! i = Some Submitted -> value s = 0 -> step i s s' ->
     phases s' !! i = Some Waiting) /\
  (forall i j s', phases s !! i = Some Waiting -> step j s s' ->
     phases s' !! i = Some Waiting \/ (j = i /\ phases s' !! i = Some Holding)) /\
  ((exists i p, phases s !! i = Some p /\ p <> Done) -> exists s', next s s') /\
  (forall s', next s s' -> remaining s' < remaining s).
Proof.
  intros HK Hreach.
  destruct (reachable_invariant K n s Hreach) as [Hinv Hlen].
  split_and!; [|done|done|..].
  - unfold in_flight. pose proof (in_flight_le_slots (phases s)). lia.
  - intros s' Hrs. destruct Hrs as [s s' (i & Hstep)|s].
    + destruct (step_preserves _ i s s' Hstep eq_refl) as (_ & ? & _). lia.
    + simpl. rewrite length_app. lia.
  - intros i s' Hp Hv Hstep.
    assert (i < length (phases s)) as Hi by (by eapply lookup_lt_Some).
    inversion Hstep; subst; simpl; unfold set_phase; try congruence; try lia.
    by apply list_lookup_insert_eq.
  - intros i j s' Hp Hstep.
    assert (i < length (phases s)) as Hi by (by eapply lookup_lt_Some).
    destruct (decide (j = i)) as [->|Hne].
    + inversion Hstep as [s0 [Hq|Hq] Hv|s0 Hq _|s0 Hq|s0 Hq|s0 Hq];
        subst; try congruence.
      right. split; [done|]. simpl. unfold set_phase. by apply list_lookup_insert_eq.
    + left. inversion Hstep; subst; simpl; unfold set_phase;
        by rewrite list_lookup_insert_ne.
  - intros (i & p & Hp & Hnd).
    assert (forall j q, phases s !! j = Some q -> has_slot q = true ->
              exists s', next s s') as Hslot.
    { intros j q Hq Hs. destruct q; try done.
      - eexists. exists j. by apply step_issue.
      - eexists. exists j. by apply step_complete.
      - eexists. exists j. by apply step_release. }
    destruct p; try done.
    + destruct (value s) as [|v] eqn:Hv.
      * eexists. exists i. apply step_suspend; [done|]. by left.
      * eexists. exists i. apply step_acquire; [by left|lia].
    + destruct (value s) as [|v] eqn:Hv.
      * destruct (count_pos has_slot (phases s)) as (j & q & Hq & Hs); [lia|].
        by apply (Hslot j q).
      * eexists. exists i. apply step_acquire; [by right|lia].
    + by apply (Hslot i Holding).
    + by apply (Hslot i InFlight).
    + by apply (Hslot i Returned).
  - intros s' (i & Hstep). by destruct (step_preserves K i s s' Hstep Hinv) as (_ & _ & ?).
Qed.

Lemma C9_at_most_K_in_flight_witness :
  in_flight (State 0 [InFlight; Waiting]) <= 1.
Proof.
  apply (C9_at_most_K_in_flight 1 2 (State 0 [InFlight; Waiting])); [lia|].
  apply (rtc_l _ _ (State 0 [Holding; Submitted])).
  { apply run_next. exists 0.
    apply (step_acquire 0 (State 1 [Submitted; Submitted])); [by left|simpl; lia]. }
  apply (rtc_l _ _ (State 0 [InFlight; Submitted])).
  { apply run_next. exists 0. by apply (step_issue 0 (State 0 [Holding; Submitted])). }
  apply (rtc_l _ _ (State 0 [InFlight; Waiting])).
  { apply run_next. exists 1.
    apply (step_suspend 1 (State 0 [InFlight; Submitted])); [done|by left]. }
  apply rtc_refl.
Defined.

End dispatcher_claims.

(* ===================================================================== *)
(** * Further properties: the frames of a video                           *)
(* ===================================================================== *)

Section frame_indices_facts.
Import Py SplitFrames.

Lemma frame_indices_div (n : Z) :
  1 <= n ->
  frame_indices n =
    [0; (n - 1) / 4; (2 * (n - 1)) / 4; (3 * (n - 1)) / 4; n - 1].
Proof.
  intros Hn. unfold frame_indices. simpl.
  rewrite !Z.quot_div_nonneg by lia.
  repeat f_equal; try (apply Z.div_unique with (r := 0); lia).
  - by rewrite Z.mul_1_l.
  - rewrite Z.mul_comm. by apply Z.div_mul.
Qed.

(** X1: The five positions start at the first frame, end at the last one,
    stay inside the video and never go back. *)
Theorem frame_indices_in_range (total_frames : Z) :
  1 <= total_frames <= 2 ^ 51 ->
  exists a b c,
    frame_indices total_frames = [0; a; b; c; total_frames - 1] /\
    0 <= a /\ a <= b /\ b <= c /\ c <= total_frames - 1.
Proof.
  intros [Hn _]. rewrite (frame_indices_div _ Hn).
  eexists _, _, _. split; [reflexivity|].
  split_and!; Z.div_mod_to_equations; lia.
Qed.

Lemma frame_indices_in_range_witness :
  exists a b c,
    frame_indices 150 = [0; a; b; c; 149] /\
    0 <= a /\ a <= b /\ b <= c /\ c <= 149.
Proof. apply (frame_indices_in_range 150). vm_compute. split; discriminate. Defined.

(** X2: The five positions are five different frames exactly when the video
    has at least five frames. *)
Theorem frame_indices_distinct (total_frames : Z) :
  1 <= total_frames <= 2 ^ 51 ->
  NoDup (frame_indices total_frames) <-> 5 <= total_frames.
Proof.
  intros [Hn _]. rewrite (frame_indices_div _ Hn). split.
  - intros H. destruct (decide (5 <= total_frames)) as [|Hlt]; [done|]. exfalso.
    assert (total_frames = 1 \/ total_frames = 2 \/ total_frames = 3 \/ total_frames = 4)
      as [-> | [-> | [-> | ->]]] by lia;
      vm_compute in H; repeat (apply NoDup_cons in H as [? H]); set_solver.
  - intros H5.
    assert (0 < (total_frames - 1) / 4 /\
            (total_frames - 1) / 4 < (2 * (total_frames - 1)) / 4 /\
            (2 * (total_frames - 1)) / 4 < (3 * (total_frames - 1)) / 4 /\
            (3 * (total_frames - 1)) / 4 < total_frames - 1) as (H1 & H2 & H3 & H4)
      by (split_and!; Z.div_mod_to_equations; lia).
    repeat (apply NoDup_cons; split; [rewrite ?elem_of_cons, ?elem_of_nil; lia|]).
    apply NoDup_nil_2.
Qed.

Lemma frame_indices_distinct_witness : NoDup (frame_indices 150).
Proof.
  apply (frame_indices_distinct 150); [vm_compute; split; discriminate|lia].
Defined.

(** X3: The positions are equally spaced up to rounding: each step between
    two consecutive positions is the quarter of the span, rounded down
    or up. *)
Theorem frame_indices_spacing (total_frames : Z) :
  1 <= total_frames <= 2 ^ 51 ->
  forall k i j,
    frame_indices total_frames !! k = Some i ->
    frame_indices total_frames !! S k = Some j ->
    (total_frames - 1) / 4 <= j - i <= (total_frames - 1) / 4 + 1.
Proof.
  intros [Hn _] k i j. rewrite (frame_indices_div _ Hn).
  destruct k as [|[|[|[|k]]]]; simpl; try done;
    intros [= <-] [= <-]; Z.div_mod_to_equations; lia.
Qed.

Lemma frame_indices_spacing_witness : 149 / 4 <= 74 - 37 <= 149 / 4 + 1.
Proof.
  apply (frame_indices_spacing 150 ltac:(vm_compute; split; discriminate) 1%nat 37 74);
    reflexivity.
Defined.

End frame_indices_facts.

Section extract_frames_facts.
Import Py SplitFrames.

Lemma open_captures_app (l1 l2 : list event) (k : Z) :
  open_captures (l1 ++ l2) k = open_captures l2 (open_captures l1 k).
Proof.
  revert k. induction l1 as [|e l1 IH]; intros k; [done|].
  destruct e; simpl; apply IH.
Qed.

Lemma open_captures_quiet (l : list event) (k : Z) :
  Forall (fun e => is_open_or_release e = false) l -> open_captures l k = k.
Proof.
  induction 1 as [|e l He _ IH]; [done|]. destruct e; try done.
Qed.

Lemma save_frames_quiet (v : video) (indices : list Z) (frame_num : Z) :
  Forall (fun e => is_open_or_release e = false) (save_frames v frame_num indices).1.
Proof.
  revert frame_num. induction indices as [|i rest IH]; intros frame_num; simpl; [constructor|].
  specialize (IH (frame_num + 1)).
  destruct (read_at v i) as [[|]|e]; [| |by repeat constructor];
    destruct (save_frames v (frame_num + 1) rest) as [evs r];
    by repeat constructor.
Qed.

(** The trace of one video: the capture is opened first and released
    last, and nothing between the two opens or releases a capture. *)
Lemma extract_video_bracket (v : video) :
  exists mid,
    extract_video v = Opened (file_name v) :: mid ++ [Released (file_name v)] /\
    Forall (fun e => is_open_or_release e = false) mid.
Proof.
  unfold extract_video.
  destruct (frame_count v) as [n|e]; cbn [fst snd].
  - destruct (n <=? 0); cbn [fst snd].
    + exists [CouldNotReadFrames (file_name v)].
      split; [done|]. by repeat constructor.
    + pose proof (save_frames_quiet v (frame_indices n) 1) as Hq.
      destruct (save_frames v 1 (frame_indices n)) as [evs [e|]]; cbn [fst snd] in *.
      * exists (MkDir (output_dir v)
                  :: evs ++ [ErrorProcessingVideo (file_name v) (exn_msg e)]).
        split; [cbn [app]; by rewrite <- app_assoc|].
        apply Forall_cons; split; [done|]. apply Forall_app; split; [done|].
        by repeat constructor.
      * exists (MkDir (output_dir v)
                  :: evs ++ [ProcessedVideo (file_name v) (length (frame_indices n))]).
        split; [done|].
        apply Forall_cons; split; [done|]. apply Forall_app; split; [done|].
        by repeat constructor.
  - exists [ErrorProcessingVideo (file_name v) (exn_msg e)].
    split; [done|]. by repeat constructor.
Qed.

Lemma extract_video_balanced (v : video) (k : Z) :
  open_captures (extract_video v) k = k.
Proof.
  destruct (extract_video_bracket v) as (mid & -> & Hmid).
  cbn [open_captures]. rewrite open_captures_app, (open_captures_quiet _ _ Hmid).
  simpl. lia.
Qed.

Lemma extract_video_take (v : video) (n : nat) :
  0 <= open_captures (take n (extract_video v)) 0 <= 1.
Proof.
  destruct (extract_video_bracket v) as (mid & -> & Hmid).
  destruct n as [|n]; [simpl; lia|]. cbn [take open_captures].
  rewrite take_app. rewrite open_captures_app.
  rewrite (open_captures_quiet (take n mid)) by (by apply Forall_take).
  destruct (n - length mid)%nat as [|m]; simpl; [lia|].
  rewrite take_nil. simpl. lia.
Qed.

Lemma flat_map_videos_balanced (video_files : list video) (k : Z) :
  open_captures (flat_map extract_video video_files) k = k.
Proof.
  induction video_files as [|v vs IH]; [done|]. cbn [flat_map].
  by rewrite open_captures_app, extract_video_balanced.
Qed.

(** X4: Every capture that is opened is released, also when reading the
    video raises: at no point of a run are two captures open, and at the
    end none is. *)
Theorem captures_released (video_files : list video) :
  open_captures (extract_frames video_files) 0 = 0 /\
  forall n, 0 <= open_captures (take n (extract_frames video_files)) 0 <= 1.
Proof.
  unfold extract_frames. split.
  - cbn [open_captures]. apply flat_map_videos_balanced.
  - intros [|n]; [simpl; lia|]. cbn [take open_captures]. revert n.
    induction video_files as [|v vs IH]; intros n.
    + simpl. rewrite take_nil. simpl. lia.
    + cbn [flat_map]. rewrite take_app, open_captures_app.
      destruct (decide (n <= length (extract_video v))%nat) as [Hle|Hgt].
      * replace (n - length (extract_video v))%nat with 0%nat by lia.
        rewrite take_0. simpl. apply extract_video_take.
      * rewrite (take_ge (extract_video v)) by lia.
        rewrite extract_video_balanced. apply IH.
Qed.

Lemma save_frames_returns (v : video) (indices : list Z) (frame_num : Z) :
  Forall (fun i => raises v i = false) indices ->
  save_frames v frame_num indices
  = (flat_map (frame_events v) (enumerate frame_num indices), None).
Proof.
  intros H. revert frame_num.
  induction H as [|i rest Hi _ IH]; intros frame_num; [done|].
  cbn [save_frames enumerate flat_map]. rewrite IH.
  unfold raises in Hi.
  destruct (read_at v i) as [[|]|e] eqn:Hread; [| |done];
    unfold frame_events, readable, saved_event; cbn [fst snd]; by rewrite Hread.
Qed.

Lemma save_frames_raises (v : video) (pre post : list Z) (i frame_num : Z) (e : exn) :
  Forall (fun i => raises v i = false) pre ->
  read_at v i = Raise e ->
  save_frames v frame_num (pre ++ i :: post)
  = (flat_map (frame_events v) (enumerate frame_num pre) ++ [Seek i], Some e).
Proof.
  intros H Hi. revert frame_num.
  induction H as [|j rest Hj _ IH]; intros frame_num.
  - cbn. by rewrite Hi.
  - cbn [app save_frames enumerate flat_map]. rewrite IH.
    unfold raises in Hj.
    destruct (read_at v j) as [[|]|e'] eqn:Hread; [| |done];
      unfold frame_events, readable, saved_event; cbn [fst snd]; by rewrite Hread.
Qed.

Lemma seeks_app (l1 l2 : list event) : seeks (l1 ++ l2) = seeks l1 ++ seeks l2.
Proof. apply omap_app. Qed.

Lemma seeks_frame_events (v : video) (ps : list (Z * Z)) :
  seeks (flat_map (frame_events v) ps) = ps.*2.
Proof.
  induction ps as [|p ps IH]; [done|].
  cbn [flat_map]. rewrite seeks_app, IH. unfold frame_events, saved_event.
  by destruct (readable v p.2).
Qed.

Lemma enumerate_snd (indices : list Z) (start : Z) : (enumerate start indices).*2 = indices.
Proof.
  revert start. induction indices as [|i rest IH]; intros start; [done|].
  cbn. by rewrite IH.
Qed.

Lemma enumerate_lookup (indices : list Z) (start num i : Z) :
  (num, i) ∈ enumerate start indices ->
  start <= num < start + Z.of_nat (length indices) /\
  indices !! Z.to_nat (num - start) = Some i.
Proof.
  revert start. induction indices as [|j rest IH]; intros start; cbn [enumerate].
  - by intros ?%elem_of_nil.
  - intros [[= -> ->] | H]%elem_of_cons.
    + cbn [length]. split; [lia|]. by rewrite Z.sub_diag.
    + apply IH in H as [Hr Hl]. cbn [length]. split; [lia|].
      replace (Z.to_nat (num - start)) with (S (Z.to_nat (num - (start + 1)))) by lia.
      done.
Qed.

Lemma saved_frame_events (v : video) (ps : list (Z * Z)) :
  filter (fun e => is_saved e = true) (flat_map (frame_events v) ps)
  = map (saved_event v) (filter (fun p => readable v p.2 = true) ps).
Proof.
  induction ps as [|p ps IH]; [done|].
  cbn [flat_map]. rewrite filter_app, IH, filter_cons.
  unfold frame_events at 1. rewrite filter_cons. cbn [is_saved].
  rewrite decide_False by done. rewrite filter_cons, filter_nil.
  destruct (readable v p.2) eqn:Hr.
  - unfold saved_event at 1. cbn [is_saved].
    rewrite decide_True by done. by rewrite decide_True by done.
  - cbn [is_saved]. rewrite decide_False by done. by rewrite decide_False by done.
Qed.

Lemma saved_in_save_frames (v : video) (indices : list Z) (frame_num : Z)
    (path text : str) (i : Z) :
  Saved path text i ∈ (save_frames v frame_num indices).1 ->
  exists num,
    (num, i) ∈ enumerate frame_num indices /\
    path = output_path v num /\ text = frame_text num /\ read_at v i = Ok true.
Proof.
  revert frame_num. induction indices as [|j rest IH]; intros frame_num; cbn [save_frames].
  - by intros ?%elem_of_nil.
  - specialize (IH (frame_num + 1)). cbn [enumerate].
    destruct (read_at v j) as [[|]|e] eqn:Hj.
    + destruct (save_frames v (frame_num + 1) rest) as [evs r]. cbn [fst] in *.
      intros [? | [[= -> -> ->] | H]%elem_of_cons]%elem_of_cons; [done| |].
      * exists frame_num. split_and!; try done. apply list_elem_of_here.
      * destruct (IH H) as (num & ? & ?). exists num. split; [|done].
        by apply list_elem_of_further.
    + destruct (save_frames v (frame_num + 1) rest) as [evs r]. cbn [fst] in *.
      intros [? | [? | H]%elem_of_cons]%elem_of_cons; [done|done|].
      destruct (IH H) as (num & ? & ?). exists num. split; [|done].
      by apply list_elem_of_further.
    + cbn [fst]. intros [? | ?%elem_of_nil]%elem_of_cons; done.
Qed.

Local Ltac split_elem H :=
  repeat first
    [ assumption | discriminate H
    | match type of H with
      | _ ∈ [] => by apply elem_of_nil in H
      | _ ∈ _ ++ _ => apply elem_of_app in H as [H|H]
      | _ ∈ _ :: _ => apply elem_of_cons in H as [H|H]
      end ].

Lemma frame_events_kinds (v : video) (ps : list (Z * Z)) (e : event) :
  e ∈ flat_map (frame_events v) ps ->
  (exists i, e = Seek i) \/ (exists p t i, e = Saved p t i)
  \/ (exists i n, e = CouldNotReadFrame i n).
Proof.
  intros (p & _ & H)%list_elem_of_In%in_flat_map.
  unfold frame_events, saved_event in H.
  destruct H as [<- | [<- | []]]; [by eauto|].
  destruct (readable v p.2); eauto 6.
Qed.

Local Ltac not_a_frame_event H :=
  exfalso; split_elem H;
  apply frame_events_kinds in H as [[? H] | [(? & ? & ? & H) | (? & ? & H)]];
  discriminate H.

Lemma length_frame_indices (n : Z) : length (frame_indices n) = 5%nat.
Proof. done. Qed.

(** X5: A file is written only for a video with a positive frame count, and
    only for one of the five positions, after a read of that position
    that gave a frame: the file is [frame_k.jpg] in the video's
    directory, its picture is labelled [frame k], and k is the rank (1
    to 5) of the position among the five, also when earlier positions
    could not be read.  (For a video of at most 2^51 frames, as in the
    two theorems that follow: up to there [frame_indices] is the list
    the code computes.) *)
Theorem saved_files_numbered (v : video) (path text : str) (frame_idx : Z) :
  (forall n, frame_count v = Ok n -> n <= 2 ^ 51) ->
  Saved path text frame_idx ∈ extract_video v ->
  exists total_frames frame_num,
    frame_count v = Ok total_frames /\ 0 < total_frames /\
    1 <= frame_num <= 5 /\
    frame_indices total_frames !! Z.to_nat (frame_num - 1) = Some frame_idx /\
    path = output_path v frame_num /\ text = frame_text frame_num /\
    read_at v frame_idx = Ok true.
Proof.
  intros _. unfold extract_video.
  destruct (frame_count v) as [n|e]; cbn [fst snd].
  - destruct (n <=? 0) eqn:Hn; cbn [fst snd].
    + intros H. exfalso. split_elem H.
    + apply Z.leb_gt in Hn.
      pose proof (saved_in_save_frames v (frame_indices n) 1 path text frame_idx) as Hs.
      destruct (save_frames v 1 (frame_indices n)) as [evs r]. cbn [fst] in Hs.
      intros H.
      assert (Saved path text frame_idx ∈ evs) as Hin.
      { destruct r; cbn [fst snd] in H; split_elem H. }
      destruct (Hs Hin) as (num & Hnum & -> & -> & Hread).
      apply enumerate_lookup in Hnum as [Hr Hl]. rewrite length_frame_indices in Hr.
      exists n, num. split_and!; try done; lia.
  - intros H. exfalso. split_elem H.
Qed.

Lemma saved_files_numbered_witness :
  exists total_frames frame_num,
    frame_count sample_video = Ok total_frames /\ 0 < total_frames /\
    1 <= frame_num <= 5 /\
    frame_indices total_frames !! Z.to_nat (frame_num - 1) = Some 6 /\
    output_path sample_video 4 = output_path sample_video frame_num /\
    frame_text 4 = frame_text frame_num /\
    read_at sample_video 6 = Ok true.
Proof.
  apply (saved_files_numbered sample_video
           (output_path sample_video 4) (frame_text 4) 6).
  - intros n [= <-]. vm_compute. discriminate.
  - apply list_elem_of_In. vm_compute. do 9 right. by left.
Defined.

(** The trace of a video with frames none of whose reads raises. *)
Lemma extract_video_returns (v : video) (total_frames : Z) :
  frame_count v = Ok total_frames ->
  0 < total_frames ->
  Forall (fun i => raises v i = false) (frame_indices total_frames) ->
  extract_video v
  = [Opened (file_name v); MkDir (output_dir v)]
    ++ flat_map (frame_events v) (enumerate 1 (frame_indices total_frames))
    ++ [ProcessedVideo (file_name v) 5; Released (file_name v)].
Proof.
  intros Hc Hn Hr. unfold extract_video. rewrite Hc.
  apply Z.leb_gt in Hn. rewrite Hn, (save_frames_returns _ _ _ Hr).
  cbn [fst snd app]. rewrite length_frame_indices. by rewrite <- app_assoc.
Qed.

(** X6: When no read raises, a position that cannot be read costs its own
    file only: all five positions are asked for, in order; the files
    written are those of the positions whose read gave a frame, each
    under the number of its rank (numbers are not shifted down to fill
    the gaps); and the summary line says 5 frames whatever the number
    of files written. *)
Theorem unreadable_frames_skipped (v : video) (total_frames : Z) :
  frame_count v = Ok total_frames ->
  0 < total_frames <= 2 ^ 51 ->
  Forall (fun i => raises v i = false) (frame_indices total_frames) ->
  seeks (extract_video v) = frame_indices total_frames /\
  filter (fun e => is_saved e = true) (extract_video v)
  = map (saved_event v)
        (filter (fun p => readable v p.2 = true)
                (enumerate 1 (frame_indices total_frames))) /\
  ProcessedVideo (file_name v) 5 ∈ extract_video v /\
  forall name msg, ErrorProcessingVideo name msg ∉ extract_video v.
Proof.
  intros Hc [Hn _] Hr. rewrite (extract_video_returns _ _ Hc Hn Hr). split_and!.
  - rewrite !seeks_app, seeks_frame_events, enumerate_snd. cbn. by rewrite ?app_nil_r.
  - rewrite !filter_app, saved_frame_events. cbn. by rewrite app_nil_r.
  - rewrite !elem_of_app, !elem_of_cons. tauto.
  - intros name msg H. not_a_frame_event H.
Qed.

Lemma unreadable_frames_skipped_witness :
  seeks (extract_video sample_video) = frame_indices 10 /\
  filter (fun e => is_saved e = true) (extract_video sample_video)
  = map (saved_event sample_video)
        (filter (fun p => readable sample_video p.2 = true)
                (enumerate 1 (frame_indices 10))) /\
  ProcessedVideo (file_name sample_video) 5 ∈ extract_video sample_video /\
  forall name msg, ErrorProcessingVideo name msg ∉ extract_video sample_video.
Proof.
  apply (unreadable_frames_skipped sample_video 10);
    [reflexivity|vm_compute; split; [reflexivity|discriminate]|].
  apply Forall_forall. intros i _. unfold raises, sample_video. cbn [read_at].
  by destruct (i =? 4).
Defined.

(** X7: A read that raises ends the work on its video: the positions after
    it are not asked for, the files written are those of the readable
    positions before it, the error is printed and no summary line is. *)
Theorem raising_read_abandons_video (v : video) (total_frames frame_idx : Z)
    (pre post : list Z) (e : exn) :
  frame_count v = Ok total_frames ->
  0 < total_frames <= 2 ^ 51 ->
  frame_indices total_frames = pre ++ frame_idx :: post ->
  Forall (fun i => raises v i = false) pre ->
  read_at v frame_idx = Raise e ->
  seeks (extract_video v) = pre ++ [frame_idx] /\
  filter (fun e => is_saved e = true) (extract_video v)
  = map (saved_event v) (filter (fun p => readable v p.2 = true) (enumerate 1 pre)) /\
  ErrorProcessingVideo (file_name v) (exn_msg e) ∈ extract_video v /\
  forall name frames, ProcessedVideo name frames ∉ extract_video v.
Proof.
  intros Hc [Hn _] Hidx Hpre He. unfold extract_video. rewrite Hc.
  apply Z.leb_gt in Hn. rewrite Hn, Hidx, (save_frames_raises _ _ _ _ _ _ Hpre He).
  cbn [fst snd]. split_and!.
  - rewrite !seeks_app. cbn [seeks omap]. cbn. rewrite seeks_app, seeks_frame_events.
    by rewrite enumerate_snd, app_nil_r.
  - rewrite !filter_app, (filter_cons _ (MkDir _)), decide_False by done.
    rewrite filter_app, saved_frame_events. cbn.
    rewrite !decide_False by done. cbn [app]. by rewrite !app_nil_r.
  - rewrite !elem_of_app, !elem_of_cons. tauto.
  - intros name frames H. not_a_frame_event H.
Qed.

Lemma raising_read_abandons_video_witness :
  seeks (extract_video raising_video) = [0; 2] ++ [4] /\
  filter (fun e => is_saved e = true) (extract_video raising_video)
  = map (saved_event raising_video)
        (filter (fun p => readable raising_video p.2 = true) (enumerate 1 [0; 2])) /\
  ErrorProcessingVideo (file_name raising_video)
    (exn_msg (Exn OSError (of_string "read failed"))) ∈ extract_video raising_video /\
  forall name frames, ProcessedVideo name frames ∉ extract_video raising_video.
Proof.
  apply (raising_read_abandons_video raising_video 10 4 [0; 2] [6; 9]);
    [reflexivity|vm_compute; split; [reflexivity|discriminate]|reflexivity| |reflexivity].
  by repeat constructor.
Defined.

End extract_frames_facts.

(* ===================================================================== *)
(** * Further properties: the answer sheet                                *)
(* ===================================================================== *)

Section answer_sheet_facts.
Import Py Re ExtractAnswers.

Implicit Types (f : json_file) (i : Z) (fs : list json_file) (r : str * str).

Lemma str_le_refl (a : str) : str_le a a = true.
Proof.
  induction a as [|x a IH]; [done|]. simpl.
  by rewrite N.eqb_refl, IH, orb_true_r.
Qed.

Lemma str_le_total (a b : str) : str_le a b = false -> str_le b a = true.
Proof.
  revert b. induction a as [|x a IH]; intros [|y b]; simpl; try done.
  rewrite orb_false_iff, andb_false_iff, orb_true_iff, andb_true_iff.
  rewrite N.ltb_ge, N.eqb_neq, N.ltb_lt, N.eqb_eq.
  intros [H1 [H2|H2]]; [left; lia|].
  destruct (decide (x = y)) as [->|]; [right; auto|left; lia].
Qed.

Lemma str_le_trans (a b c : str) :
  str_le a b = true -> str_le b c = true -> str_le a c = true.
Proof.
  revert b c. induction a as [|x a IH]; intros [|y b] [|z c]; simpl; try done.
  rewrite !orb_true_iff, !andb_true_iff, !N.ltb_lt, !N.eqb_eq.
  intros [H1|[H1 H1']] [H2|[H2 H2']];
    [left; lia|left; lia|left; lia|right; split; [lia|eauto]].
Qed.

Lemma insert_by_id_perm r (l : list (str * str)) : insert_by_id r l ≡ₚ r :: l.
Proof.
  induction l as [|x l IH]; [done|]. simpl.
  destruct (str_le r.1 x.1); [done|]. rewrite IH. apply Permutation_swap.
Qed.

Lemma sort_by_id_perm (l : list (str * str)) : sort_by_id l ≡ₚ l.
Proof.
  induction l as [|r l IH]; [done|].
  unfold sort_by_id in *. simpl. by rewrite insert_by_id_perm, IH.
Qed.

Lemma insert_by_id_sorted r (l : list (str * str)) :
  StronglySorted row_le l -> StronglySorted row_le (insert_by_id r l).
Proof.
  induction 1 as [|x l Hl IH Hx]; simpl.
  - by repeat constructor.
  - destruct (str_le r.1 x.1) eqn:E.
    + constructor; [by constructor|]. constructor; [done|].
      eapply Forall_impl; [exact Hx|]. intros y Hy. by apply str_le_trans with x.1.
    + constructor; [done|]. rewrite insert_by_id_perm.
      constructor; [by apply str_le_total|done].
Qed.

Lemma sort_by_id_sorted (l : list (str * str)) : StronglySorted row_le (sort_by_id l).
Proof.
  induction l as [|r l IH]; [constructor|]. by apply insert_by_id_sorted.
Qed.

(** The sort is stable: rows with the same id text keep their order. *)
Lemma insert_by_id_stable r (l : list (str * str)) (k : str) :
  filter (fun x => x.1 = k) (insert_by_id r l) = filter (fun x => x.1 = k) (r :: l).
Proof.
  induction l as [|x l IH]; [done|]. simpl.
  destruct (str_le r.1 x.1) eqn:E; [done|].
  assert (r.1 <> x.1) as Hne by (intros Heq; by rewrite Heq, str_le_refl in E).
  rewrite (filter_cons _ x), IH, (filter_cons _ r), (filter_cons _ r), (filter_cons _ x).
  repeat case_decide; congruence.
Qed.

Lemma sort_by_id_stable (l : list (str * str)) (k : str) :
  filter (fun x => x.1 = k) (sort_by_id l) = filter (fun x => x.1 = k) l.
Proof.
  induction l as [|r l IH]; [done|].
  change (sort_by_id (r :: l)) with (insert_by_id r (sort_by_id l)).
  by rewrite insert_by_id_stable, !filter_cons, IH.
Qed.

(** The label the extractor returns is one letter, A to E. *)
Lemma extract_answer_label (jc : json_content) (a : str) :
  extract_answer_from_json jc = Ok (Some a) -> exists c, a = [c] /\ is_label c = true.
Proof.
  unfold extract_answer_from_json, get_answer, re_search.
  destruct jc as [d|]; [|done]. simpl.
  destruct (default (VStr []) (d !! "answer"%string)) as [|s| |]; try done. simpl.
  destruct (search pattern_with_content s) as [g|] eqn:E1.
  - apply search_with_content_label in E1 as (c & -> & Hc). intros [= <-]. eauto.
  - simpl. destruct (search pattern_letter s) as [g|] eqn:E2; [|done].
    apply search_letter_label in E2 as (c & -> & Hc). intros [= <-]. eauto.
Qed.

(** The rows a file adds: one, when its id is in range and it gives a
    label. *)
Lemma effect_results f :
  results (file_effect f) =
  match parsed_label f with
  | Some (i, a) =>
      if (1 <=? i) && (i <=? 251) then [(split_first (name f), a)] else []
  | None => []
  end.
Proof.
  unfold file_effect, scan_file, parsed_label.
  destruct (py_int (split_first (name f))) as [i|e] eqn:Ei; simpl.
  - destruct ((1 <=? i) && (i <=? 251)) eqn:Er.
    + destruct (content f) as [jc|e]; simpl; [|done].
      destruct (extract_answer_from_json jc) as [[[|c a]|]|e]; simpl; try done.
      by rewrite Er.
    + destruct (content f) as [jc|e]; simpl; [|done].
      destruct (extract_answer_from_json jc) as [[[|c a]|]|e]; simpl; try done.
      by rewrite Er.
  - by rewrite (py_int_raises _ _ Ei).
Qed.

Lemma elem_of_scanned_rows fs r :
  r ∈ scanned_rows fs <->
  exists f i c,
    f ∈ fs /\ 1 <= i <= 251 /\ parsed_label f = Some (i, [c]) /\ is_label c = true /\
    r = (split_first (name f), [c]).
Proof.
  unfold scanned_rows. rewrite list_elem_of_In, in_flat_map. split.
  - intros (e & He & Hr). apply in_map_iff in He as (f & <- & Hf).
    rewrite effect_results in Hr.
    destruct (parsed_label f) as [[i a]|] eqn:E; [|done].
    destruct ((1 <=? i) && (i <=? 251)) eqn:Er; [|done].
    destruct Hr as [<-|[]].
    destruct (parsed_label_content f i a E) as (jc & _ & Hx).
    apply extract_answer_label in Hx as (c & -> & Hc).
    apply andb_true_iff in Er as [?%Z.leb_le ?%Z.leb_le].
    exists f, i, c. split_and!; try done. by apply list_elem_of_In.
  - intros (f & i & c & Hf & Hr & E & _ & ->). exists (file_effect f). split.
    + apply in_map. by apply list_elem_of_In.
    + rewrite effect_results, E.
      assert ((1 <=? i) && (i <=? 251) = true) as ->
        by (apply andb_true_iff; split; apply Z.leb_le; lia).
      by left.
Qed.

Lemma size_list_to_set_le (l : list Z) : (size (list_to_set l : gset Z) <= length l)%nat.
Proof.
  induction l as [|x l IH]; [done|]. cbn [list_to_set foldr length].
  rewrite size_union_alt, size_singleton.
  assert (size (list_to_set l ∖ {[x]} : gset Z) <= size (list_to_set l : gset Z))%nat
    by (apply subseteq_size; intros y [? _]%elem_of_difference; done).
  lia.
Qed.

Lemma size_all_expected : size all_expected_ids = 251%nat.
Proof.
  unfold all_expected_ids.
  rewrite size_list_to_set by apply NoDup_seqZ. by rewrite length_seqZ.
Qed.

(** X8: Every id from 1 to 251 is either a success or missing, never both:
    the two sets are disjoint, together they are 1..251, and their sizes
    add up to 251. *)
Theorem ids_partition fs :
  exists rep,
    process_files fs = Ok rep /\
    success_ids rep ## missing_ids rep /\
    success_ids rep ∪ missing_ids rep = all_expected_ids /\
    (size (success_ids rep) + size (missing_ids rep) = 251)%nat.
Proof.
  destruct (process_files_report fs) as (rep & Hrep & _ & Hs & Hm & _).
  exists rep. split; [done|].
  assert (success_ids rep ⊆ all_expected_ids) as Hsub.
  { intros i Hi. rewrite Hs in Hi. apply elem_of_processed in Hi as [Hr _].
    by apply elem_of_all_expected. }
  assert (success_ids rep ## missing_ids rep) as Hdisj.
  { rewrite Hm. intros i H1 [_ H2]%elem_of_difference. done. }
  assert (success_ids rep ∪ missing_ids rep = all_expected_ids) as Hcover.
  { rewrite Hm. apply set_eq. intros i. rewrite elem_of_union, elem_of_difference.
    split; [intros [H|[H _]]; auto|].
    intros H. destruct (decide (i ∈ success_ids rep)); auto. }
  split_and!; [done|done|].
  by rewrite <- (size_union _ _ Hdisj), Hcover, size_all_expected.
Qed.

(** X9: The answer sheet is sorted by the text of the id, and stably: it
    holds the rows of the scan, rows with the same id text in the order
    in which their files were scanned; and the last line printed gives
    its length. *)
Theorem answer_sheet_sorted fs :
  exists rep,
    process_files fs = Ok rep /\
    StronglySorted row_le (csv_rows rep) /\
    csv_rows rep ≡ₚ scanned_rows fs /\
    (forall k, filter (fun r => r.1 = k) (csv_rows rep)
               = filter (fun r => r.1 = k) (scanned_rows fs)) /\
    last (output rep) = Some (Processed (length (scanned_rows fs))).
Proof.
  destruct (process_files_report fs) as (rep & Hrep & Hc & _ & _ & Ho).
  exists rep. fold (scanned_rows fs) in Hc. rewrite Hc, Ho. split_and!; [done|..].
  - apply sort_by_id_sorted.
  - apply sort_by_id_perm.
  - intros k. apply sort_by_id_stable.
  - rewrite !last_app. cbn [last]. by rewrite Hc, sort_by_id_perm.
Qed.

(** X10: A row of the answer sheet is the id text of a file whose id is a
    number from 1 to 251, with the label that file gives, a single
    letter from A to E; the success set holds the numbers of the ids of
    the rows, and an id given by several files has a row for each. *)
Theorem answer_sheet_rows fs :
  exists rep,
    process_files fs = Ok rep /\
    (forall r, r ∈ csv_rows rep <->
       exists f i c,
         f ∈ fs /\ 1 <= i <= 251 /\ parsed_label f = Some (i, [c]) /\
         is_label c = true /\ r = (split_first (name f), [c])) /\
    (forall i, i ∈ success_ids rep <->
       exists r, r ∈ csv_rows rep /\ py_int r.1 = Ok i) /\
    (size (success_ids rep) <= length (csv_rows rep))%nat.
Proof.
  destruct (process_files_report fs) as (rep & Hrep & Hc & Hs & _ & _).
  exists rep. fold (scanned_rows fs) in Hc.
  assert (forall r, r ∈ csv_rows rep <-> r ∈ scanned_rows fs) as Hin.
  { intros r. by rewrite Hc, sort_by_id_perm. }
  assert (forall i, i ∈ success_ids rep <->
            exists r, r ∈ csv_rows rep /\ py_int r.1 = Ok i) as Hsucc.
  { intros i. rewrite Hs, elem_of_processed. split.
    - intros (Hr & f & a & Hf & E).
      destruct (parsed_label_content f i a E) as (jc & _ & Hx).
      apply extract_answer_label in Hx as (c & -> & Hc').
      exists (split_first (name f), [c]). split.
      + apply Hin. apply elem_of_scanned_rows. exists f, i, c. by repeat split; try lia.
      + by apply parsed_label_id in E.
    - intros (r & Hr%Hin%elem_of_scanned_rows & Hi).
      destruct Hr as (f & j & c & Hf & Hj & E & _ & ->). simpl in Hi.
      pose proof (parsed_label_id f j _ E) as Hid. unfold id_of in Hid.
      assert (j = i) as -> by congruence. eauto 6. }
  split_and!; [done| |done|].
  - intros r. by rewrite Hin, elem_of_scanned_rows.
  - (* the ids of the rows cover the success set *)
    set (key := fun r : str * str => match py_int r.1 with Ok i => i | Raise _ => 0 end).
    assert (success_ids rep ⊆ list_to_set (key <$> csv_rows rep)) as Hsub.
    { intros i (r & Hr & Hi)%Hsucc. apply elem_of_list_to_set, list_elem_of_fmap.
      exists r. split; [|done]. unfold key. by rewrite Hi. }
    etrans; [apply (subseteq_size _ _ Hsub)|].
    etrans; [apply size_list_to_set_le|]. by rewrite length_fmap.
Qed.

Lemma scanned_rows_app fs (gs : list json_file) : scanned_rows (fs ++ gs) = scanned_rows fs ++ scanned_rows gs.
Proof. unfold scanned_rows. by rewrite map_app, flat_map_app. Qed.

(** X11: Scanning more files can only fill gaps: over two batches of files
    the success set is the union of the success sets, the missing set is
    what is missing from both, and the answer sheet holds the rows of
    both. *)
Theorem more_files_fewer_gaps fs (gs : list json_file) :
  exists rep1 rep2 rep,
    process_files fs = Ok rep1 /\ process_files gs = Ok rep2 /\
    process_files (fs ++ gs) = Ok rep /\
    success_ids rep = success_ids rep1 ∪ success_ids rep2 /\
    missing_ids rep = missing_ids rep1 ∩ missing_ids rep2 /\
    csv_rows rep ≡ₚ csv_rows rep1 ++ csv_rows rep2.
Proof.
  destruct (process_files_report fs) as (rep1 & H1 & Hc1 & Hs1 & Hm1 & _).
  destruct (process_files_report gs) as (rep2 & H2 & Hc2 & Hs2 & Hm2 & _).
  destruct (process_files_report (fs ++ gs)) as (rep & H & Hc & Hs & Hm & _).
  exists rep1, rep2, rep.
  assert (success_ids rep = success_ids rep1 ∪ success_ids rep2) as Hsucc.
  { by rewrite Hs, Hs1, Hs2, !map_app, union_list_app_L. }
  split_and!; [done..| |].
  - rewrite Hm, Hm1, Hm2, Hsucc. apply set_eq. intros i.
    rewrite elem_of_intersection, !elem_of_difference, elem_of_union. tauto.
  - fold (scanned_rows (fs ++ gs)) in Hc. fold (scanned_rows fs) in Hc1.
    fold (scanned_rows gs) in Hc2.
    by rewrite Hc, Hc1, Hc2, !sort_by_id_perm, scanned_rows_app.
Qed.

(** X12: The order in which the files are scanned does not matter for the
    two sets, and the answer sheets of two orders hold the same rows. *)
Theorem scan_order_irrelevant fs (gs : list json_file) :
  fs ≡ₚ gs ->
  exists rep1 rep2,
    process_files fs = Ok rep1 /\ process_files gs = Ok rep2 /\
    success_ids rep1 = success_ids rep2 /\
    missing_ids rep1 = missing_ids rep2 /\
    csv_rows rep1 ≡ₚ csv_rows rep2.
Proof.
  intros Hp.
  destruct (process_files_report fs) as (rep1 & H1 & Hc1 & Hs1 & Hm1 & _).
  destruct (process_files_report gs) as (rep2 & H2 & Hc2 & Hs2 & Hm2 & _).
  exists rep1, rep2.
  assert (success_ids rep1 = success_ids rep2) as Hsucc.
  { rewrite Hs1, Hs2. apply set_eq. intros i. rewrite !elem_of_processed.
    by setoid_rewrite Hp. }
  split_and!; [done|done|done| |].
  - by rewrite Hm1, Hm2, Hsucc.
  - rewrite Hc1, Hc2, !sort_by_id_perm.
    apply Permutation_flat_map. by apply Permutation_map.
Qed.

Lemma scan_order_irrelevant_witness :
  exists rep1 rep2,
    process_files sample_sink = Ok rep1 /\ process_files (reverse sample_sink) = Ok rep2 /\
    success_ids rep1 = success_ids rep2 /\
    missing_ids rep1 = missing_ids rep2 /\
    csv_rows rep1 ≡ₚ csv_rows rep2.
Proof.
  apply (scan_order_irrelevant sample_sink (reverse sample_sink)).
  symmetry. apply reverse_Permutation.
Defined.

(** What the scan of one file prints: at most one line, about that
    file. *)
Lemma effect_printed f :
  printed (file_effect f) = []
  \/ printed (file_effect f) = [NoAnswerFound (name f)]
  \/ (exists msg, printed (file_effect f) = [ErrorProcessing (name f) msg])
  \/ printed (file_effect f) = [InvalidIdFormat (name f)].
Proof.
  unfold file_effect, scan_file.
  destruct (py_int (split_first (name f))) as [i|e] eqn:Ei; simpl.
  - destruct ((1 <=? i) && (i <=? 251)); [|by left].
    destruct (content f) as [jc|e]; simpl; [|by eauto 6].
    destruct (extract_answer_from_json jc) as [[[|c a]|]|e]; simpl; by eauto 6.
  - rewrite (py_int_raises _ _ Ei). simpl. by eauto 6.
Qed.

Lemma no_missing_line_in_scan fs ids :
  MissingAnswers ids ∉ flat_map printed (map file_effect fs).
Proof.
  intros (e & (f & <- & _)%in_map_iff & H)%list_elem_of_In%in_flat_map.
  destruct (effect_printed f) as [E | [E | [[msg E] | E]]];
    rewrite E in H; simpl in H; intuition discriminate.
Qed.

Lemma seq_shift_sorted (m : Z) (s len : nat) :
  StronglySorted Z.lt ((fun i : nat => Z.of_nat i + m) <$> seq s len).
Proof.
  revert s. induction len as [|len IH]; intros s; [constructor|].
  cbn [seq fmap list_fmap]. constructor; [apply IH|].
  apply Forall_fmap, Forall_seq. intros j Hj. simpl. lia.
Qed.

Lemma filter_sorted (P : Z -> Prop) `{!forall x, Decision (P x)} (l : list Z) :
  StronglySorted Z.lt l -> StronglySorted Z.lt (filter P l).
Proof.
  induction 1 as [|x l Hl IH Hx]; [constructor|].
  rewrite filter_cons. case_decide; [|done]. constructor; [done|].
  apply Forall_forall. intros y [_ Hy]%list_elem_of_filter.
  by apply (proj1 (Forall_forall _ _) Hx).
Qed.

(** X13: The warning about missing answers is printed exactly when an id is
    missing, and it lists the missing ids, each once, in increasing
    order. *)
Theorem missing_answers_line fs :
  exists rep,
    process_files fs = Ok rep /\
    ((exists ids, MissingAnswers ids ∈ output rep) <-> missing_ids rep <> ∅) /\
    forall ids, MissingAnswers ids ∈ output rep ->
      StronglySorted Z.lt ids /\ forall i, i ∈ ids <-> i ∈ missing_ids rep.
Proof.
  destruct (process_files_report fs) as (rep & Hrep & _ & Hs & Hm & Ho).
  exists rep. split; [done|].
  assert (forall ids, MissingAnswers ids ∈ output rep <->
            missing_ids rep <> ∅ /\
            ids = filter (fun i => i ∈ missing_ids rep) (seqZ 1 251)) as Hline.
  { intros ids. rewrite Ho, !elem_of_app. unfold report_missing. split.
    - intros [H | [H | H]].
      + by apply no_missing_line_in_scan in H.
      + case_bool_decide; [by apply elem_of_nil in H|].
        apply list_elem_of_singleton in H. by injection H as ->.
      + apply list_elem_of_In in H. simpl in H. intuition discriminate.
    - intros [Hne ->]. right. left. rewrite bool_decide_eq_false_2 by done.
      apply list_elem_of_here. }
  split.
  - split; [intros [ids H%Hline]; tauto|]. intros Hne. eexists. apply Hline. eauto.
  - intros ids [Hne ->]%Hline. split.
    + apply filter_sorted. apply seq_shift_sorted.
    + intros i. rewrite list_elem_of_filter, elem_of_seqZ. split; [tauto|].
      intros Hi. split; [done|]. rewrite Hm in Hi.
      apply elem_of_difference in Hi as [Hi%elem_of_all_expected _]. lia.
Qed.

Lemma count_lines_app (kind : line -> bool) (l1 l2 : list line) :
  count_lines kind (l1 ++ l2) = (count_lines kind l1 + count_lines kind l2)%nat.
Proof. unfold count_lines. by rewrite filter_app, length_app. Qed.

(** One file is one row, one line about it, or a silent skip. *)
Lemma effect_accounted f :
  (length (results (file_effect f))
   + count_lines is_no_answer_line (printed (file_effect f))
   + count_lines is_error_line (printed (file_effect f))
   + count_lines is_invalid_id_line (printed (file_effect f))
   + (if out_of_range f then 1 else 0) = 1)%nat.
Proof.
  unfold file_effect, scan_file, out_of_range.
  destruct (py_int (split_first (name f))) as [i|e] eqn:Ei; simpl.
  - destruct ((1 <=? i) && (i <=? 251)); [|done]. simpl.
    destruct (content f) as [jc|e]; simpl; [|done].
    destruct (extract_answer_from_json jc) as [[[|c a]|]|e]; simpl; done.
  - by rewrite (py_int_raises _ _ Ei).
Qed.

(** X14: Every file is accounted for once: it gives a row of the answer
    sheet, or one of the three kinds of line, or its id is a number
    outside 1..251 and nothing at all is said about it. *)
Theorem every_file_accounted fs :
  exists rep,
    process_files fs = Ok rep /\
    (length fs
     = length (csv_rows rep)
       + count_lines is_no_answer_line (output rep)
       + count_lines is_error_line (output rep)
       + count_lines is_invalid_id_line (output rep)
       + length (filter (fun f => out_of_range f = true) fs))%nat.
Proof.
  destruct (process_files_report fs) as (rep & Hrep & Hc & _ & _ & Ho).
  exists rep. split; [done|]. rewrite Hc, sort_by_id_perm, Ho, !count_lines_app.
  assert (forall kind, kind (MissingAnswers []) = false ->
            (forall ids, kind (MissingAnswers ids) = kind (MissingAnswers [])) ->
            count_lines kind (report_missing (missing_ids rep)) = 0%nat) as Hmiss.
  { intros kind Hk Hall. unfold report_missing, count_lines. case_bool_decide; [done|].
    rewrite filter_cons_False; [done|]. rewrite Hall, Hk. done. }
  rewrite !Hmiss by done. clear.
  induction fs as [|f fs IH]; [done|].
  pose proof (effect_accounted f) as Hf.
  cbn [map flat_map length]. rewrite !count_lines_app, length_app, filter_cons.
  destruct (out_of_range f); [rewrite decide_True by done|rewrite decide_False by done];
    cbn [length]; unfold count_lines in *; simpl in *; lia.
Qed.

(** X15: A file with an id from 1 to 251 that gives no label is reported: a
    file that does not load by an error line with the message of the
    exception, a file that is not a dictionary and a dictionary whose
    answer is not a string (a null answer) by an error line as well; a
    dictionary without an answer, as the pipeline writes for a failed
    call, by the warning that no answer was found. *)
Theorem unusable_results_reported fs f i :
  f ∈ fs -> id_of f = Ok i -> 1 <= i <= 251 ->
  exists rep,
    process_files fs = Ok rep /\
    (forall e, content f = Raise e ->
       ErrorProcessing (name f) (exn_msg e) ∈ output rep) /\
    (content f = Ok JOther ->
       exists msg, ErrorProcessing (name f) msg ∈ output rep) /\
    (forall d v, content f = Ok (JDict d) -> d !! "answer"%string = Some v ->
       (forall s, v <> VStr s) ->
       exists msg, ErrorProcessing (name f) msg ∈ output rep) /\
    (forall d, content f = Ok (JDict d) -> d !! "answer"%string = None ->
       NoAnswerFound (name f) ∈ output rep).
Proof.
  intros Hf Hid Hi.
  destruct (process_files_report fs) as (rep & Hrep & _ & _ & _ & Ho).
  exists rep. split; [done|].
  assert (forall l, printed (file_effect f) = [l] -> l ∈ output rep) as Hline.
  { intros l Hl. rewrite Ho. apply elem_of_app. left.
    apply list_elem_of_In, in_flat_map. exists (file_effect f). split.
    - apply in_map. by apply list_elem_of_In.
    - rewrite Hl. by left. }
  assert ((1 <=? i) && (i <=? 251) = true) as Hr
    by (apply andb_true_iff; split; apply Z.leb_le; lia).
  unfold id_of in Hid.
  split_and!.
  - intros e He. apply Hline. unfold file_effect, scan_file. rewrite Hid. simpl.
    by rewrite Hr, He.
  - intros He. eexists. apply Hline. unfold file_effect, scan_file. rewrite Hid. simpl.
    by rewrite Hr, He.
  - intros d v He Hv Hns.
    exists (of_string "expected string or bytes-like object").
    apply Hline. unfold file_effect, scan_file. rewrite Hid. simpl.
    rewrite Hr, He. simpl. unfold extract_answer_from_json, get_answer. rewrite Hv. simpl.
    destruct v as [|s| |]; try done. by destruct (Hns s).
  - intros d He Hv. apply Hline. unfold file_effect, scan_file. rewrite Hid. simpl.
    rewrite Hr, He. simpl. unfold extract_answer_from_json, get_answer. rewrite Hv. simpl.
    done.
Qed.

Lemma unusable_results_reported_witness :
  exists rep,
    process_files sample_sink = Ok rep /\
    NoAnswerFound (of_string "00002_result.json") ∈ output rep /\
    ErrorProcessing (of_string "00003_result.json")
      (of_string "Expecting value: line 1 column 1 (char 0)") ∈ output rep.
Proof.
  destruct (unusable_results_reported sample_sink
              (error_file "00002_result.json" "Request timed out.") 2)
    as (rep & Hrep & _ & _ & _ & Hnone);
    [apply list_elem_of_In; simpl; tauto|vm_compute; reflexivity|lia|].
  destruct (unusable_results_reported sample_sink (broken_file "00003_result.json") 3)
    as (rep' & Hrep' & Hraise & _);
    [apply list_elem_of_In; simpl; tauto|vm_compute; reflexivity|lia|].
  assert (rep' = rep) as -> by congruence.
  exists rep. split_and!; [done|..].
  - by apply (Hnone {[ "error"%string := VStr (of_string "Request timed out.") ]}).
  - by apply (Hraise (Exn JSONDecodeError
                        (of_string "Expecting value: line 1 column 1 (char 0)"))).
Defined.

End answer_sheet_facts.

Section numeric_ids.
Import Py Re ExtractAnswers.

Implicit Types (s : str) (c : N).

Lemma ascii_digit_cases c :
  is_ascii_digit c = true ->
  c = 48%N \/ c = 49%N \/ c = 50%N \/ c = 51%N \/ c = 52%N \/ c = 53%N \/ c = 54%N
  \/ c = 55%N \/ c = 56%N \/ c = 57%N.
Proof. unfold is_ascii_digit. rewrite andb_true_iff, !N.leb_le. lia. Qed.

Lemma ascii_digit_facts c :
  is_ascii_digit c = true ->
  int_space c = false /\ (c =? 43)%N = false /\ (c =? 45)%N = false /\
  (c =? 95)%N = false /\ decimal_value c = Some (Z.of_N (c - 48)).
Proof.
  intros H. apply ascii_digit_cases in H.
  repeat (destruct H as [-> | H]); try subst c; by vm_compute.
Qed.

Lemma digits_value_decimal s acc after :
  Forall (fun c => is_ascii_digit c = true) s ->
  (s <> [] \/ after = true) ->
  digits_value acc after s = Some (decimal acc s).
Proof.
  intros H. revert acc after. induction H as [|c s Hc _ IH]; intros acc after Hne.
  - destruct Hne as [? | ->]; done.
  - destruct (ascii_digit_facts c Hc) as (_ & _ & _ & E95 & Ed).
    cbn [digits_value]. rewrite E95, Ed. apply IH. by right.
Qed.

Lemma lstrip_digit c s : is_ascii_digit c = true -> lstrip (c :: s) = c :: s.
Proof.
  intros Hc. destruct (ascii_digit_facts c Hc) as (E & _).
  unfold lstrip. cbn [drop_while]. by rewrite E.
Qed.

(** [int()] of a text of ASCII digits is the number it writes. *)
Lemma py_int_digits s :
  s <> [] -> Forall (fun c => is_ascii_digit c = true) s -> py_int s = Ok (decimal 0 s).
Proof.
  intros Hne Hs.
  assert (strip s = s) as Hstrip.
  { unfold strip. destruct s as [|c s']; [done|].
    rewrite lstrip_digit by (by inversion Hs).
    assert (Forall (fun c => is_ascii_digit c = true) (reverse (c :: s'))) as Hr
      by (by apply Forall_reverse).
    destruct (reverse (c :: s')) as [|x r] eqn:E.
    { apply (f_equal length) in E. rewrite length_reverse in E. done. }
    rewrite lstrip_digit by (by inversion Hr). by rewrite <- E, reverse_involutive. }
  unfold py_int. rewrite Hstrip. destruct s as [|c s']; [done|].
  destruct (ascii_digit_facts c) as (_ & E43 & E45 & _); [by inversion Hs|].
  rewrite E43, E45. rewrite (digits_value_decimal _ 0 false Hs) by (by left).
  f_equal. lia.
Qed.

Lemma decimal_lt (a b : str) (x y : Z) :
  length a = length b ->
  Forall (fun c => is_ascii_digit c = true) a ->
  Forall (fun c => is_ascii_digit c = true) b ->
  x < y -> decimal x a < decimal y b.
Proof.
  intros Hlen Ha. revert b x y Hlen.
  induction Ha as [|c a Hc _ IH]; intros [|d b] x y Hlen Hb Hxy; try done.
  inversion Hb as [|? ? Hd Hb']; subst. cbn [decimal fold_left].
  apply IH; [by injection Hlen|done|].
  apply ascii_digit_cases in Hc, Hd.
  repeat (destruct Hc as [-> | Hc]); try subst c;
    repeat (destruct Hd as [-> | Hd]); try subst d; simpl; lia.
Qed.

Lemma decimal_le (a b : str) (x : Z) :
  length a = length b ->
  Forall (fun c => is_ascii_digit c = true) a ->
  Forall (fun c => is_ascii_digit c = true) b ->
  str_le a b = true -> decimal x a <= decimal x b.
Proof.
  intros Hlen Ha. revert b x Hlen.
  induction Ha as [|c a Hc Ha IH]; intros [|d b] x Hlen Hb Hle; try done.
  inversion Hb as [|? ? Hd Hb']; subst. cbn [decimal fold_left].
  cbn [str_le] in Hle. apply orb_true_iff in Hle as [Hlt|[Heq Hle]%andb_true_iff].
  - apply N.ltb_lt in Hlt. apply Z.lt_le_incl.
    apply decimal_lt; [by injection Hlen|done|done|].
    apply ascii_digit_cases in Hc. repeat (destruct Hc as [-> | Hc]); try subst c; lia.
  - apply N.eqb_eq in Heq as ->. apply IH; [by injection Hlen|done|done].
Qed.

(** X16: The answer sheet is sorted by the text of the id; when the ids of
    the files are written with ASCII digits and all have the same
    length (as the zero-padded ids 00001 to 00251 of the pipeline), the
    rows are in the order of the numbers. *)
Theorem answer_sheet_numeric_order (json_files : list json_file) (width : nat) :
  (0 < width)%nat ->
  Forall (fun f =>
            length (split_first (name f)) = width /\
            Forall (fun c => is_ascii_digit c = true) (split_first (name f)))
         json_files ->
  exists rep,
    process_files json_files = Ok rep /\
    StronglySorted id_le (csv_rows rep).
Proof.
  intros Hw Hall.
  destruct (process_files_report json_files) as (rep & Hrep & Hc & _).
  exists rep. split; [done|].
  fold (scanned_rows json_files) in Hc.
  assert (Forall (fun r => length r.1 = width /\
                           Forall (fun c => is_ascii_digit c = true) r.1)
                 (csv_rows rep)) as Hrows.
  { apply Forall_forall. intros r Hr. rewrite Hc, sort_by_id_perm in Hr.
    apply elem_of_scanned_rows in Hr as (f & i & c & Hf & _ & _ & _ & ->).
    by apply (proj1 (Forall_forall _ _) Hall). }
  pose proof (sort_by_id_sorted (scanned_rows json_files)) as Hsorted.
  rewrite <- Hc in Hsorted. clear Hc Hrep Hall.
  induction Hsorted as [|r l Hl IH Hr]; [constructor|].
  apply Forall_cons in Hrows as [[Hlen Hdig] Hrows'].
  constructor; [by apply IH|].
  apply Forall_forall. intros r' Hr'.
  pose proof (proj1 (Forall_forall _ _) Hr _ Hr') as Hle.
  destruct (proj1 (Forall_forall _ _) Hrows' _ Hr') as [Hlen' Hdig'].
  exists (decimal 0 r.1), (decimal 0 r'.1). split_and!.
  - apply py_int_digits; [|done]. intros E. rewrite E in Hlen. simpl in Hlen. lia.
  - apply py_int_digits; [|done]. intros E. rewrite E in Hlen'. simpl in Hlen'. lia.
  - apply decimal_le; [congruence|done|done|exact Hle].
Qed.

Lemma answer_sheet_numeric_order_witness :
  exists rep,
    process_files
      [result_file "00010_result.json" "<answer>A</answer>";
       result_file "00002_result.json" "<answer>B</answer>"] = Ok rep /\
    StronglySorted id_le (csv_rows rep).
Proof.
  apply (answer_sheet_numeric_order
           [result_file "00010_result.json" "<answer>A</answer>";
            result_file "00002_result.json" "<answer>B</answer>"] 5); [lia|].
  repeat constructor.
Defined.

End numeric_ids.

(* ===================================================================== *)
(** * Further properties: the Attempt Sampler                             *)
(* ===================================================================== *)

Section sampler_requests.
Import Py Run ThreeTimes.

Implicit Types (w : world) (tr : list event) (q : row).

(** The first frame that cannot be read ends the loop. *)
Lemma add_frames_raise w (pre post images : list str) (p : str) (e : exn)
    (content : list part) tr :
  Forall2 (fun path image => Run.image w path = Ok image) pre images ->
  Run.image w p = Raise e ->
  add_frames w (pre ++ p :: post) content tr
  = (Raise e, tr ++ map ReadImage (pre ++ [p])).
Proof.
  intros H Hp. revert content tr.
  induction H as [|p' b pre images Hp' _ IH]; intros content tr.
  - cbn [app add_frames map]. unfold and_then_ok, encode_image, emit, ret, and_then.
    by rewrite Hp.
  - cbn [app add_frames map]. unfold and_then_ok, encode_image, emit, ret, and_then.
    rewrite Hp', IH. by rewrite <- !app_assoc.
Qed.

(** X17: When the frames of the video can be read, [process_question] lists
    them, reads them in order and issues one request: the prompt with
    the question, then one image per frame in the order of the paths,
    for [gpt-4o] with [max_tokens] 8192 and temperature 0.7.  Its result
    is the first choice of the answer, or the error of the call. *)
Theorem sampler_request_shape w (video_id question : str) (images : list str) tr :
  frames w video_id <> [] ->
  Forall2 (fun path image => Run.image w path = Ok image) (frames w video_id) images ->
  process_question w video_id question tr
  = (match bind (remote w (tr ++ Glob video_id :: map ReadImage (frames w video_id))
                   (sampler_request question images)) first_choice with
     | Ok ch => response_of video_id ch
     | Raise e => failure_of video_id e
     end,
     tr ++ Glob video_id :: map ReadImage (frames w video_id)
        ++ [Create (sampler_request question images)]).
Proof. intros Hne Himg. by apply process_question_readable. Qed.

Lemma sampler_request_shape_witness :
  process_question sample_world (of_string "00001") (of_string "What next?") []
  = (match bind (remote sample_world
                   ([] ++ Glob (of_string "00001")
                       :: map ReadImage (frames sample_world (of_string "00001")))
                   (sampler_request (of_string "What next?") [of_string "QUJD"]))
                first_choice with
     | Ok ch => response_of (of_string "00001") ch
     | Raise e => failure_of (of_string "00001") e
     end,
     [] ++ Glob (of_string "00001")
        :: map ReadImage (frames sample_world (of_string "00001"))
        ++ [Create (sampler_request (of_string "What next?") [of_string "QUJD"])]).
Proof.
  apply (sampler_request_shape sample_world (of_string "00001") (of_string "What next?")
           [of_string "QUJD"] []).
  - vm_compute. discriminate.
  - vm_compute. by repeat constructor.
Defined.

(** X18: A frame that cannot be read ends the attempt: the frames after it
    are not read, no request is issued, and the result carries the
    message of the exception. *)
Theorem unreadable_frame_ends_attempt w (video_id question : str)
    (pre post images : list str) (p : str) (e : exn) tr :
  frames w video_id = pre ++ p :: post ->
  Forall2 (fun path image => Run.image w path = Ok image) pre images ->
  Run.image w p = Raise e ->
  process_question w video_id question tr
  = (failure_of video_id e, tr ++ Glob video_id :: map ReadImage (pre ++ [p])).
Proof.
  intros Hf Himg Hp. rewrite process_question_unfold.
  unfold attempt_body, and_then_ok, get_frame_paths, emit, ret, and_then. cbn [fst snd].
  rewrite Hf. rewrite bool_decide_eq_false_2 by (by destruct pre).
  rewrite (add_frames_raise _ _ _ _ _ _ _ _ Himg Hp).
  cbn [fst snd try_except]. by rewrite <- app_assoc.
Qed.

Lemma unreadable_frame_ends_attempt_witness :
  process_question unreadable_world (of_string "00001") (of_string "What next?") []
  = (failure_of (of_string "00001") (Exn OSError (of_string "Permission denied")),
     [] ++ Glob (of_string "00001")
        :: map ReadImage ([of_string "extracted_frames/00001/frame_1.jpg"]
                          ++ [of_string "extracted_frames/00001/frame_2.jpg"])).
Proof.
  apply (unreadable_frame_ends_attempt unreadable_world (of_string "00001")
           (of_string "What next?") [of_string "extracted_frames/00001/frame_1.jpg"] []
           [of_string "QUJD"]).
  - vm_compute. reflexivity.
  - vm_compute. by repeat constructor.
  - vm_compute. reflexivity.
Defined.

(** An attempt writes no file and reaches the endpoint at most once. *)
Lemma process_question_trace w (video_id question : str) tr :
  exists evs,
    (process_question w video_id question tr).2 = tr ++ evs /\
    Forall (fun e => is_dump e = false) evs /\
    (length (filter (fun e => is_create e = true) evs) <= 1)%nat.
Proof.
  rewrite process_question_unfold. cbn [snd].
  unfold attempt_body, and_then_ok, get_frame_paths, emit, ret, and_then. cbn [fst snd].
  case_bool_decide.
  { exists [Glob video_id]. split_and!; [done|by repeat constructor|simpl; lia]. }
  destruct (add_frames w (frames w video_id) _ (tr ++ [Glob video_id]))
    as [[content|e] tr1] eqn:E;
    apply add_frames_events in E as (evs & -> & Hreads).
  - unfold create. cbn [fst snd].
    assert (Forall (fun e => is_dump e = false) evs) as Hnd
      by (eapply Forall_impl; [exact Hreads|]; by intros ? (p & ->)).
    destruct (remote w _ _) as [c|e]; cbn [fst snd];
      (exists (Glob video_id :: evs ++ [Create (Request "gpt-4o" (Parts content)
                                                (Some 8192) (Some "0.7"%string) None)]));
      (split_and!;
       [ by rewrite <- !app_assoc
       | constructor; [done|]; apply Forall_app; split; [done|by repeat constructor]
       | rewrite filter_cons_False by done;
         rewrite filter_app, (no_create_in_reads _ Hreads); simpl; lia ]).
  - cbn [fst snd]. exists (Glob video_id :: evs). split_and!.
    + by rewrite <- app_assoc.
    + constructor; [done|]. eapply Forall_impl; [exact Hreads|]. by intros ? (p & ->).
    + rewrite filter_cons_False by done. rewrite (no_create_in_reads _ Hreads). simpl. lia.
Qed.

Lemma attempts_trace w q (xs : list nat) tr :
  exists evs,
    (for_each (fun _ : nat => process_question w (id q) (question q)) xs tr).2 = tr ++ evs /\
    Forall (fun e => is_dump e = false) evs /\
    (length (filter (fun e => is_create e = true) evs) <= length xs)%nat.
Proof.
  revert tr. induction xs as [|x xs IH]; intros tr.
  - exists []. simpl. rewrite app_nil_r. split_and!; [done|constructor|simpl; lia].
  - cbn [for_each]. unfold and_then, ret.
    destruct (process_question_trace w (id q) (question q) tr) as (evs1 & H1 & Hd1 & Hc1).
    destruct (process_question w (id q) (question q) tr) as [b tr1].
    cbn [snd] in H1. subst tr1.
    destruct (IH (tr ++ evs1)) as (evs2 & H2 & Hd2 & Hc2).
    destruct (for_each _ xs (tr ++ evs1)) as [bs tr2]. cbn [snd] in *. subst tr2.
    exists (evs1 ++ evs2). split_and!.
    + by rewrite <- app_assoc.
    + by apply Forall_app.
    + rewrite filter_app, length_app. simpl. lia.
Qed.

(** The trace of the loop of [main]: a block per question. *)
Lemma sample_all_trace w (n : nat) questions all_results tr :
  (0 < n)%nat ->
  exists docs blocks,
    sample_all w n questions all_results tr
      = (Ok (all_results ++ docs), tr ++ concat blocks) /\
    Forall2 (fun q block =>
               exists pre attempts,
                 block = pre ++ [Dump (initial_path (id q))
                                   (Combined (VStr (id q)) attempts)] /\
                 length attempts = n /\
                 Forall (fun e => is_dump e = false) pre /\
                 (length (filter (fun e => is_create e = true) pre) <= n)%nat)
            questions blocks /\
    Forall2 (fun block doc => last block = Some (Dump (output_path doc) doc)) blocks docs.
Proof.
  intros Hn. revert all_results tr.
  induction questions as [|q rest IH]; intros all_results tr.
  - exists [], []. simpl. unfold ret. rewrite !app_nil_r. by split_and!.
  - cbn [sample_all]. unfold and_then_ok, emit, ret, and_then.
    destruct (sample_question_shape w n q tr Hn) as (rs & tr1 & Hrs & Hlen & Hs).
    rewrite Hs.
    destruct (attempts_trace w q (seq 0 n) tr) as (pre & Hpre & Hd & Hc).
    rewrite Hrs in Hpre. cbn [snd] in Hpre. subst tr1. rewrite length_seq in Hc.
    destruct (IH (all_results ++ [Combined (VStr (id q)) (attempts_of rs)])
                 ((tr ++ pre) ++ [Dump (output_path (Combined (VStr (id q)) (attempts_of rs)))
                                    (Combined (VStr (id q)) (attempts_of rs))]))
      as (docs & blocks & -> & Hall & Hlast).
    exists (Combined (VStr (id q)) (attempts_of rs) :: docs),
           ((pre ++ [Dump (initial_path (id q)) (Combined (VStr (id q)) (attempts_of rs))])
              :: blocks).
    split_and!.
    + cbn [concat]. by rewrite <- !app_assoc.
    + constructor; [|done]. exists pre, (attempts_of rs).
      split_and!; [done|by rewrite attempts_of_length|done|done].
    + constructor; [|done]. by rewrite last_snoc.
Qed.

(** X19: [main] writes the document of a question as soon as its three
    attempts are gathered and before the next question is started: the
    run is a sequence of blocks, one per question in the order of the
    questions, each made of the events of the three attempts (with at
    most three remote calls and no file written) followed by the
    writing of the document, with three entries, to the file of the
    question's id. *)
Theorem one_file_per_question w questions tr :
  exists docs blocks,
    main w questions tr = (Ok docs, tr ++ concat blocks) /\
    Forall2 (fun q block =>
               exists pre attempts,
                 block = pre ++ [Dump (initial_path (id q))
                                   (Combined (VStr (id q)) attempts)] /\
                 length attempts = 3%nat /\
                 Forall (fun e => is_dump e = false) pre /\
                 (length (filter (fun e => is_create e = true) pre) <= 3)%nat)
            questions blocks /\
    Forall2 (fun block doc => last block = Some (Dump (output_path doc) doc)) blocks docs.
Proof.
  unfold main.
  destruct (sample_all_trace w 3 questions [] tr) as (docs & blocks & H & H1 & H2); [lia|].
  exists docs, blocks. by split_and!.
Qed.

(** X20: [process_batch] returns one dictionary per question, in the order of
    the questions; each carries the id of its question, with either the
    answer and the finish reason or the error. *)
Theorem process_batch_results w questions tr :
  exists results tr',
    process_batch w questions tr = (results, tr') /\
    Forall2 (fun q res =>
               res !! "video_id"%string = Some (VStr (id q)) /\
               ((exists ch, res = response_of (id q) ch)
                \/ (exists e, res = failure_of (id q) e)))
            questions results.
Proof.
  unfold process_batch.
  destruct (for_each _ questions tr) as [results tr'] eqn:E.
  exists results, tr'. split; [done|].
  pose proof (for_each_Forall2 _ _ _ _ _ E) as HF.
  eapply Forall2_impl; [exact HF|]. intros q res (tr_i & ->). cbn beta.
  split; [apply process_question_video_id|].
  rewrite process_question_unfold. cbn [fst].
  destruct (attempt_body w (id q) (question q) tr_i) as [[d|e] tr1] eqn:Eb; cbn [fst try_except].
  - apply attempt_body_ok in Eb as (ch & ->). left. by exists ch.
  - right. by exists e.
Qed.

End sampler_requests.

(* ===================================================================== *)
(** * Further properties: from one script to the next                     *)
(* ===================================================================== *)

Section handover_facts.
Import Py Run Pipeline.

Lemma initial_path_inj (v v' : str) :
  ThreeTimes.initial_path v = ThreeTimes.initial_path v' -> v = v'.
Proof.
  unfold ThreeTimes.initial_path. intros H.
  apply app_inv_head in H. by apply app_inv_tail in H.
Qed.

Lemma write_three_attempts e store v :
  writes_three_attempts e -> three_attempts (store v) -> three_attempts (write e store v).
Proof.
  unfold write. destruct e as [| | |path [d|x attempts]]; try done.
  intros Hlen Hst. case_bool_decide; [|done]. by exists attempts.
Qed.

Lemma store_keeps_three_attempts (evs : list event) store v :
  Forall writes_three_attempts evs ->
  three_attempts (store v) ->
  three_attempts (fold_left (fun st e => write e st) evs store v).
Proof.
  intros H. revert store. induction H as [|e evs He _ IH]; intros store Hst; [done|].
  cbn [fold_left]. apply IH. by apply write_three_attempts.
Qed.

Lemma store_gets_three_attempts (evs : list event) store v doc :
  Forall writes_three_attempts evs ->
  Dump (ThreeTimes.initial_path v) doc ∈ evs ->
  three_attempts (fold_left (fun st e => write e st) evs store v).
Proof.
  intros H. revert store. induction H as [|e evs He Hall IH]; intros store Hin.
  - by apply elem_of_nil in Hin.
  - cbn [fold_left]. apply elem_of_cons in Hin as [<-|Hin]; [|by apply IH].
    apply store_keeps_three_attempts; [done|].
    unfold write. rewrite bool_decide_eq_true_2 by done.
    destruct doc as [d|x attempts]; [done|]. by exists attempts.
Qed.

(** Every file the loop of three_times.py writes holds three attempts,
    and every question gets its file. *)
Lemma blocks_write_three_attempts (questions : list row) (blocks : list (list event)) :
  Forall2 (fun q block =>
             exists pre attempts,
               block = pre ++ [Dump (ThreeTimes.initial_path (id q))
                                 (Combined (VStr (id q)) attempts)] /\
               length attempts = 3%nat /\
               Forall (fun e => is_dump e = false) pre /\
               (length (filter (fun e => is_create e = true) pre) <= 3)%nat)
          questions blocks ->
  Forall writes_three_attempts (concat blocks) /\
  forall q, q ∈ questions ->
    exists doc, Dump (ThreeTimes.initial_path (id q)) doc ∈ concat blocks.
Proof.
  induction 1 as [|q block questions blocks (pre & attempts & -> & Hlen & Hpre & _) _ [IH1 IH2]].
  - split; [constructor|]. by intros q ?%elem_of_nil.
  - cbn [concat]. split.
    + apply Forall_app. split; [|done]. apply Forall_app. split.
      * eapply Forall_impl; [exact Hpre|]. by intros [].
      * by repeat constructor.
    + intros q' [->|Hq]%elem_of_cons.
      * eexists. apply elem_of_app. left. apply elem_of_app. right. apply list_elem_of_here.
      * destruct (IH2 q' Hq) as [doc Hdoc]. exists doc. apply elem_of_app. by right.
Qed.

(** X21: Whatever happened to its attempts, a question sampled by
    three_times.py is queued by three_times_preview.py: after a run of
    [main] over the questions, the reasoning script finds for every one
    of them a file with three attempts and queues it, in the order of
    the questions, also when the three attempts all failed; the stored
    attempts can be formatted, so the reasoning run does not raise on
    them. *)
Theorem sampled_questions_are_queued (w : Run.world) (questions : list row) tr :
  exists docs tr',
    ThreeTimes.main w questions tr = (Ok docs, tr') /\
    forall before remote',
      Forall2 (fun q it =>
                 ThreeTimesPreview.item_video_id it = id q /\
                 ThreeTimesPreview.item_question it = question q /\
                 length (ThreeTimesPreview.item_attempts it) = 3%nat /\
                 ThreeTimesPreview.well_formed it)
              questions
              (ThreeTimesPreview.gather_items
                 (ThreeTimesPreview.World (initial_answers_after before tr') remote')
                 questions).
Proof.
  unfold ThreeTimes.main.
  destruct (sample_all_trace w 3 questions [] tr) as (docs & blocks & H & Hb & _); [lia|].
  exists docs, (tr ++ concat blocks). split; [done|]. intros before remote'.
  destruct (blocks_write_three_attempts _ _ Hb) as [Hall Hevery].
  rewrite gather_items_flat.
  assert (forall q, q ∈ questions ->
            three_attempts (initial_answers_after before (tr ++ concat blocks) (id q)))
    as Hgood.
  { intros q Hq. destruct (Hevery q Hq) as [doc Hdoc].
    unfold initial_answers_after. rewrite fold_left_app.
    by apply store_gets_three_attempts with doc. }
  clear -Hgood. induction questions as [|q rest IH]; [constructor|].
  cbn [flat_map].
  destruct (Hgood q) as (attempts & Hq & Hlen); [apply list_elem_of_here|].
  pose proof (items_of_row_cases
                (ThreeTimesPreview.World
                   (initial_answers_after before (tr ++ concat blocks)) remote') q) as Hrow.
  cbn [ThreeTimesPreview.initial_answers] in Hrow. rewrite Hq in Hrow.
  destruct attempts as [|a l]; [done|]. cbn [map] in Hrow. rewrite Hrow. cbn [app].
  constructor.
  - cbn [ThreeTimesPreview.item_video_id ThreeTimesPreview.item_question
         ThreeTimesPreview.item_attempts].
    split_and!; [done|done|by rewrite length_cons, length_map|].
    exists (a :: l). apply (read_entries_complete (a :: l)).
  - apply IH. intros q' Hq'. apply Hgood. by apply list_elem_of_further.
Qed.

Lemma split_first_result_name (v : str) :
  95%N ∉ v -> split_first (v ++ of_string "_result.json") = v.
Proof.
  unfold split_first. induction v as [|c v IH]; [done|].
  intros [Hc Hv]%not_elem_of_cons. cbn [app take_while].
  destruct (c =? 95)%N eqn:E; [apply N.eqb_eq in E; congruence|].
  cbn [negb]. by rewrite IH.
Qed.

(** The extractor looks at the answer of a dictionary only. *)
Lemma extract_answer_of_dict (d : gmap string value) (s : str) :
  d !! "answer"%string = Some (VStr s) ->
  ExtractAnswers.extract_answer_from_json (JDict d)
  = ExtractAnswers.extract_answer_from_json (ExtractAnswers.answer_record s).
Proof.
  intros H. unfold ExtractAnswers.extract_answer_from_json, ExtractAnswers.get_answer,
    ExtractAnswers.answer_record.
  by rewrite H, lookup_singleton_eq.
Qed.

Lemma effect_no_answer (f : ExtractAnswers.json_file) (i : Z) (jc : json_content) :
  ExtractAnswers.id_of f = Ok i -> 1 <= i <= 251 ->
  ExtractAnswers.content f = Ok jc ->
  ExtractAnswers.extract_answer_from_json jc = Ok None ->
  ExtractAnswers.printed (ExtractAnswers.file_effect f)
  = [ExtractAnswers.NoAnswerFound (ExtractAnswers.name f)].
Proof.
  intros Hid Hi Hc Hx. unfold ExtractAnswers.id_of in Hid.
  unfold ExtractAnswers.file_effect, ExtractAnswers.scan_file. rewrite Hid. cbn [bind].
  assert ((1 <=? i) && (i <=? 251) = true) as ->
    by (apply andb_true_iff; split; apply Z.leb_le; lia).
  rewrite Hc. cbn [bind]. by rewrite Hx.
Qed.

(** X22: From the Consensus Reasoner to the answer sheet: when the Result of
    a reasoning call is scanned by extract_answers.py under an id from 1
    to 251, a call whose answer holds a label makes the id a success
    with that label on the answer sheet; a call that failed leaves a
    Result in which no answer is found, which is reported as such and
    gives no label. *)
Theorem reasoned_answer_reaches_sheet (w : ThreeTimesPreview.world)
    (stored : list ThreeTimesPreview.entry) (attempts : list attempt)
    (question video_id : str) tr (res : gmap string value)
    (json_files : list ExtractAnswers.json_file) (i : Z) :
  let req := ThreeTimesPreview.reason_request question attempts in
  let f := final_file video_id (result_to_save res) in
  ThreeTimesPreview.read_entries stored = Ok attempts ->
  (ThreeTimesPreview.reason_over_attempts w stored question video_id tr).1 = Ok res ->
  f ∈ json_files -> py_int video_id = Ok i -> 1 <= i <= 251 -> 95%N ∉ video_id ->
  exists rep,
    ExtractAnswers.process_files json_files = Ok rep /\
    (forall ch rest s c,
       ThreeTimesPreview.remote w tr req = Ok (Completion (ch :: rest)) ->
       message_content ch = VStr s ->
       ExtractAnswers.extract_answer_from_json (ExtractAnswers.answer_record s)
         = Ok (Some [c]) ->
       i ∈ ExtractAnswers.success_ids rep /\
       (video_id, [c]) ∈ ExtractAnswers.csv_rows rep) /\
    (forall e,
       ThreeTimesPreview.remote w tr req = Raise e ->
       ExtractAnswers.NoAnswerFound (ExtractAnswers.name f) ∈ ExtractAnswers.output rep /\
       ExtractAnswers.parsed_label f = None).
Proof.
  intros req f Hread Hok Hf Hid Hi Hv.
  rewrite (reason_over_attempts_formatted _ _ _ _ _ _ Hread) in Hok.
  cbn [fst] in Hok. injection Hok as Hok.
  destruct (process_files_report json_files) as (rep & Hrep & Hc & Hs & _ & Ho).
  exists rep. split; [done|].
  assert ((1 <=? i) && (i <=? 251) = true) as Hr
    by (apply andb_true_iff; split; apply Z.leb_le; lia).
  destruct (reason_over_formatted_spec w attempts question video_id tr) as [_ Hres].
  fold req in Hres. rewrite Hok in Hres.
  assert (split_first (ExtractAnswers.name f) = video_id) as Hname
    by apply (split_first_result_name _ Hv).
  split.
  - intros ch rest s c Hrem Hs' Hx. rewrite Hrem in Hres. cbn [choices] in Hres.
    assert (ExtractAnswers.parsed_label f = Some (i, [c])) as Hlabel.
    { unfold ExtractAnswers.parsed_label. rewrite Hname, Hid.
      unfold f, final_file, result_to_save. cbn [ExtractAnswers.content bind].
      rewrite Hres, strip_video_id_response.
      rewrite (extract_answer_of_dict _ s) by (by rewrite Hs', lookup_insert_eq).
      by rewrite Hx. }
    split.
    + rewrite Hs. apply elem_of_processed. split; [done|]. by exists f, [c].
    + fold (ExtractAnswers.scanned_rows json_files) in Hc.
      rewrite Hc, sort_by_id_perm. apply elem_of_scanned_rows.
      exists f, i, c. rewrite Hname. split_and!; try done; try lia.
      apply extract_answer_label in Hx as (c' & [= <-] & Hc').
      done.
  - intros e Hrem. rewrite Hrem in Hres.
    assert (ExtractAnswers.extract_answer_from_json (JDict (result_to_save res)) = Ok None)
      as Hnone.
    { unfold result_to_save. rewrite Hres, strip_video_id_error.
      unfold ExtractAnswers.extract_answer_from_json, ExtractAnswers.get_answer.
      rewrite lookup_singleton_ne by done. reflexivity. }
    split.
    + rewrite Ho. apply elem_of_app. left.
      apply list_elem_of_In, in_flat_map. exists (ExtractAnswers.file_effect f). split.
      * apply in_map. by apply list_elem_of_In.
      * rewrite (effect_no_answer f i (JDict (result_to_save res))); [by left| |done..].
        unfold ExtractAnswers.id_of. by rewrite Hname.
    + unfold ExtractAnswers.parsed_label. rewrite Hname, Hid.
      unfold f, final_file. cbn [ExtractAnswers.content bind]. by rewrite Hnone.
Qed.

Lemma reasoned_answer_reaches_sheet_witness :
  exists rep,
    ExtractAnswers.process_files
      [final_file (of_string "00001")
         (result_to_save
            (ThreeTimesPreview.reason_over_formatted ThreeTimesPreview.sample_world
               [ThreeTimesPreview.failed_attempt 1] (of_string "What next?")
               (of_string "00001") []).1)]
      = Ok rep /\
    1 ∈ ExtractAnswers.success_ids rep /\
    (of_string "00001", [65%N]) ∈ ExtractAnswers.csv_rows rep.
Proof.
  destruct (reasoned_answer_reaches_sheet ThreeTimesPreview.sample_world
              [ThreeTimesPreview.Complete (ThreeTimesPreview.failed_attempt 1)]
              [ThreeTimesPreview.failed_attempt 1] (of_string "What next?")
              (of_string "00001") []
              (ThreeTimesPreview.reason_over_formatted ThreeTimesPreview.sample_world
                 [ThreeTimesPreview.failed_attempt 1] (of_string "What next?")
                 (of_string "00001") []).1
              [final_file (of_string "00001")
                 (result_to_save
                    (ThreeTimesPreview.reason_over_formatted ThreeTimesPreview.sample_world
                       [ThreeTimesPreview.failed_attempt 1] (of_string "What next?")
                       (of_string "00001") []).1)] 1)
    as (rep & Hrep & Hok & _).
  - reflexivity.
  - reflexivity.
  - apply list_elem_of_here.
  - vm_compute. reflexivity.
  - lia.
  - apply (bool_decide_unpack _). vm_compute. exact I.
  - exists rep. split; [done|].
    apply (Hok (Choice (VStr (of_string "<answer>A</answer>")) (VStr (of_string "stop")))
               [] (of_string "<answer>A</answer>") 65%N); vm_compute; reflexivity.
Defined.

End handover_facts.

(* ===================================================================== *)
(** * Further properties: reasoner.py                                     *)
(* ===================================================================== *)

Section reasoner_queue_facts.
Import Py Run Reasoner.

Implicit Types (w : world) (tr : list event) (r : row) (it : item).

Lemma description_gather_items_flat w (rows : list row) :
  gather_items w rows = flat_map (items_of_row w) rows.
Proof.
  unfold gather_items.
  enough (forall acc, fold_left (fun items r => items ++ items_of_row w r) rows acc
                      = acc ++ flat_map (items_of_row w) rows) as H by apply (H []).
  induction rows as [|r l IH]; intros acc; simpl.
  - by rewrite app_nil_r.
  - by rewrite IH, <- app_assoc.
Qed.

(** A row is queued exactly when its file loads as a dictionary whose
    answer is true in the sense of Python. *)
Lemma description_items_of_row w r it :
  it ∈ items_of_row w r <->
  exists d v,
    initial_answers w (id r) = Loaded (Ok (JDict d)) /\
    d !! "answer"%string = Some v /\ truthy v = true /\
    it = Item (id r) v (question r).
Proof.
  unfold items_of_row, get_description. split.
  - destruct (initial_answers w (id r)) as [|[[d|]|e]]; cbn; try by intros ?%elem_of_nil.
    destruct (d !! "answer"%string) as [v|] eqn:Ev; cbn.
    + destruct (truthy v) eqn:Et; cbn; [|by intros ?%elem_of_nil].
      intros ->%list_elem_of_singleton. by exists d, v.
    + by intros ?%elem_of_nil.
  - intros (d & v & -> & Hv & Ht & ->). cbn. rewrite Hv. cbn. rewrite Ht.
    apply list_elem_of_here.
Qed.

(** X23: reasoner.py queues a row exactly when the file of its id loads as a
    dictionary with an answer that is not empty (so a dictionary
    without an answer entry is passed over).  The run
    makes one call per queued row, whose prompt holds the question and
    the answer as it was stored, and only then writes the Results, one
    per queued row, each to the file of its id. *)
Theorem description_queue w (rows : list row) tr :
  (forall it, it ∈ gather_items w rows <->
     exists r d v,
       r ∈ rows /\ initial_answers w (id r) = Loaded (Ok (JDict d)) /\
       d !! "answer"%string = Some v /\ truthy v = true /\
       it = Item (id r) v (question r)) /\
  exists dumps,
    main w rows tr =
      (Ok tt,
       tr ++ map (fun it =>
                    Create (Request "o1-preview"
                              (Plain (prompt_head ++ item_question it ++ prompt_mid
                                      ++ format (item_description it) ++ prompt_tail))
                              None None None))
                 (gather_items w rows)
          ++ dumps) /\
    Forall2 (fun it ev => exists doc, ev = Dump (final_path (item_video_id it)) doc)
            (gather_items w rows) dumps.
Proof.
  split.
  - intros it. rewrite description_gather_items_flat, list_elem_of_In, in_flat_map. split.
    + intros (r & Hr & Hit). apply list_elem_of_In, description_items_of_row in Hit
        as (d & v & H). exists r, d, v. by rewrite list_elem_of_In.
    + intros (r & d & v & Hr & H). exists r. rewrite <- !list_elem_of_In.
      split; [done|]. apply description_items_of_row. by exists d, v.
  - destruct (description_main_trace w rows tr) as (results & Hmain & HF).
    eexists. split; [exact Hmain|].
    clear Hmain. induction HF as [|it res items results (tr_i & ->) _ IH]; [constructor|].
    cbn [flat_map].
    destruct (saved_description_fields w (item_description it) (item_question it)
                (item_video_id it) tr_i) as [Hv _].
    cbn zeta in Hv. rewrite Hv. cbn [app]. constructor; [|done]. by eexists.
Qed.

End reasoner_queue_facts.

(* ===================================================================== *)
(** * Further properties: the backfill run                                *)
(* ===================================================================== *)

Section backfill_results.
Import Py Run FillGaps.

Implicit Types (w : world) (tr : list event) (r : row) (ids : option (gset str)).

(** For an allowed id the dictionary is never empty: it holds the
    response or the error. *)
Lemma process_question_result w ids (video_id question : str) tr :
  excluded ids video_id = false ->
  exists evs d,
    process_question w ids video_id question tr = (d, tr ++ evs) /\
    Forall (fun e => is_dump e = false) evs /\
    (dom d = response_fields \/ dom d = error_fields) /\
    (frames w video_id = [] ->
       evs = [Glob video_id] /\
       d = {[ "error"%string :=
                VStr (of_string "No frames found for video ID " ++ video_id) ]}).
Proof.
  intros Hex. unfold process_question, try_catch, and_then_ok, get_frame_paths, emit, ret,
    and_then. rewrite Hex. cbn [fst snd].
  case_bool_decide as Hf.
  { eexists [Glob video_id], _. cbn [try_except].
    split_and!; [reflexivity|by repeat constructor|right; apply dom_error|done]. }
  destruct (add_frames w (frames w video_id) _ (tr ++ [Glob video_id]))
    as [[content|e] tr1] eqn:E;
    apply add_frames_events in E as (evs & -> & Hreads).
  - unfold create. cbn [fst snd].
    assert (Forall (fun e => is_dump e = false) evs) as Hnd
      by (eapply Forall_impl; [exact Hreads|]; by intros ? (p & ->)).
    destruct (remote w _ _) as [c|e]; cbn [fst snd];
      (eexists (Glob video_id :: evs ++ [Create _]), _; split_and!;
       [ rewrite <- !app_assoc; cbn [app]; reflexivity
       | constructor; [done|]; apply Forall_app; split; [done|]; by repeat constructor
       |
       | done ]).
    + unfold first_choice. destruct (choices c); cbn [bind try_except].
      * right. apply dom_error.
      * left. apply dom_response.
    + right. apply dom_error.
  - cbn [fst snd try_except]. eexists (Glob video_id :: evs), _. split_and!.
    + rewrite <- app_assoc. reflexivity.
    + constructor; [done|]. eapply Forall_impl; [exact Hreads|]. by intros ? (p & ->).
    + right. apply dom_error.
    + done.
Qed.

Lemma dom_fields_nonempty (d : gmap string value) :
  dom d = response_fields \/ dom d = error_fields -> d <> ∅.
Proof.
  intros [H|H] ->; rewrite dom_empty_L in H; unfold response_fields, error_fields in H.
  - assert ("answer"%string ∈ (∅ : gset string)) as Hin
      by (rewrite H; apply elem_of_union; left; by apply elem_of_singleton).
    by apply not_elem_of_empty in Hin.
  - assert ("error"%string ∈ (∅ : gset string)) as Hin
      by (rewrite H; by apply elem_of_singleton).
    by apply not_elem_of_empty in Hin.
Qed.

Lemma process_row_result w ids r tr :
  excluded ids (id r) = false ->
  exists evs d,
    process_row w ids r tr = (tt, tr ++ evs ++ [Dump (result_path (id r)) (Dict d)]) /\
    Forall (fun e => is_dump e = false) evs /\
    (dom d = response_fields \/ dom d = error_fields) /\
    (frames w (id r) = [] ->
       evs = [Glob (id r)] /\
       d = {[ "error"%string :=
                VStr (of_string "No frames found for video ID " ++ id r) ]}).
Proof.
  intros Hex. unfold process_row. rewrite Hex. unfold and_then.
  destruct (process_question_result w ids (id r) (question r) tr Hex)
    as (evs & d & -> & Hnd & Hdom & Hnf).
  rewrite bool_decide_eq_false_2 by (by apply dom_fields_nonempty).
  exists evs, d. unfold emit. split_and!; [by rewrite <- app_assoc|done..].
Qed.

Lemma filter_dump_quiet (evs : list event) :
  Forall (fun e => is_dump e = false) evs ->
  filter (fun e => is_dump e = true) evs = [].
Proof.
  induction 1 as [|e evs He _ IH]; [done|].
  rewrite filter_cons_False by congruence. done.
Qed.

(** X24: The backfill run writes a Result for every row it does not skip,
    in the order of the rows and to the file of the row's id, and the
    Result is never empty: it holds the answer and the finish reason, or
    the error; a row whose video has no frames gets the error that says
    so.  (Without an allow-list no row is skipped.) *)
Theorem backfill_writes_every_allowed_row w ids (rows : list row) tr :
  exists evs,
    run w ids rows tr = (tt, tr ++ evs) /\
    Forall2 (fun r ev =>
               exists d,
                 ev = Dump (result_path (id r)) (Dict d) /\
                 (dom d = response_fields \/ dom d = error_fields) /\
                 (frames w (id r) = [] ->
                    d = {[ "error"%string :=
                             VStr (of_string "No frames found for video ID " ++ id r) ]}))
            (filter (fun r => excluded ids (id r) = false) rows)
            (filter (fun e => is_dump e = true) evs) /\
    (ids = None -> filter (fun r => excluded ids (id r) = false) rows = rows).
Proof.
  revert tr.
  assert (forall tr, exists evs,
    run w ids rows tr = (tt, tr ++ evs) /\
    Forall2 (fun r ev =>
               exists d,
                 ev = Dump (result_path (id r)) (Dict d) /\
                 (dom d = response_fields \/ dom d = error_fields) /\
                 (frames w (id r) = [] ->
                    d = {[ "error"%string :=
                             VStr (of_string "No frames found for video ID " ++ id r) ]}))
            (filter (fun r => excluded ids (id r) = false) rows)
            (filter (fun e => is_dump e = true) evs)) as Hrun.
  { induction rows as [|r rows IH]; intros tr.
    - exists []. cbn. unfold ret. rewrite app_nil_r. split; [done|constructor].
    - cbn [run]. unfold and_then. destruct (excluded ids (id r)) eqn:Hex.
      + rewrite filter_cons_False by congruence.
        destruct (process_row_spec w ids r tr) as (evs1 & -> & Hnil & _).
        rewrite (Hnil Hex), app_nil_r. apply IH.
      + rewrite filter_cons_True by done.
        destruct (process_row_result w ids r tr Hex) as (evs1 & d & -> & Hnd & Hdom & Hnf).
        destruct (IH (tr ++ evs1 ++ [Dump (result_path (id r)) (Dict d)]))
          as (evs2 & -> & HF).
        exists ((evs1 ++ [Dump (result_path (id r)) (Dict d)]) ++ evs2). split.
        * by rewrite <- !app_assoc.
        * rewrite !filter_app, (filter_dump_quiet _ Hnd). cbn [app].
          rewrite filter_cons_True by done. rewrite filter_nil. cbn [app].
          constructor; [|done]. exists d. split_and!; [done|done|].
          intros Hf. by destruct (Hnf Hf). }
  intros tr. destruct (Hrun tr) as (evs & H1 & H2). exists evs. split_and!; [done|done|].
  intros ->. clear. induction rows as [|r rows IH]; [done|].
  rewrite filter_cons_True by done. by rewrite IH.
Qed.

End backfill_results.

(* ===================================================================== *)
(** * Further properties: the Bounded Dispatcher                          *)
(* ===================================================================== *)

Section dispatcher_runs.
Import Dispatcher.

Implicit Types (s : state) (l : list phase) (p : phase) (i : nat).

Local Open Scope nat_scope.

(** While a coroutine has not finished, some coroutine can move. *)
Lemma some_coroutine_can_move K s :
  1 <= K ->
  value s + count has_slot (phases s) = K ->
  (exists i p, phases s !! i = Some p /\ p <> Done) ->
  exists s', next s s'.
Proof.
  intros HK Hinv (i & p & Hp & Hnd).
  assert (forall j q, phases s !! j = Some q -> has_slot q = true ->
            exists s', next s s') as Hslot.
  { intros j q Hq Hs. destruct q; try done.
    - eexists. exists j. by apply step_issue.
    - eexists. exists j. by apply step_complete.
    - eexists. exists j. by apply step_release. }
  destruct p; try done.
  - destruct (value s) as [|v] eqn:Hv.
    + eexists. exists i. apply step_suspend; [done|]. by left.
    + eexists. exists i. apply step_acquire; [by left|lia].
  - destruct (value s) as [|v] eqn:Hv.
    + destruct (count_pos has_slot (phases s)) as (j & q & Hq & Hs); [lia|].
      by apply (Hslot j q).
    + eexists. exists i. apply step_acquire; [by right|lia].
  - by apply (Hslot i Holding).
  - by apply (Hslot i InFlight).
  - by apply (Hslot i Returned).
Qed.

Lemma all_done_or_not l :
  Forall (fun p => p = Done) l \/ exists i p, l !! i = Some p /\ p <> Done.
Proof.
  induction l as [|q l [IH|(i & p & Hi & Hp)]].
  - left. constructor.
  - destruct q; [right; by eexists 0, _..|left; by constructor].
  - right. by exists (S i), p.
Qed.

Lemma count_all_done (f : phase -> bool) l :
  f Done = false -> Forall (fun p => p = Done) l -> count f l = 0.
Proof.
  intros Hf. induction 1 as [|p l -> _ IH]; [done|]. simpl. by rewrite Hf, IH.
Qed.

Lemma completes_within (m : nat) K s :
  1 <= K ->
  remaining s <= m ->
  value s + count has_slot (phases s) = K ->
  exists s',
    rtc next s s' /\ Forall (fun p => p = Done) (phases s') /\ value s' = K /\
    length (phases s') = length (phases s).
Proof.
  intros HK. revert s. induction m as [|m IH]; intros s Hm Hinv.
  - destruct (all_done_or_not (phases s)) as [Hall|Hsome].
    + exists s. split_and!; [apply rtc_refl|done| |done].
      rewrite (count_all_done has_slot _ eq_refl Hall) in Hinv. lia.
    + destruct (some_coroutine_can_move K s HK Hinv Hsome) as (s1 & i & Hstep).
      destruct (step_preserves K i s s1 Hstep Hinv) as (_ & _ & Hlt). lia.
  - destruct (all_done_or_not (phases s)) as [Hall|Hsome].
    + exists s. split_and!; [apply rtc_refl|done| |done].
      rewrite (count_all_done has_slot _ eq_refl Hall) in Hinv. lia.
    + destruct (some_coroutine_can_move K s HK Hinv Hsome) as (s1 & i & Hstep).
      destruct (step_preserves K i s s1 Hstep Hinv) as (Hinv1 & Hlen1 & Hlt).
      destruct (IH s1) as (s' & Hrun & Hall & Hv & Hlen); [lia|done|].
      exists s'. split_and!; [|done|done|congruence].
      apply rtc_l with s1; [by exists i|done].
Qed.

(** X25: The dispatcher does not deadlock: from every state a run can reach,
    the coroutines can be run to completion; then every one of them has
    returned, none was lost, and all K slots are free again. *)
Theorem batch_completes (K n : nat) s :
  1 <= K ->
  rtc run_step (init K n) s ->
  exists s',
    rtc next s s' /\
    Forall (fun p => p = Done) (phases s') /\
    value s' = K /\
    length (phases s') = length (phases s).
Proof.
  intros HK Hreach.
  destruct (reachable_invariant K n s Hreach) as [Hinv _].
  by apply (completes_within (remaining s) K s).
Qed.

Lemma batch_completes_witness :
  exists s',
    rtc next (init 1 2) s' /\
    Forall (fun p => p = Done) (phases s') /\
    value s' = 1 /\
    length (phases s') = length (phases (init 1 2)).
Proof. apply (batch_completes 1 2 (init 1 2)); [lia|apply rtc_refl]. Defined.

End dispatcher_runs.
